(** * shp2geojson: the Shapefile / DBF decoders and the GeoJSON assembler

    A shallow embedding of [src/preprocess.ts] ([SHPParser], [DBFParser])
    and of [toGeojson] / [TransCoord] from [src/preview.ts], followed by the
    properties of the decoders and of the assembler.

    Conventions of the embedding:
    - an [ArrayBuffer] seen through a [DataView] is a [list byte];
    - a JavaScript integer-valued number is a [Z]; the 32, 16 and 8 bit
      reads of [DataView] write their wrap-around out;
    - an IEEE-754 double read with [getFloat64] is kept as the eight bytes
      that hold it (no arithmetic on doubles is ever performed by the
      decoders, they are only carried around; the two products proj4
      makes between equal systems are Stdlib's [SFmul] on binary64);
    - a JavaScript string is the list of its UTF-16 code units;
    - a [throw] is the [Throw] constructor of the result type [res];
    - the [while] loop of [SHPParser.parse], which need not terminate on
      arbitrary bytes, takes fuel and answers [None] when it runs out. *)

From Stdlib Require Import ZArith List String Ascii Bool Lia DecimalString.
From Stdlib Require Import Strings.Byte.
From Stdlib Require Import Floats.SpecFloat.
Import ListNotations.

Local Open Scope Z_scope.
Local Open Scope list_scope.

(* ================================================================== *)
(** * The JavaScript runtime pieces the program relies on               *)
(* ================================================================== *)

Module JS.

(** ** Exceptions and results *)

Inductive ErrorClass := ErrorK | RangeErrorK | TypeErrorK | URIErrorK.

Record JsError := mkError { errClass : ErrorClass; message : string }.

Inductive res (A : Type) : Type :=
| Ok (a : A)
| Throw (e : JsError).
Arguments Ok {A} a.
Arguments Throw {A} e.

Definition bind {A B} (m : res A) (k : A -> res B) : res B :=
  match m with
  | Ok a => k a
  | Throw e => Throw e
  end.

Definition isOk {A} (m : res A) : bool :=
  match m with Ok _ => true | Throw _ => false end.

(** [try { m } catch (e) { throw h(e) }] *)
Definition rethrow {A} (m : res A) (h : JsError -> JsError) : res A :=
  match m with
  | Ok a => Ok a
  | Throw e => Throw (h e)
  end.

(** [new Error(msg)] *)
Definition newError (msg : string) : JsError := mkError ErrorK msg.

(** Template literals print an integer-valued number in decimal. *)
Definition numToString (z : Z) : string :=
  NilZero.string_of_int (Z.to_int z).

(** ** DataView over an ArrayBuffer *)

Definition DataView := list byte.

Definition byteLength (dv : DataView) : Z := Z.of_nat (List.length dv).

(** The value of a byte, [0 .. 255]. *)
Definition u8 (b : byte) : Z := Z.of_N (Byte.to_N b).

(** Little-endian value of a run of bytes. *)
Fixpoint leZ (bs : list byte) : Z :=
  match bs with
  | [] => 0
  | b :: bs' => u8 b + 256 * leZ bs'
  end.

(** Two's complement reading of a [w]-bit unsigned value. *)
Definition toSigned (w : Z) (u : Z) : Z :=
  if u <? 2 ^ (w - 1) then u else u - 2 ^ w.

(** A double, as the eight bytes that store it, least significant first. *)
Inductive float64 :=
| F64 (b0 b1 b2 b3 b4 b5 b6 b7 : byte).

(** The message of the [RangeError] a read outside the buffer throws
    (the text is the engine's, V8's here). *)
Definition outOfBounds : JsError :=
  mkError RangeErrorK "Offset is outside the bounds of the DataView".

(** The bytes from offset [idx] on; nothing when [idx] is negative. *)
Definition bytesFrom (dv : DataView) (idx : Z) : list byte :=
  if idx <? 0 then [] else skipn (Z.to_nat idx) dv.

Definition getUint8 (dv : DataView) (idx : Z) : res Z :=
  match bytesFrom dv idx with
  | b0 :: _ => Ok (u8 b0)
  | _ => Throw outOfBounds
  end.

Definition getInt8 (dv : DataView) (idx : Z) : res Z :=
  match bytesFrom dv idx with
  | b0 :: _ => Ok (toSigned 8 (u8 b0))
  | _ => Throw outOfBounds
  end.

Definition getInt16 (dv : DataView) (idx : Z) (littleEndian : bool) : res Z :=
  match bytesFrom dv idx with
  | b0 :: b1 :: _ =>
      Ok (toSigned 16 (leZ (if littleEndian then [b0; b1] else [b1; b0])))
  | _ => Throw outOfBounds
  end.

Definition getInt32 (dv : DataView) (idx : Z) (littleEndian : bool) : res Z :=
  match bytesFrom dv idx with
  | b0 :: b1 :: b2 :: b3 :: _ =>
      Ok (toSigned 32
            (leZ (if littleEndian then [b0; b1; b2; b3] else [b3; b2; b1; b0])))
  | _ => Throw outOfBounds
  end.

Definition getFloat64 (dv : DataView) (idx : Z) (littleEndian : bool)
  : res float64 :=
  match bytesFrom dv idx with
  | b0 :: b1 :: b2 :: b3 :: b4 :: b5 :: b6 :: b7 :: _ =>
      Ok (if littleEndian then F64 b0 b1 b2 b3 b4 b5 b6 b7
          else F64 b7 b6 b5 b4 b3 b2 b1 b0)
  | _ => Throw outOfBounds
  end.

(** [new Int32Array(n)] / [new Float64Array(n)]: a negative length is a
    [RangeError].  A length the engine cannot allocate is one too
    ([Array buffer allocation failed] in V8), and that one the model
    leaves out: for such a length the model goes on to the reads that
    fill the array, which run off the buffer, so that the model throws
    there as well, but the RangeError of the read and not the engine's.
    Nothing below says which error a shape with such a count gets. *)
Definition newTypedArray (n : Z) : res unit :=
  if n <? 0
  then Throw (mkError RangeErrorK
                ("Invalid typed array length: " ++ numToString n))
  else Ok tt.

End JS.

Import JS.

Declare Scope res_scope.
Delimit Scope res_scope with res.
Notation "x <- m ;; k" := (bind m (fun x => k))
  (at level 61, m at next level, right associativity) : res_scope.
Notation "' pat <- m ;; k" := (bind m (fun x => match x with pat => k end))
  (at level 61, pat pattern, m at next level, right associativity) : res_scope.
Local Open Scope res_scope.

(* ================================================================== *)
(** * src/preprocess.ts: the data model                                 *)
(* ================================================================== *)

(** [enum SHP] *)
Inductive SHP := NULL | POINT | POLYLINE | POLYGON | MULTIPOINT.

Definition SHP_code (t : SHP) : Z :=
  match t with
  | NULL => 0
  | POINT => 1
  | POLYLINE => 3
  | POLYGON => 5
  | MULTIPOINT => 8
  end.

(** [enum NotSupportedShapeType], with the reverse mapping from a value to
    the name of its member that a TypeScript numeric enum carries. *)
Inductive NotSupportedShapeType :=
| PointZ | PolylineZ | PolygonZ | MultiPointZ
| PointM | PolylineM | PolygonM | MultiPointM
| MultiPatch.

Definition NotSupportedShapeType_code (t : NotSupportedShapeType) : Z :=
  match t with
  | PointZ => 11
  | PolylineZ => 13
  | PolygonZ => 15
  | MultiPointZ => 18
  | PointM => 21
  | PolylineM => 23
  | PolygonM => 25
  | MultiPointM => 28
  | MultiPatch => 31
  end.

Definition NotSupportedShapeType_name (t : NotSupportedShapeType) : string :=
  match t with
  | PointZ => "PointZ"
  | PolylineZ => "PolylineZ"
  | PolygonZ => "PolygonZ"
  | MultiPointZ => "MultiPointZ"
  | PointM => "PointM"
  | PolylineM => "PolylineM"
  | PolygonM => "PolygonM"
  | MultiPointM => "MultiPointM"
  | MultiPatch => "MultiPatch"
  end.

Definition allNotSupported : list NotSupportedShapeType :=
  [PointZ; PolylineZ; PolygonZ; MultiPointZ;
   PointM; PolylineM; PolygonM; MultiPointM; MultiPatch].

(** The member whose value is [code], if any. *)
Definition NotSupportedShapeType_of (code : Z) : option NotSupportedShapeType :=
  find (fun t => NotSupportedShapeType_code t =? code) allNotSupported.

(** [NotSupportedShapeType[shapeType]]: [undefined] when no member has
    that value. *)
Definition NotSupportedShapeType_lookup (code : Z) : option string :=
  option_map NotSupportedShapeType_name (NotSupportedShapeType_of code).

(** The three members of [SHP] whose shapes share the multi-part content:
    [typeof SHP.POLYLINE | typeof SHP.POLYGON | typeof SHP.MULTIPOINT]. *)
Inductive MultiSHP := M_POLYLINE | M_POLYGON | M_MULTIPOINT.

Definition MultiSHP_member (t : MultiSHP) : SHP :=
  match t with
  | M_POLYLINE => POLYLINE
  | M_POLYGON => POLYGON
  | M_MULTIPOINT => MULTIPOINT
  end.

(** The content of a Polyline, Polygon or MultiPoint shape. *)
Record MultiContent := mkMultiContent {
  c_minX : float64;
  c_minY : float64;
  c_maxX : float64;
  c_maxY : float64;
  parts : list Z;          (* Int32Array *)
  points : list float64    (* Float64Array *)
}.

(** [type SHPShape]: the tag is the constructor, and for the three
    multi-part kinds the [SHP] member stored in [type]. *)
Inductive SHPShape :=
| ShapeNull
| ShapePoint (x y : float64)
| ShapeMulti (type : MultiSHP) (content : MultiContent).

(** The numeric [type] field of a shape. *)
Definition shapeTypeOf (s : SHPShape) : Z :=
  match s with
  | ShapeNull => SHP_code NULL
  | ShapePoint _ _ => SHP_code POINT
  | ShapeMulti t _ => SHP_code (MultiSHP_member t)
  end.

(** [type SHPRecord] *)
Record SHPRecord := mkSHPRecord {
  rec_number : Z;
  rec_length : Z;
  rec_shape : SHPShape
}.

(** [type SHPFile] *)
Record SHPFile := mkSHPFile {
  shp_fileName : string;
  shp_fileCode : Z;
  shp_wordLength : Z;
  shp_byteLength : Z;
  shp_version : Z;
  shp_shapeType : Z;
  shp_minX : float64;
  shp_minY : float64;
  shp_maxX : float64;
  shp_maxY : float64;
  shp_minZ : float64;
  shp_maxZ : float64;
  shp_minM : float64;
  shp_maxM : float64;
  shp_records : list SHPRecord
}.

(* ================================================================== *)
(** * src/preprocess.ts: class SHPParser                                *)
(* ================================================================== *)

Module SHPParser.

(** The loop [for (i = 0; i < partCount; i++) { parts[i] =
    dv.getInt32(idx, true); idx += 4 }]. *)
Fixpoint readParts (dv : DataView) (idx : Z) (n : nat) : res (list Z) :=
  match n with
  | O => Ok []
  | S n' =>
      v <- getInt32 dv idx true ;;
      vs <- readParts dv (idx + 4) n' ;;
      Ok (v :: vs)
  end.

(** The loop [for (i = 0; i < points.length; i++) { points[i] =
    dv.getFloat64(idx, true); idx += 8 }]. *)
Fixpoint readPoints (dv : DataView) (idx : Z) (n : nat) : res (list float64) :=
  match n with
  | O => Ok []
  | S n' =>
      v <- getFloat64 dv idx true ;;
      vs <- readPoints dv (idx + 8) n' ;;
      Ok (v :: vs)
  end.

(** The three codes that share the multi-part layout. *)
Definition multiTypeOf (shapeType : Z) : option MultiSHP :=
  if shapeType =? SHP_code MULTIPOINT then Some M_MULTIPOINT
  else if shapeType =? SHP_code POLYLINE then Some M_POLYLINE
  else if shapeType =? SHP_code POLYGON then Some M_POLYGON
  else None.

Definition notSupportedMessage (shapeType : Z) : string :=
  "Shape type not supported: " ++ numToString shapeType ++ " (" ++
    match NotSupportedShapeType_lookup shapeType with
    | Some name => name
    | None => "Unknown"
    end ++ ")".

Definition newline : string := String (ascii_of_nat 10) EmptyString.

Definition unknownShapeMessage (at_ shapeType : Z) : string :=
  "Unknown shape type at " ++ numToString at_ ++ ": " ++
    numToString shapeType ++ newline.

(** [static parseShape(dv, idx, length)] *)
Definition parseShape (dv : DataView) (idx : Z) (length : Z) : res SHPShape :=
  shapeType <- getInt32 dv idx true ;;
  let idx := idx + 4 in
  if shapeType =? SHP_code NULL then Ok ShapeNull
  else if shapeType =? SHP_code POINT then
    x <- getFloat64 dv idx true ;;
    y <- getFloat64 dv (idx + 8) true ;;
    Ok (ShapePoint x y)
  else
    match multiTypeOf shapeType with
    | Some type =>
        minX <- getFloat64 dv idx true ;;
        minY <- getFloat64 dv (idx + 8) true ;;
        maxX <- getFloat64 dv (idx + 16) true ;;
        maxY <- getFloat64 dv (idx + 24) true ;;
        partCount <- getInt32 dv (idx + 32) true ;;
        pointCount <- getInt32 dv (idx + 36) true ;;
        let idx := idx + 40 in
        _ <- newTypedArray partCount ;;
        parts <- readParts dv idx (Z.to_nat partCount) ;;
        let idx := idx + 4 * partCount in
        _ <- newTypedArray (pointCount * 2) ;;
        points <- readPoints dv idx (Z.to_nat (pointCount * 2)) ;;
        Ok (ShapeMulti type (mkMultiContent minX minY maxX maxY parts points))
    | None =>
        match NotSupportedShapeType_of shapeType with
        | Some _ => Throw (newError (notSupportedMessage shapeType))
        | None => Throw (newError (unknownShapeMessage (idx - 4) shapeType))
        end
    end.

Definition shapeParsingError (e : JsError) (number : Z) : JsError :=
  newError ("Shape parsing error: " ++ message e ++ " (record " ++
              numToString number ++ ")").

(** One turn of the body of [while (idx < byteLength)]: the record it
    pushes and the value of [idx] it leaves. *)
Definition parseRecord (dv : DataView) (idx : Z) : res (SHPRecord * Z) :=
  number <- getInt32 dv idx false ;;
  let idx := idx + 4 in
  length <- getInt32 dv idx false ;;
  let idx := idx + 4 in
  shape <- rethrow (parseShape dv idx length)
                   (fun e => shapeParsingError e number) ;;
  let idx := idx + length * 2 in
  Ok (mkSHPRecord number length shape, idx).

(** [while (idx < byteLength) { ... shpFile.records.push(...) }] *)
Fixpoint parseRecords (fuel : nat) (dv : DataView) (byteLength idx : Z)
         (records : list SHPRecord) : option (res (list SHPRecord)) :=
  if idx <? byteLength then
    match fuel with
    | O => None
    | S fuel' =>
        match parseRecord dv idx with
        | Throw e => Some (Throw e)
        | Ok (r, idx') =>
            parseRecords fuel' dv byteLength idx' (records ++ [r])
        end
    end
  else Some (Ok records).

Definition unknownFileCode (fileCode : Z) : JsError :=
  newError ("Unknown file code: " ++ numToString fileCode).

(** The part of [parse] before the record loop: the 100-byte header.
    It returns the file with no record yet. *)
Definition parseHeader (dv : DataView) (url : string) : res SHPFile :=
  let idx := 0 in
  fileCode <- getInt32 dv idx false ;;
  if negb (fileCode =? 9994) (* 0x0000270a *) then
    Throw (unknownFileCode fileCode)
  else
    let idx := idx + 24 in
    wordLength <- getInt32 dv idx false ;;
    let byteLength := wordLength * 2 in
    let idx := idx + 4 in
    version <- getInt32 dv idx true ;;
    let idx := idx + 4 in
    shapeType <- getInt32 dv idx true ;;
    let idx := idx + 4 in
    minX <- getFloat64 dv idx true ;;
    minY <- getFloat64 dv (idx + 8) true ;;
    maxX <- getFloat64 dv (idx + 16) true ;;
    maxY <- getFloat64 dv (idx + 24) true ;;
    minZ <- getFloat64 dv (idx + 32) true ;;
    maxZ <- getFloat64 dv (idx + 40) true ;;
    minM <- getFloat64 dv (idx + 48) true ;;
    maxM <- getFloat64 dv (idx + 56) true ;;
    Ok (mkSHPFile url fileCode wordLength byteLength version shapeType
          minX minY maxX maxY minZ maxZ minM maxM []).

Definition setRecords (f : SHPFile) (rs : list SHPRecord) : SHPFile :=
  mkSHPFile (shp_fileName f) (shp_fileCode f) (shp_wordLength f)
    (shp_byteLength f) (shp_version f) (shp_shapeType f)
    (shp_minX f) (shp_minY f) (shp_maxX f) (shp_maxY f)
    (shp_minZ f) (shp_maxZ f) (shp_minM f) (shp_maxM f) rs.

(** [static parse(arrayBuffer, url)].  After the header [idx] is
    [24 + 4 + 4 + 4 + 64 = 100]. *)
Definition parse (fuel : nat) (arrayBuffer : list byte) (url : string)
  : option (res SHPFile) :=
  let dv : DataView := arrayBuffer in
  match parseHeader dv url with
  | Throw e => Some (Throw e)
  | Ok shpFile =>
      match parseRecords fuel dv (shp_byteLength shpFile) 100 [] with
      | None => None
      | Some (Throw e) => Some (Throw e)
      | Some (Ok rs) => Some (Ok (setRecords shpFile rs))
      end
  end.

End SHPParser.

(* ================================================================== *)
(** * JavaScript strings, as the DBF decoder uses them                  *)
(* ================================================================== *)

Module JSString.

(** A string is the list of its UTF-16 code units. *)
Definition jsstring := list Z.

Definition ofString (s : string) : jsstring :=
  map (fun a => Z.of_N (N_of_ascii a)) (list_ascii_of_string s).

(** [s.length] *)
Definition strlen (s : jsstring) : Z := Z.of_nat (List.length s).

(** [s[z]]: a one-unit string, or [undefined] past the end. *)
Definition charAt (s : jsstring) (z : Z) : option jsstring :=
  if z <? 0 then None
  else match nth_error s (Z.to_nat z) with
       | Some c => Some [c]
       | None => None
       end.

(** [s.slice(n)] and [s.slice(0, n)] for [n >= 0], the only uses. *)
Definition sliceFrom (s : jsstring) (n : Z) : jsstring := skipn (Z.to_nat n) s.
Definition sliceTo (s : jsstring) (n : Z) : jsstring := firstn (Z.to_nat n) s.

(** [s.split(sep)] for a one-unit separator: never an empty array. *)
Fixpoint split (sep : Z) (s : jsstring) : list jsstring :=
  match s with
  | [] => [[]]
  | c :: s' =>
      if c =? sep then [] :: split sep s'
      else match split sep s' with
           | h :: t => (c :: h) :: t
           | [] => [[c]]
           end
  end.

(** [parts.join(sep)] *)
Fixpoint join (sep : Z) (l : list jsstring) : jsstring :=
  match l with
  | [] => []
  | [s] => s
  | s :: l' => s ++ sep :: join sep l'
  end.

(** [s.replace(/\0/g, "")] *)
Definition removeNul (s : jsstring) : jsstring :=
  filter (fun c => negb (c =? 0)) s.

(** White space and line terminators, the units [trim] removes. *)
Definition isWhiteSpace (c : Z) : bool :=
  ((9 <=? c) && (c <=? 13)) || (c =? 32) || (c =? 160) || (c =? 5760)
  || ((8192 <=? c) && (c <=? 8202)) || (c =? 8232) || (c =? 8233)
  || (c =? 8239) || (c =? 8287) || (c =? 12288) || (c =? 65279).

Fixpoint dropWhile (p : Z -> bool) (s : jsstring) : jsstring :=
  match s with
  | [] => []
  | c :: s' => if p c then dropWhile p s' else s
  end.

(** [s.trim()] *)
Definition trim (s : jsstring) : jsstring :=
  rev (dropWhile isWhiteSpace (rev (dropWhile isWhiteSpace s))).

Definition isDigit (c : Z) : bool := (48 <=? c) && (c <=? 57).

(** [/^\d\.\d{11}e\+\d{3}$/i.test(s)] *)
Definition isScientific (s : jsstring) : bool :=
  (List.length s =? 18)%nat
  && forallb isDigit (firstn 1 s)
  && forallb (Z.eqb 46) (firstn 1 (skipn 1 s))
  && forallb isDigit (firstn 11 (skipn 2 s))
  && forallb (fun c => (c =? 101) || (c =? 69)) (firstn 1 (skipn 13 s))
  && forallb (Z.eqb 43) (firstn 1 (skipn 14 s))
  && forallb isDigit (skipn 15 s).

(** [/big5/i.test(s)] *)
Fixpoint containsBig5 (s : jsstring) : bool :=
  match s with
  | [] => false
  | c :: s' =>
      match s with
      | b :: i :: g :: five :: _ =>
          (((b =? 98) || (b =? 66)) && ((i =? 105) || (i =? 73))
           && ((g =? 103) || (g =? 71)) && (five =? 53))
          || containsBig5 s'
      | _ => false
      end
  end.

(** *** encodeURIComponent *)

(** Characters left alone: letters, digits and [- _ . ! ~ * ' ( )]. *)
Definition isUnreserved (c : Z) : bool :=
  ((65 <=? c) && (c <=? 90)) || ((97 <=? c) && (c <=? 122)) || isDigit c
  || (c =? 45) || (c =? 95) || (c =? 46) || (c =? 33) || (c =? 126)
  || (c =? 42) || (c =? 39) || (c =? 40) || (c =? 41).

Definition isHighSurrogate (c : Z) : bool := (55296 <=? c) && (c <=? 56319).
Definition isLowSurrogate (c : Z) : bool := (56320 <=? c) && (c <=? 57343).

(** The UTF-8 bytes of a code point. *)
Definition utf8 (cp : Z) : list Z :=
  if cp <? 128 then [cp]
  else if cp <? 2048 then
    [Z.lor 192 (Z.shiftr cp 6); Z.lor 128 (Z.land cp 63)]
  else if cp <? 65536 then
    [Z.lor 224 (Z.shiftr cp 12);
     Z.lor 128 (Z.land (Z.shiftr cp 6) 63);
     Z.lor 128 (Z.land cp 63)]
  else
    [Z.lor 240 (Z.shiftr cp 18);
     Z.lor 128 (Z.land (Z.shiftr cp 12) 63);
     Z.lor 128 (Z.land (Z.shiftr cp 6) 63);
     Z.lor 128 (Z.land cp 63)].

(** An upper-case hexadecimal digit. *)
Definition hexDigit (d : Z) : Z := if d <? 10 then 48 + d else 55 + d.

(** [%XX] for one byte. *)
Definition escapeByte (b : Z) : jsstring :=
  [37; hexDigit (Z.shiftr b 4); hexDigit (Z.land b 15)].

Definition escape (cp : Z) : jsstring := flat_map escapeByte (utf8 cp).

Definition malformedURI : JsError := mkError URIErrorK "URI malformed".

Fixpoint encodeUnits (s : jsstring) : res jsstring :=
  match s with
  | [] => Ok []
  | c :: rest =>
      if isUnreserved c then
        r <- encodeUnits rest ;; Ok (c :: r)
      else if isLowSurrogate c then Throw malformedURI
      else if isHighSurrogate c then
        match rest with
        | d :: rest' =>
            if isLowSurrogate d then
              r <- encodeUnits rest' ;;
              Ok (escape (65536 + (c - 55296) * 1024 + (d - 56320)) ++ r)
            else Throw malformedURI
        | [] => Throw malformedURI
        end
      else
        r <- encodeUnits rest ;; Ok (escape c ++ r)
  end.

(** [encodeURIComponent(v)]: [undefined] is first turned into the
    string ["undefined"]. *)
Definition encodeURIComponent (v : option jsstring) : res jsstring :=
  match v with
  | Some s => encodeUnits s
  | None => encodeUnits (ofString "undefined")
  end.

Definition isUpperHex (c : Z) : bool :=
  ((65 <=? c) && (c <=? 70)) || isDigit c.

(** All the matches of [/%[A-F\d]{2}/g], left to right. *)
Fixpoint percentGroups (s : jsstring) : list jsstring :=
  match s with
  | [] => []
  | c :: rest =>
      match rest with
      | h :: l :: rest' =>
          if (c =? 37) && isUpperHex h && isUpperHex l
          then [c; h; l] :: percentGroups rest'
          else percentGroups rest
      | _ => []
      end
  end.

(** [s.match(/%[A-F\d]{2}/g)]: [null] when nothing matches. *)
Definition matchPercent (s : jsstring) : option (list jsstring) :=
  match percentGroups s with
  | [] => None
  | l => Some l
  end.

End JSString.

Import JSString.

(* ================================================================== *)
(** * src/preprocess.ts: the DBF data model                             *)
(* ================================================================== *)

(** [type DBFField].  [name] is [charString[nameIndex++]], which is
    [undefined] when the text gave fewer names than the bytes give
    descriptors. *)
Record DBFField := mkDBFField {
  name : option jsstring;
  type : jsstring;
  fieldLength : Z;
  workAreaId : Z;
  setFieldFlag : Z;
  indexFieldFlag : Z
}.

(** A value of a record: the trimmed text, or [parseFloat] of it when it
    has the scientific-notation form (the number is kept as the literal it
    was parsed from). *)
Inductive DBFValue :=
| VString (s : jsstring)
| VNumber (literal : jsstring).

(** [Record<string, string | number>]: an object, as its properties in
    the order they were first assigned. *)
Definition DBFRecord := list (jsstring * DBFValue).

(** Assignment to an own data property: the value of an existing key is
    replaced in place, a new key goes last. *)
Fixpoint defineProperty (r : DBFRecord) (key : jsstring) (v : DBFValue) : DBFRecord :=
  match r with
  | [] => [(key, v)]
  | (k, w) :: r' =>
      if list_eq_dec Z.eq_dec k key then (k, v) :: r'
      else (k, w) :: defineProperty r' key v
  end.

(** [record[key] = v].  The key [__proto__] is the accessor inherited from
    [Object.prototype], whose setter ignores a string or a number: no
    property is created. *)
Definition setProperty (r : DBFRecord) (key : jsstring) (v : DBFValue) : DBFRecord :=
  if list_eq_dec Z.eq_dec key (ofString "__proto__") then r
  else defineProperty r key v.

(** [record[key]] *)
Fixpoint getProperty (r : DBFRecord) (key : jsstring) : option DBFValue :=
  match r with
  | [] => None
  | (k, w) :: r' =>
      if list_eq_dec Z.eq_dec k key then Some w else getProperty r' key
  end.

(** The property key a field name stands for: [undefined] is the key
    ["undefined"]. *)
Definition propertyKey (n : option jsstring) : jsstring :=
  match n with
  | Some s => s
  | None => ofString "undefined"
  end.

(** [type DBFFile] *)
Record DBFFile := mkDBFFile {
  dbf_fileName : string;
  dbf_version : Z;
  year : Z;
  month : Z;
  day : Z;
  numberOfRecords : Z;
  bytesInHeader : Z;
  bytesInRecord : Z;
  incompleteTransation : Z;
  encryptionFlag : Z;
  mdxFlag : Z;
  languageDriverId : Z;
  fields : list DBFField;
  fieldpos : Z;
  records : list DBFRecord
}.

(* ================================================================== *)
(** * src/preprocess.ts: class DBFParser                                *)
(* ================================================================== *)

Module DBFParser.

(** What one turn of the width walk adds to [count]:
    [try { enc = encodeURIComponent(text[z]); match = enc.match(...);
           count += match && match.length > 1 ? offset : 1 }
     catch { count++ }]. *)
Definition widthAt (offset : Z) (text : jsstring) (z : Z) : Z :=
  match encodeURIComponent (charAt text z) with
  | Ok enc =>
      match matchPercent enc with
      | Some m => if (1 <? List.length m)%nat then offset else 1
      | None => 1
      end
  | Throw _ => 1
  end.

(** [while (count < limit) { count += width; z++ }], from the given
    [z] and [count]; the value of [z] when the loop stops.  One unit of
    fuel per turn. *)
Fixpoint walkFrom (fuel : nat) (offset : Z) (text : jsstring) (limit : Z)
         (z count : Z) : option Z :=
  if count <? limit then
    match fuel with
    | O => None
    | S fuel' =>
        walkFrom fuel' offset text limit (z + 1) (count + widthAt offset text z)
    end
  else Some z.

(** [let z = 0; let count = 0; while (count < limit) ...].  As long as
    every turn adds at least one, [limit] turns are enough. *)
Definition walk (offset : Z) (text : jsstring) (limit : Z) : option Z :=
  walkFrom (Z.to_nat limit) offset text limit 0 0.

(** The loop that collects the field names: the names pushed on
    [charString], and the value [responseHeader] is left with. *)
Fixpoint fieldNames (fuel : nat) (offset : Z) (responseHeader : jsstring)
         (charString : list jsstring) : option (list jsstring * jsstring) :=
  if 0 <? strlen responseHeader then
    match fuel with
    | O => None
    | S fuel' =>
        match walk offset responseHeader 10 with
        | None => None
        | Some _z =>
            fieldNames fuel' offset (sliceFrom responseHeader 32)
              (charString ++ [removeNul (sliceTo responseHeader 10)])
        end
    end
  else Some (charString, responseHeader).

(** [for (i = 0; i < 10; i++) { byte = dv.getUint8(idx++);
    if (byte !== 0) nameArray.push(String.fromCharCode(byte)) }] *)
Fixpoint nameBytes (dv : DataView) (idx : Z) (n : nat) : res (list jsstring) :=
  match n with
  | O => Ok []
  | S n' =>
      b <- getUint8 dv idx ;;
      rest <- nameBytes dv (idx + 1) n' ;;
      Ok (if negb (b =? 0) then [b] :: rest else rest)
  end.

(** One descriptor, read at [idx]; [idx] is 32 further afterwards. *)
Definition parseField (dv : DataView) (idx : Z) (fieldName : option jsstring)
  : res DBFField :=
  _nameArray <- nameBytes dv idx 10 ;;
  let idx := idx + 10 in
  let idx := idx + 1 in
  type <- getUint8 dv idx ;;
  let idx := idx + 1 in
  let idx := idx + 4 in
  fieldLength <- getUint8 dv idx ;;
  let idx := idx + 1 in
  let idx := idx + 1 in
  let idx := idx + 2 in
  workAreaId <- getUint8 dv idx ;;
  let idx := idx + 1 in
  let idx := idx + 2 in
  setFieldFlag <- getUint8 dv idx ;;
  let idx := idx + 1 in
  let idx := idx + 7 in
  indexFieldFlag <- getUint8 dv idx ;;
  Ok (mkDBFField fieldName [type] fieldLength workAreaId setFieldFlag
        indexFieldFlag).

(** [while (true) { ... dbf.fields.push(field);
    if (dv.getUint8(idx) === 0x0d) break; }]: the fields pushed and the
    value of [idx] at the [break]. *)
Fixpoint parseFields (fuel : nat) (dv : DataView) (idx : Z)
         (charString : list jsstring) (nameIndex : nat)
         (fields : list DBFField) : option (res (list DBFField * Z)) :=
  match fuel with
  | O => None
  | S fuel' =>
      match parseField dv idx (nth_error charString nameIndex) with
      | Throw e => Some (Throw e)
      | Ok field =>
          let idx := idx + 32 in
          let fields := fields ++ [field] in
          match getUint8 dv idx with
          | Throw e => Some (Throw e)
          | Ok b =>
              if b =? 13 then Some (Ok (fields, idx))
              else parseFields fuel' dv idx charString (S nameIndex) fields
          end
      end
  end.

(** The value stored for a raw text. *)
Definition fieldValue (rawValue : jsstring) : DBFValue :=
  if isScientific rawValue then VNumber rawValue else VString rawValue.

(** [for (const field of dbf.fields) { ... }]: the width walk runs over
    [responseHeader], the slices are taken from [responseText]. *)
Fixpoint parseRecordFields (offset : Z) (responseHeader : jsstring)
         (fields : list DBFField) (responseText : jsstring)
         (record : DBFRecord) : option (DBFRecord * jsstring) :=
  match fields with
  | [] => Some (record, responseText)
  | field :: rest =>
      match walk offset responseHeader (fieldLength field) with
      | None => None
      | Some z =>
          let rawValue := trim (removeNul (sliceTo responseText z)) in
          let responseText := sliceFrom responseText z in
          parseRecordFields offset responseHeader rest responseText
            (setProperty record (propertyKey (name field)) (fieldValue rawValue))
      end
  end.

(** [for (let i = 0; i < dbf.numberOfRecords; i++) { ... }], [n] turns. *)
Fixpoint parseRecords (n : nat) (offset : Z) (responseHeader : jsstring)
         (fields : list DBFField) (responseText : jsstring)
         (records : list DBFRecord) : option (list DBFRecord) :=
  match n with
  | O => Some records
  | S n' =>
      let responseText := sliceFrom responseText 1 in
      match parseRecordFields offset responseHeader fields responseText [] with
      | None => None
      | Some (record, responseText) =>
          parseRecords n' offset responseHeader fields responseText
            (records ++ [record])
      end
  end.

(** The fixed 32 bytes at the head of the file: the object literal
    that reads [version], then the assignments up to
    [languageDriverId]; [idx] is 32 afterwards. *)
Definition parseHeader (dv : DataView) (src : string) : res DBFFile :=
  let idx := 0 in
  version <- getInt8 dv idx ;;
  let idx := idx + 1 in
  year <- getUint8 dv idx ;;
  let idx := idx + 1 in
  month <- getUint8 dv idx ;;
  let idx := idx + 1 in
  day <- getUint8 dv idx ;;
  let idx := idx + 1 in
  numberOfRecords <- getInt32 dv idx true ;;
  let idx := idx + 4 in
  bytesInHeader <- getInt16 dv idx true ;;
  let idx := idx + 2 in
  bytesInRecord <- getInt16 dv idx true ;;
  let idx := idx + 2 in
  let idx := idx + 2 in
  incompleteTransation <- getUint8 dv idx ;;
  let idx := idx + 1 in
  encryptionFlag <- getUint8 dv idx ;;
  let idx := idx + 1 in
  let idx := idx + 4 in
  let idx := idx + 8 in
  mdxFlag <- getUint8 dv idx ;;
  let idx := idx + 1 in
  languageDriverId <- getUint8 dv idx ;;
  Ok (mkDBFFile src version (year + 1900) month day numberOfRecords
        bytesInHeader bytesInRecord incompleteTransation encryptionFlag
        mdxFlag languageDriverId [] 0 []).

(** The header text and the offset in force after
    [const responseParts = response.split("\r"); ...]. *)
Definition responseHeaderOf (response : jsstring) (offset : Z)
  : jsstring * Z :=
  let responseParts := split 13 response in
  if (2 <? List.length responseParts)%nat then
    (sliceFrom (join 13 (removelast responseParts)) 32, offset)
  else
    (sliceFrom (hd [] responseParts) 32, 2).

Definition setFields (d : DBFFile) (fs : list DBFField) (pos : Z)
           (rs : list DBFRecord) : DBFFile :=
  mkDBFFile (dbf_fileName d) (dbf_version d) (year d) (month d) (day d)
    (numberOfRecords d) (bytesInHeader d) (bytesInRecord d)
    (incompleteTransation d) (encryptionFlag d) (mdxFlag d)
    (languageDriverId d) fs pos rs.

(** [static parse(arrayBuffer, src, response, encoding)].  The two
    loops that can only stop are given the fuel that always suffices:
    the name loop shortens a non-empty [responseHeader] every turn, the
    descriptor loop moves [idx] 32 bytes forward every turn and throws
    once it leaves the buffer. *)
Definition parse (arrayBuffer : list byte) (src : string)
           (response : jsstring) (encoding : jsstring)
  : option (res DBFFile) :=
  let dv : DataView := arrayBuffer in
  let offset := if containsBig5 encoding then 2 else 3 in
  match parseHeader dv src with
  | Throw e => Some (Throw e)
  | Ok dbf =>
      let idx := 32 in
      let '(responseHeader, offset) := responseHeaderOf response offset in
      match fieldNames (List.length responseHeader) offset responseHeader [] with
      | None => None
      | Some (charString, responseHeader) =>
          match parseFields (S (List.length dv)) dv idx charString 0%nat [] with
          | None => None
          | Some (Throw e) => Some (Throw e)
          | Some (Ok (fields, idx)) =>
              let idx := idx + 1 in
              let responseTextRaw := last (split 13 response) [] in
              let responseText := responseTextRaw in
              match parseRecords (Z.to_nat (numberOfRecords dbf)) offset
                      responseHeader fields responseText [] with
              | None => None
              | Some records => Some (Ok (setFields dbf fields idx records))
              end
          end
      end
  end.

End DBFParser.

(* ================================================================== *)
(** * src/preview.ts: TransCoord and toGeojson                          *)
(* ================================================================== *)

(** A number that may be [undefined]: what reading a typed array outside
    its bounds gives, and what is handed to the projection then. *)
Definition jsnum := option float64.

(** [Position]: the array [[x, y]]. *)
Definition Position := (jsnum * jsnum)%type.

(** The [geometry] of a feature. *)
Inductive Geometry :=
| GPoint (coordinates : Position)
| GLineString (coordinates : list Position)
| GMultiPoint (coordinates : list Position)
| GPolygon (coordinates : list (list Position)).

Record Feature := mkFeature {
  geometry : Geometry;
  properties : option DBFRecord     (* [dbf.records[i]], maybe [undefined] *)
}.

Record FeatureCollection := mkFeatureCollection {
  bbox : list jsnum;
  features : list Feature
}.

Module Preview.

(** [for each x of l, in order: f(x)], stopping at the first throw. *)
Fixpoint mapM {A B} (f : A -> res B) (l : list A) : res (list B) :=
  match l with
  | [] => Ok []
  | a :: l' =>
      b <- f a ;;
      bs <- mapM f l' ;;
      Ok (b :: bs)
  end.

(** [arr[j]] on a typed array. *)
Definition at_ {A} (arr : list A) (j : Z) : option A :=
  if j <? 0 then None else nth_error arr (Z.to_nat j).

(** The values [start, start + 2, ...] below [end_]: those the counter
    of [for (let j = start; j < end; j += 2)] takes. *)
Definition evenSteps (start end_ : Z) : list Z :=
  map (fun k => start + 2 * Z.of_nat k)
      (seq 0 (Z.to_nat ((end_ - start + 1) / 2))).

Section WithProjection.

(** [proj4(EPSGUser, EPSG4326, [x, y])]: the forward transform from the
    user's reference system, an external library which may throw. *)
Variable proj4 : jsnum -> jsnum -> res (jsnum * jsnum).

(** [function TransCoord(x, y)]: the imported [proj4] is always
    there, so the guard never throws. *)
Definition TransCoord (x y : jsnum) : res Position :=
  '(lon, lat) <- proj4 x y ;;
  Ok (lon, lat).

(** [for (j = start; j < end; j += 2) { {x, y} =
    TransCoord(points[j], points[j + 1]); ring.push([x, y]) }] *)
Definition pushPairs (points : list float64) (start end_ : Z)
  : res (list Position) :=
  mapM (fun j => TransCoord (at_ points j) (at_ points (j + 1)))
       (evenSteps start end_).

(** [(parts[p + 1] || points.length / 2) * 2], where [next] is
    [parts[p + 1]]: a missing or zero entry gives way to the number of
    points; halving then doubling a length is exact. *)
Definition ringEnd (next : option Z) (points : list float64) : Z :=
  match next with
  | Some v => if v =? 0 then Z.of_nat (List.length points) else v * 2
  | None => Z.of_nat (List.length points)
  end.

(** [for (let p = 0; p < parts.length; p++) { start = parts[p] * 2;
    end = ...; ring = ...; coordinates.push(ring) }], over the parts
    from [p] on. *)
Fixpoint ringsOf (points : list float64) (parts : list Z)
  : res (list (list Position)) :=
  match parts with
  | [] => Ok []
  | v :: rest =>
      ring <- pushPairs points (v * 2) (ringEnd (hd_error rest) points) ;;
      rings <- ringsOf points rest ;;
      Ok (ring :: rings)
  end.

Definition unsupportedShapeType (t : Z) : JsError :=
  newError ("Unsupported shape type: " ++ numToString t).

(** The [switch (type)] of the callback. *)
Definition geometryOf (shape : SHPShape) : res Geometry :=
  match shape with
  | ShapePoint x y =>
      c <- TransCoord (Some x) (Some y) ;;
      Ok (GPoint c)
  | ShapeMulti M_POLYLINE content =>
      cs <- pushPairs (points content) 0
              (Z.of_nat (List.length (points content))) ;;
      Ok (GLineString cs)
  | ShapeMulti M_MULTIPOINT content =>
      cs <- pushPairs (points content) 0
              (Z.of_nat (List.length (points content))) ;;
      Ok (GMultiPoint cs)
  | ShapeMulti M_POLYGON content =>
      rings <- ringsOf (points content) (parts content) ;;
      Ok (GPolygon rings)
  | ShapeNull => Throw (unsupportedShapeType (shapeTypeOf shape))
  end.

(** The callback of [shp.records.forEach((shpRecord, i) => ...)]. *)
Definition featureOf (dbf : DBFFile) (ir : nat * SHPRecord) : res Feature :=
  let '(i, shpRecord) := ir in
  let properties := nth_error (records dbf) i in
  g <- geometryOf (rec_shape shpRecord) ;;
  Ok (mkFeature g properties).

(** [function toGeojson({ shp, dbf })] *)
Definition toGeojson (shp : SHPFile) (dbf : DBFFile) : res FeatureCollection :=
  c1 <- TransCoord (Some (shp_minX shp)) (Some (shp_minY shp)) ;;
  c2 <- TransCoord (Some (shp_minX shp)) (Some (shp_minY shp)) ;;
  c3 <- TransCoord (Some (shp_maxX shp)) (Some (shp_maxY shp)) ;;
  c4 <- TransCoord (Some (shp_maxX shp)) (Some (shp_maxY shp)) ;;
  let bbox := [fst c1; snd c2; fst c3; snd c4] in
  fs <- mapM (featureOf dbf)
          (combine (seq 0 (List.length (shp_records shp))) (shp_records shp)) ;;
  Ok (mkFeatureCollection bbox fs).

End WithProjection.

(** The projection that returns the pair it is given, whatever it is:
    the identity as a function.  It is not what the bundled proj4 does
    between two equal reference systems, which is [Proj4.sameSystem]
    below: that one goes through radians and throws on a coordinate that
    is not a finite number. *)
Definition identity (x y : jsnum) : res (jsnum * jsnum) := Ok (x, y).

End Preview.

(* ================================================================== *)
(** * The writer's side of the .shp layout                              *)
(* ================================================================== *)

(** The repository only reads shapefiles.  To speak of "a buffer produced
    by encoding N geometries" the layout the decoder expects is written
    down here as an encoder: a 100-byte header (file code, five unused
    words, file length in 16-bit words, version, shape type, eight
    doubles), then per record a big-endian record number and content
    length in words, and a little-endian payload. *)
Module Layout.

Definition byteOfZ (z : Z) : byte :=
  match Byte.of_N (Z.to_N (z mod 256)) with
  | Some b => b
  | None => x00
  end.

(** The [n] low bytes of [v], least significant first. *)
Fixpoint leBytes (n : nat) (v : Z) : list byte :=
  match n with
  | O => []
  | S n' => byteOfZ v :: leBytes n' (v / 256)
  end.

Definition int32LE (v : Z) : list byte := leBytes 4 v.
Definition int32BE (v : Z) : list byte := rev (leBytes 4 v).

Definition double (x : float64) : list byte :=
  let 'F64 b0 b1 b2 b3 b4 b5 b6 b7 := x in [b0; b1; b2; b3; b4; b5; b6; b7].

(** The payload of a record: the shape type, then the shape. *)
Definition payload (s : SHPShape) : list byte :=
  match s with
  | ShapeNull => int32LE (SHP_code NULL)
  | ShapePoint x y => int32LE (SHP_code POINT) ++ double x ++ double y
  | ShapeMulti t c =>
      int32LE (SHP_code (MultiSHP_member t))
      ++ double (c_minX c) ++ double (c_minY c)
      ++ double (c_maxX c) ++ double (c_maxY c)
      ++ int32LE (Z.of_nat (List.length (parts c)))
      ++ int32LE (Z.of_nat (List.length (points c)) / 2)
      ++ flat_map int32LE (parts c)
      ++ flat_map double (points c)
  end.

Definition contentLengthWords (s : SHPShape) : Z :=
  Z.of_nat (List.length (payload s)) / 2.

Definition record (number : Z) (s : SHPShape) : list byte :=
  int32BE number ++ int32BE (contentLengthWords s) ++ payload s.

(** The records of the shapes, numbered from [number] on. *)
Fixpoint recordsFrom (number : Z) (shapes : list SHPShape) : list byte :=
  match shapes with
  | [] => []
  | s :: shapes' => record number s ++ recordsFrom (number + 1) shapes'
  end.

(** What the header holds besides the file code and the length. *)
Record HeaderInfo := mkHeaderInfo {
  h_version : Z;
  h_shapeType : Z;
  h_minX : float64; h_minY : float64; h_maxX : float64; h_maxY : float64;
  h_minZ : float64; h_maxZ : float64; h_minM : float64; h_maxM : float64
}.

Definition header (wordLength : Z) (h : HeaderInfo) : list byte :=
  int32BE 9994 ++ repeat x00 20 ++ int32BE wordLength
  ++ int32LE (h_version h) ++ int32LE (h_shapeType h)
  ++ double (h_minX h) ++ double (h_minY h)
  ++ double (h_maxX h) ++ double (h_maxY h)
  ++ double (h_minZ h) ++ double (h_maxZ h)
  ++ double (h_minM h) ++ double (h_maxM h).

(** A whole file: the records are numbered from 1, the header gives the
    length of the file, header included, in words. *)
Definition file (h : HeaderInfo) (shapes : list SHPShape) : list byte :=
  let body := recordsFrom 1 shapes in
  header ((100 + Z.of_nat (List.length body)) / 2) h ++ body.

(** The records a reader should find. *)
Fixpoint expectedFrom (number : Z) (shapes : list SHPShape) : list SHPRecord :=
  match shapes with
  | [] => []
  | s :: shapes' =>
      mkSHPRecord number (contentLengthWords s) s
      :: expectedFrom (number + 1) shapes'
  end.

(** What the encoder asks of a shape: the entries of [parts] are 32-bit
    integers, and [points] holds whole pairs. *)
Definition int32 (v : Z) : Prop := - 2 ^ 31 <= v < 2 ^ 31.

Definition encodable (s : SHPShape) : Prop :=
  match s with
  | ShapeMulti _ c =>
      Forall int32 (parts c) /\ Nat.Even (List.length (points c))
  | _ => True
  end.

End Layout.

(** The file a reader should make of [Layout.file h shapes]. *)
Definition expectedFile (h : Layout.HeaderInfo) (shapes : list SHPShape)
           (url : string) : SHPFile :=
  let w := (100 + Z.of_nat (List.length (Layout.recordsFrom 1 shapes))) / 2 in
  mkSHPFile url 9994 w (w * 2) (Layout.h_version h) (Layout.h_shapeType h)
    (Layout.h_minX h) (Layout.h_minY h) (Layout.h_maxX h) (Layout.h_maxY h)
    (Layout.h_minZ h) (Layout.h_maxZ h) (Layout.h_minM h) (Layout.h_maxM h)
    (Layout.expectedFrom 1 shapes).

(* ================================================================== *)
(** * Vocabulary of the statements                                      *)
(* ================================================================== *)

(** The coordinate pairs an interleaved array holds. *)
Fixpoint pairsOf {A} (l : list A) : list (A * A) :=
  match l with
  | x :: y :: l' => (x, y) :: pairsOf l'
  | _ => []
  end.

(** [l[a .. b)] *)
Definition between {A} (a b : Z) (l : list A) : list A :=
  firstn (Z.to_nat b - Z.to_nat a) (skipn (Z.to_nat a) l).

(** One pair of the array, reprojected. *)
Definition reproject (proj4 : jsnum -> jsnum -> res (jsnum * jsnum))
           (xy : float64 * float64) : res Position :=
  Preview.TransCoord proj4 (Some (fst xy)) (Some (snd xy)).

(** What the specification describes for the DBF text, to compare the
    decoder with: the width walk measures the text it is about to slice,
    and the slice takes the count of characters the walk arrives at. *)
Module Described.

(** The record body: the walk runs over the text of the current
    record. *)
Fixpoint recordFields (offset : Z) (fields : list DBFField)
         (responseText : jsstring) (record : DBFRecord)
  : option (DBFRecord * jsstring) :=
  match fields with
  | [] => Some (record, responseText)
  | field :: rest =>
      match DBFParser.walk offset responseText (fieldLength field) with
      | None => None
      | Some z =>
          let rawValue := trim (removeNul (sliceTo responseText z)) in
          recordFields offset rest (sliceFrom responseText z)
            (setProperty record (propertyKey (name field))
               (DBFParser.fieldValue rawValue))
      end
  end.

(** A field name: the characters that cover 10 bytes. *)
Definition fieldName (offset : Z) (responseHeader : jsstring)
  : option jsstring :=
  match DBFParser.walk offset responseHeader 10 with
  | None => None
  | Some z => Some (removeNul (sliceTo responseHeader z))
  end.

End Described.

(** What the loops of [DBFParser.parse] come to. *)

(** The record loop: every field takes [fieldLength] characters, whatever
    they are. *)
Fixpoint fixedWidthFields (fields : list DBFField) (responseText : jsstring)
         (record : DBFRecord) : DBFRecord * jsstring :=
  match fields with
  | [] => (record, responseText)
  | field :: rest =>
      let z := Z.max 0 (fieldLength field) in
      fixedWidthFields rest (sliceFrom responseText z)
        (setProperty record (propertyKey (name field))
           (DBFParser.fieldValue (trim (removeNul (sliceTo responseText z)))))
  end.

Fixpoint fixedWidthRecords (n : nat) (fields : list DBFField)
         (responseText : jsstring) (records : list DBFRecord) : list DBFRecord :=
  match n with
  | O => records
  | S n' =>
      let '(record, responseText) :=
        fixedWidthFields fields (sliceFrom responseText 1) [] in
      fixedWidthRecords n' fields responseText (records ++ [record])
  end.

(** The name loop: ten characters out of every 32. *)
Fixpoint fixedWidthNames (fuel : nat) (responseHeader : jsstring) : list jsstring :=
  match fuel with
  | O => []
  | S fuel' =>
      match responseHeader with
      | [] => []
      | _ => removeNul (sliceTo responseHeader 10)
             :: fixedWidthNames fuel' (sliceFrom responseHeader 32)
      end
  end.

(* ================================================================== *)
(** * Sample files                                                      *)
(* ================================================================== *)

Module Examples.

Definition bytes (l : list Z) : list byte := map Layout.byteOfZ l.
Definition zeros (n : nat) : list Z := repeat 0 n.

(** ** Doubles, least significant byte first *)
Definition d0 : float64 := F64 x00 x00 x00 x00 x00 x00 x00 x00.   (* 0.0 *)
Definition d1 : float64 := F64 x00 x00 x00 x00 x00 x00 xf0 x3f.   (* 1.0 *)
Definition d2 : float64 := F64 x00 x00 x00 x00 x00 x00 x00 x40.   (* 2.0 *)
Definition lon : float64 := F64 x00 x00 x00 x00 x00 x60 x5e x40.  (* 121.5 *)
Definition lat : float64 := F64 x00 x00 x00 x00 x00 x00 x39 x40.  (* 25.0 *)

(** ** Shapes *)
Definition taipei : SHPShape := ShapePoint lon lat.

(** Two rings: four points, then two. *)
Definition twoRings : MultiContent :=
  mkMultiContent d0 d0 d2 d2 [0; 4]
    [d0; d0; d0; d2; d2; d2; d0; d0; d1; d1; d1; d1].
Definition polygon : SHPShape := ShapeMulti M_POLYGON twoRings.

Definition path : MultiContent :=
  mkMultiContent d0 d0 d1 d1 [0] [d0; d0; d1; d1].
Definition line : SHPShape := ShapeMulti M_POLYLINE path.

Definition info : Layout.HeaderInfo :=
  Layout.mkHeaderInfo 1000 5 d0 d0 lon lat d0 d0 d0 d0.

Definition shapes : list SHPShape := [taipei; ShapeNull; polygon; line].

(** ** A decoded shapefile of two shapes, and a table of one record *)
Definition shp : SHPFile := expectedFile info [taipei; polygon] "a.shp".

Definition nameKey : jsstring := ofString "name".
Definition taipeiRecord : DBFRecord := [(nameKey, VString (ofString "Taipei"))].

Definition dbf : DBFFile :=
  mkDBFFile "a.dbf" 3 2026 1 1 1 65 7 0 0 0 0
    [mkDBFField (Some nameKey) [67] 6 0 0 0] 65 [taipeiRecord].

(** The collection [toGeojson] makes of them when nothing is
    reprojected. *)
Definition collection : FeatureCollection :=
  mkFeatureCollection
    [Some d0; Some d0; Some lon; Some lat]
    [mkFeature (GPoint (Some lon, Some lat)) (Some taipeiRecord);
     mkFeature
       (GPolygon
          [[(Some d0, Some d0); (Some d0, Some d2);
            (Some d2, Some d2); (Some d0, Some d0)];
           [(Some d1, Some d1); (Some d1, Some d1)]])
       None].

(** ** DBF files *)

(** The 32 header bytes of a table of [n] records, [h] header bytes and
    [r] bytes per record, last updated 2026-01-01. *)
Definition dbfHeader (n h r : Z) : list Z :=
  [3; 126; 1; 1; n; 0; 0; 0; h; 0; r; 0] ++ zeros 20.

(** The descriptor of a character field: 11 bytes of name, the type
    [C], 4 bytes of address, the length, 15 more bytes. *)
Definition descriptor (name : list Z) (len : Z) : list Z :=
  name ++ zeros (11 - List.length name) ++ [67; 0; 0; 0; 0; len] ++ zeros 15.

(** Two fields, A of 3 bytes and B of 2, and one record whose A holds
    e-acute (in UTF-8 the two bytes C3 A9) and the digit 1, and whose B
    holds [ab].  [text1] is the file decoded as UTF-8. *)
Definition twoFields : list Z :=
  dbfHeader 1 97 6 ++ descriptor [65] 3 ++ descriptor [66] 2 ++ [13].
Definition dbf1 : list byte := bytes (twoFields ++ [32; 195; 169; 49; 97; 98]).
Definition text1 : jsstring := twoFields ++ [32; 233; 49; 97; 98].

(** One field whose name is two e-acute, four bytes in UTF-8, so that
    the 11 bytes of the name decode to 9 characters.  [text2] is the
    file decoded as UTF-8. *)
Definition dbf2 : list byte :=
  bytes (dbfHeader 1 65 3 ++ descriptor [195; 169; 195; 169] 2 ++ [13]
         ++ [32; 97; 98]).
Definition text2 : jsstring :=
  dbfHeader 1 65 3 ++ [233; 233] ++ zeros 7 ++ [67; 0; 0; 0; 0; 2] ++ zeros 15
  ++ [13] ++ [32; 97; 98].

End Examples.

(* ================================================================== *)
(** * Further vocabulary: bounds, strides, names, projections          *)
(* ================================================================== *)

(** A read of [k] bytes at [i] lies inside the buffer. *)
Definition inBounds (dv : DataView) (i k : Z) : Prop :=
  0 <= i /\ i + k <= Z.of_nat (List.length dv).

(** The bytes a run of records takes: 8 of record header and
    [length * 2] of payload each. *)
Fixpoint span (rs : list SHPRecord) : Z :=
  match rs with
  | [] => 0
  | r :: rs' => 8 + rec_length r * 2 + span rs'
  end.

(** The header text [DBFParser.parse] takes the field names from. *)
Definition headerText (response : jsstring) : jsstring :=
  fst (DBFParser.responseHeaderOf response 0).

(** The text the records are read from: what follows the last carriage
    return. *)
Definition recordText (response : jsstring) : jsstring :=
  last (split 13 response) [].

(** The name of descriptor [k], as the header text gives it. *)
Definition headerName (response : jsstring) (k : nat) : option jsstring :=
  let h := headerText response in
  if (32 * k <? List.length h)%nat
  then Some (removeNul (sliceTo (skipn (32 * k) h) 10))
  else None.

(** The characters one record takes: the deletion flag and every field. *)
Definition recordWidth (fields : list DBFField) : Z :=
  1 + fold_right (fun f acc => fieldLength f + acc) 0 fields.

(** The text of a value. *)
Definition valueText (v : DBFValue) : jsstring :=
  match v with
  | VString s => s
  | VNumber s => s
  end.

Definition protoKey : jsstring := ofString "__proto__".

(** Where ring [k] of a polygon of [n] points stops: at [parts[k + 1]],
    or at the last point when that entry is missing or zero. *)
Definition ringStop (parts : list Z) (n : Z) (k : nat) : Z :=
  match nth_error parts (S k) with
  | Some v => if v =? 0 then n else v
  | None => n
  end.

(** A projection that never throws, made of a function on pairs. *)
Definition pureProjection (t : jsnum -> jsnum -> jsnum * jsnum)
  : jsnum -> jsnum -> res (jsnum * jsnum) :=
  fun x y => Ok (t x y).

(** A function on pairs, applied to every pair of a geometry, of a
    bounding box, of a collection. *)
Definition mapPosition (t : jsnum -> jsnum -> jsnum * jsnum) (p : Position)
  : Position := t (fst p) (snd p).

Definition mapGeometry (t : jsnum -> jsnum -> jsnum * jsnum) (g : Geometry)
  : Geometry :=
  match g with
  | GPoint c => GPoint (mapPosition t c)
  | GLineString cs => GLineString (map (mapPosition t) cs)
  | GMultiPoint cs => GMultiPoint (map (mapPosition t) cs)
  | GPolygon rings => GPolygon (map (map (mapPosition t)) rings)
  end.

Definition mapBbox (t : jsnum -> jsnum -> jsnum * jsnum) (b : list jsnum)
  : list jsnum :=
  match b with
  | [x0; y0; x1; y1] => [fst (t x0 y0); snd (t x0 y0); fst (t x1 y1); snd (t x1 y1)]
  | _ => b
  end.

Definition mapCollection (t : jsnum -> jsnum -> jsnum * jsnum)
           (fc : FeatureCollection) : FeatureCollection :=
  mkFeatureCollection (mapBbox t (bbox fc))
    (map (fun f => mkFeature (mapGeometry t (geometry f)) (properties f))
         (features fc)).

(* ================================================================== *)
(** * src/preprocess.ts: SHPParser.load and DBFParser.load              *)
(* ================================================================== *)

(** What the loaders reach outside the program for: [fetch], the
    [TextDecoder] constructor, [URL.revokeObjectURL] and
    [console.error].  An [await] on a promise that rejects throws, so
    each asynchronous call is a result, and the program runs in the
    order it is written. *)
Module Loader.

(** A [Response], as far as it is looked at. *)
Record Response := mkResponse {
  resp_ok : bool;                      (* [response.ok] *)
  resp_arrayBuffer : res (list byte)   (* [await response.arrayBuffer()] *)
}.

(** What the loaders leave behind: the URLs handed to
    [URL.revokeObjectURL] and the errors handed to [console.error], the
    latest first. *)
Record World := mkWorld {
  revoked : list string;
  logged : list JsError
}.

Definition revokeObjectURL (url : string) (w : World) : World :=
  mkWorld (url :: revoked w) (logged w).

Definition consoleError (error : JsError) (w : World) : World :=
  mkWorld (revoked w) (error :: logged w).

(** The line feed, and U+21B3 as the three bytes of its UTF-8 form. *)
Definition lineFeed : string := String "010" EmptyString.
Definition arrow : string :=
  String "226" (String "134" (String "179" EmptyString)).

(** [new Error(`Failed to load SHP:\n  <arrow> ${error.message}`)] *)
Definition failedToLoadSHP (error : JsError) : JsError :=
  newError ("Failed to load SHP:" ++ lineFeed ++ "  " ++ arrow ++ " "
            ++ message error).

(** [new Error(`Failed to load binary data from ${url}`)] *)
Definition failedBinary (url : string) : JsError :=
  newError ("Failed to load binary data from " ++ url).

Section WithEnvironment.

(** [fetch(url)] and [fetch(url, { headers: { Accept: "text/plain" } })]:
    the flag says whether the header is sent. *)
Variable fetch : string -> bool -> res Response.

(** [new TextDecoder(encoding)], which throws on a label it does not
    know; the decoder it makes does not throw. *)
Variable TextDecoder : jsstring -> res (list byte -> jsstring).

(** [static async load(url)] of [SHPParser]: the [try] block up to the
    call of [parse], then both ways out. *)
Definition SHPParser_load (fuel : nat) (url : string) (w : World)
  : option (res SHPFile * World) :=
  let tried : option (res SHPFile) :=
    match (response <- fetch url false ;;
           resp_arrayBuffer response) with
    | Throw e => Some (Throw e)
    | Ok arrayBuffer => SHPParser.parse fuel arrayBuffer url
    end in
  match tried with
  | None => None
  | Some (Ok parsed) => Some (Ok parsed, revokeObjectURL url w)
  | Some (Throw error) =>
      Some (Throw (failedToLoadSHP error), revokeObjectURL url w)
  end.

(** [static async load(url, encoding)] of [DBFParser]. *)
Definition DBFParser_load (url : string) (encoding : jsstring) (w : World)
  : option (res DBFFile * World) :=
  let tried : option (res DBFFile) :=
    match (binaryResponse <- fetch url false ;;
           _ <- (if resp_ok binaryResponse then Ok tt
                 else Throw (failedBinary url)) ;;
           binaryData <- resp_arrayBuffer binaryResponse ;;
           textResponse <- fetch url true ;;
           decoder <- TextDecoder encoding ;;
           textBuffer <- resp_arrayBuffer textResponse ;;
           Ok (binaryData, decoder textBuffer)) with
    | Throw e => Some (Throw e)
    | Ok (binaryData, textData) =>
        DBFParser.parse binaryData url textData encoding
    end in
  match tried with
  | None => None
  | Some (Ok parsed) => Some (Ok parsed, revokeObjectURL url w)
  | Some (Throw error) => Some (Throw error, consoleError error w)
  end.

End WithEnvironment.

End Loader.

(** More concrete inputs. *)
Module Cases.

(** A header alone: 100 bytes, 50 words. *)
Definition headerOnly : list byte := Layout.file Examples.info [].

(** A file of 60 words whose first record gives its length as -4 words
    and holds a Null shape. *)
Definition stuck : list byte :=
  Layout.header 60 Examples.info
  ++ Layout.int32BE 1 ++ Layout.int32BE (-4) ++ Layout.int32LE 0.

(** Shapes that all have a geometry. *)
Definition solid : list SHPShape :=
  [Examples.taipei; Examples.polygon; Examples.line].

(** Six points and two parts, the second given as 0. *)
Definition zeroPart : MultiContent :=
  mkMultiContent Examples.d0 Examples.d0 Examples.d2 Examples.d2 [0; 0]
    (points Examples.twoRings).


(** No network: [fetch] rejects. *)
Definition offline (url : string) (accept : bool) : res Loader.Response :=
  Throw (mkError TypeErrorK "Failed to fetch").

(** A server that answers 404 with an empty body. *)
Definition notFound (url : string) (accept : bool) : res Loader.Response :=
  Ok (Loader.mkResponse false (Ok [])).

(** A decoder that takes every label and maps each byte to one unit. *)
Definition bytewise (label : jsstring) : res (list byte -> jsstring) :=
  Ok (map u8).

Definition untouched : Loader.World := Loader.mkWorld [] [].

End Cases.

(* ================================================================== *)
(** * The assembly, said on the projection and on the stored pairs     *)
(* ================================================================== *)


(** The pairs handed to the projection one after the other, each on its
    own; what the projection returns is kept as it is, and the first
    pair it throws on ends the run. *)
Fixpoint projectAll (proj4 : jsnum -> jsnum -> res (jsnum * jsnum))
         (pairs : list (float64 * float64)) : res (list Position) :=
  match pairs with
  | [] => Ok []
  | xy :: rest =>
      match proj4 (Some (fst xy)) (Some (snd xy)) with
      | Throw e => Throw e
      | Ok c =>
          match projectAll proj4 rest with
          | Throw e => Throw e
          | Ok cs => Ok (c :: cs)
          end
      end
  end.

(** The same for rings, ring after ring. *)
Fixpoint projectRings (proj4 : jsnum -> jsnum -> res (jsnum * jsnum))
         (rings : list (list (float64 * float64)))
  : res (list (list Position)) :=
  match rings with
  | [] => Ok []
  | ring :: rest =>
      match projectAll proj4 ring with
      | Throw e => Throw e
      | Ok r =>
          match projectRings proj4 rest with
          | Throw e => Throw e
          | Ok rs => Ok (r :: rs)
          end
      end
  end.

(** [cs] holds one position per pair of [points], in order: position
    [i] is what the projection returns for [points[2i], points[2i+1]]. *)
Definition vertexwise (proj4 : jsnum -> jsnum -> res (jsnum * jsnum))
           (points : list float64) (cs : list Position) : Prop :=
  (2 * List.length cs = List.length points)%nat
  /\ forall i pos,
       nth_error cs i = Some pos ->
       exists x y,
         nth_error points (2 * i) = Some x
         /\ nth_error points (2 * i + 1) = Some y
         /\ proj4 (Some x) (Some y) = Ok pos.


(** The part indices of a polygon lie within its points. *)
Definition partsWithin (shape : SHPShape) : Prop :=
  match shape with
  | ShapeMulti M_POLYGON c =>
      Forall (fun p => 0 <= p <= Z.of_nat (List.length (pairsOf (points c))))
             (parts c)
  | _ => True
  end.

(** The rings the loop over [parts] cuts out of the pairs: ring [k] runs
    from [parts[k]] to where [ringStop] says. *)
Definition ringsCut (parts : list Z) (pairs : list (float64 * float64))
  : list (list (float64 * float64)) :=
  map (fun k => between (nth k parts 0)
                        (ringStop parts (Z.of_nat (List.length pairs)) k) pairs)
      (seq 0 (List.length parts)).

(** The geometry of a shape, on its pairs and the projection. *)
Definition projectedGeometry (proj4 : jsnum -> jsnum -> res (jsnum * jsnum))
           (shape : SHPShape) : res Geometry :=
  match shape with
  | ShapeNull => Throw (newError "Unsupported shape type: 0")
  | ShapePoint x y =>
      match proj4 (Some x) (Some y) with
      | Ok c => Ok (GPoint c)
      | Throw e => Throw e
      end
  | ShapeMulti M_POLYLINE c =>
      match projectAll proj4 (pairsOf (points c)) with
      | Ok cs => Ok (GLineString cs)
      | Throw e => Throw e
      end
  | ShapeMulti M_MULTIPOINT c =>
      match projectAll proj4 (pairsOf (points c)) with
      | Ok cs => Ok (GMultiPoint cs)
      | Throw e => Throw e
      end
  | ShapeMulti M_POLYGON c =>
      match projectRings proj4 (ringsCut (parts c) (pairsOf (points c))) with
      | Ok rings => Ok (GPolygon rings)
      | Throw e => Throw e
      end
  end.


(** The geometries of the shapes, shape after shape. *)
Fixpoint projectShapes (proj4 : jsnum -> jsnum -> res (jsnum * jsnum))
         (shapes : list SHPShape) : res (list Geometry) :=
  match shapes with
  | [] => Ok []
  | s :: rest =>
      match projectedGeometry proj4 s with
      | Throw e => Throw e
      | Ok g =>
          match projectShapes proj4 rest with
          | Throw e => Throw e
          | Ok gs => Ok (g :: gs)
          end
      end
  end.

(** Feature [i] for geometry [i], with [dbf.records[i]]. *)
Fixpoint featuresFrom (dbf : DBFFile) (i : nat) (gs : list Geometry)
  : list Feature :=
  match gs with
  | [] => []
  | g :: rest => mkFeature g (nth_error (records dbf) i) :: featuresFrom dbf (S i) rest
  end.

(** The collection for a header and shapes: the two corners of the
    header projected, then the shapes. *)
Definition projectedCollection (proj4 : jsnum -> jsnum -> res (jsnum * jsnum))
           (h : Layout.HeaderInfo) (shapes : list SHPShape) (dbf : DBFFile)
  : res FeatureCollection :=
  match proj4 (Some (Layout.h_minX h)) (Some (Layout.h_minY h)) with
  | Throw e => Throw e
  | Ok lo =>
      match proj4 (Some (Layout.h_maxX h)) (Some (Layout.h_maxY h)) with
      | Throw e => Throw e
      | Ok hi =>
          match projectShapes proj4 shapes with
          | Throw e => Throw e
          | Ok gs =>
              Ok (mkFeatureCollection [fst lo; snd lo; fst hi; snd hi]
                    (featuresFrom dbf 0 gs))
          end
      end
  end.

(** What the specification describes for a polygon: ring [k] holds the
    pairs from [parts[k]] up to [parts[k + 1]], the last ring up to the
    last pair. *)
Module DescribedRings.

Definition ring (parts : list Z) (pairs : list (float64 * float64)) (k : nat)
  : list (float64 * float64) :=
  between (nth k parts 0) (nth (S k) parts (Z.of_nat (List.length pairs))) pairs.

Definition rings (parts : list Z) (pairs : list (float64 * float64))
  : list (list (float64 * float64)) :=
  map (ring parts pairs) (seq 0 (List.length parts)).

Definition polygon (proj4 : jsnum -> jsnum -> res (jsnum * jsnum))
           (c : MultiContent) : res Geometry :=
  match projectRings proj4 (rings (parts c) (pairsOf (points c))) with
  | Ok rs => Ok (GPolygon rs)
  | Throw e => Throw e
  end.

End DescribedRings.

(* ================================================================== *)
(** * src/preview.ts: proj4 between two EPSG:4326 systems               *)
(* ================================================================== *)

(** Without a [.prj] in the archive [loadshp] leaves [EPSGUser] at
    [proj4("EPSG:4326")], and [TransCoord] calls
    [proj4(EPSGUser, EPSG4326, [x, y])] with both systems the same
    [longlat] system on the same datum.  Of the bundled [transform]
    (lines 8112-8194) these steps then do something: [checkSanity]
    throws unless both coordinates are finite numbers; the coordinates
    are multiplied by [D2R]; [datum_transform] returns the point as it
    is, the datums being equal; the coordinates are multiplied by
    [R2D].  Numbers are binary64, as their eight bytes; a product is
    the one of Stdlib's [SFmul], rounded to nearest, ties to even. *)
Module Proj4.

(** The 64 bits of a number. *)
Definition bitsOf (x : float64) : Z :=
  let 'F64 b0 b1 b2 b3 b4 b5 b6 b7 := x in
  leZ [b0; b1; b2; b3; b4; b5; b6; b7].

(** Sign, exponent and fraction, read as binary64. *)
Definition toSpec (x : float64) : spec_float :=
  let bits := bitsOf x in
  let sign := Z.testbit bits 63 in
  let expo := (bits / 2 ^ 52) mod 2 ^ 11 in
  let frac := bits mod 2 ^ 52 in
  if expo =? 2047 then
    if frac =? 0 then S754_infinity sign else S754_nan
  else if expo =? 0 then
    match frac with
    | Zpos m => S754_finite sign m (-1074)
    | _ => S754_zero sign
    end
  else
    match 2 ^ 52 + frac with
    | Zpos m => S754_finite sign m (expo - 1075)
    | _ => S754_nan
    end.

Definition ofBits (bits : Z) : float64 :=
  match Layout.leBytes 8 bits with
  | [b0; b1; b2; b3; b4; b5; b6; b7] => F64 b0 b1 b2 b3 b4 b5 b6 b7
  | _ => F64 x00 x00 x00 x00 x00 x00 x00 x00
  end.

Definition signBit (s : bool) : Z := if s then 2 ^ 63 else 0.

(** Back to the eight bytes; the mantissa of a finite product is
    normalised, below [2 ^ 52] only for a subnormal number. *)
Definition ofSpec (f : spec_float) : float64 :=
  ofBits
    match f with
    | S754_zero s => signBit s
    | S754_infinity s => signBit s + 2047 * 2 ^ 52
    | S754_nan => 2047 * 2 ^ 52 + 2 ^ 51
    | S754_finite s m e =>
        if Zpos m <? 2 ^ 52 then signBit s + Zpos m
        else signBit s + (e + 1075) * 2 ^ 52 + (Zpos m - 2 ^ 52)
    end.

(** [x * y] *)
Definition times (x y : float64) : float64 :=
  ofSpec (SFmul 53 1024 (toSpec x) (toSpec y)).

(** [var D2R = 0.017453292519943295; var R2D = 57.29577951308232;] *)
Definition D2R : float64 := F64 x39 x9d x52 xa2 x46 xdf x91 x3f.
Definition R2D : float64 := F64 xf8 xc1 x63 x1a xdc xa5 x4c x40.

(** [Number.isFinite(num)] *)
Definition isFinite (num : jsnum) : bool :=
  match num with
  | None => false
  | Some x =>
      match toSpec x with
      | S754_zero _ | S754_finite _ _ _ => true
      | _ => false
      end
  end.

(** [throw new TypeError("coordinates must be finite numbers")] *)
Definition notFinite : JsError :=
  mkError TypeErrorK "coordinates must be finite numbers".

(** [point.x * D2R] then [point.x * R2D] *)
Definition throughRadians (x : float64) : float64 := times (times x D2R) R2D.

(** [proj4(EPSGUser, EPSG4326, [x, y])], both systems EPSG:4326. *)
Definition sameSystem (x y : jsnum) : res (jsnum * jsnum) :=
  match x, y with
  | Some a, Some b =>
      if isFinite x && isFinite y
      then Ok (Some (throughRadians a), Some (throughRadians b))
      else Throw notFinite
  | _, _ => Throw notFinite
  end.

End Proj4.

(** More concrete inputs. *)
Module Inputs.




(** A path through (0, 1) and (2, 121.5). *)
Definition zigzag : MultiContent :=
  mkMultiContent Examples.d0 Examples.d0 Examples.d2 Examples.lon [0]
    [Examples.d0; Examples.d1; Examples.d2; Examples.lon].

(** A file of one record, number 7, whose shape type is 11 (PointZ). *)
Definition pointZFile : list byte :=
  Layout.header 56 Examples.info
  ++ Layout.int32BE 7 ++ Layout.int32BE 2 ++ Layout.int32LE 11.

(** The error [parse] throws on it. *)
Definition pointZError : JsError :=
  newError
    "Shape parsing error: Shape type not supported: 11 (PointZ) (record 7)".

(** A projection that returns the pair it is given, turned round. *)
Definition swap (x y : jsnum) : res (jsnum * jsnum) := Ok (y, x).

End Inputs.

(* ================================================================== *)
(** * Reading what was written: bytes, integers, doubles                *)
(* ================================================================== *)

Create Rewrite HintDb len.

Section ShpDecoder.

Import Layout.

Lemma u8_range b : 0 <= u8 b < 256.
Proof.
  unfold u8. pose proof (Byte.to_N_bounded b). lia.
Qed.

Lemma u8_byteOfZ z : u8 (Layout.byteOfZ z) = z mod 256.
Proof.
  unfold u8, Layout.byteOfZ.
  assert (Hr : 0 <= z mod 256 < 256) by (apply Z.mod_pos_bound; lia).
  destruct (Byte.of_N (Z.to_N (z mod 256))) as [b|] eqn:E.
  - apply Byte.to_of_N in E. rewrite E. lia.
  - apply Byte.of_N_None_iff in E. lia.
Qed.

Lemma leZ_leBytes n v : leZ (Layout.leBytes n v) = v mod 256 ^ Z.of_nat n.
Proof.
  revert v. induction n as [|n IH]; intros v.
  - cbn. now rewrite Z.mod_1_r.
  - cbn [Layout.leBytes leZ]. rewrite u8_byteOfZ, IH.
    rewrite Nat2Z.inj_succ, Z.pow_succ_r by lia.
    rewrite (Z.mul_comm 256), Z.rem_mul_r by lia. lia.
Qed.

Lemma toSigned32_mod v : int32 v -> toSigned 32 (v mod 2 ^ 32) = v.
Proof.
  unfold int32, toSigned. intros H.
  change (2 ^ (32 - 1)) with 2147483648 in *.
  change (2 ^ 31) with 2147483648 in *.
  change (2 ^ 32) with 4294967296 in *.
  destruct (Z.ltb_spec (v mod 4294967296) 2147483648);
    Z.div_mod_to_equations; lia.
Qed.

Lemma bytesFrom_0 l : bytesFrom l 0 = l.
Proof. reflexivity. Qed.

Lemma bytesFrom_app_ge a l i :
  Z.of_nat (List.length a) <= i ->
  bytesFrom (a ++ l) i = bytesFrom l (i - Z.of_nat (List.length a)).
Proof.
  intros H. unfold bytesFrom.
  destruct (Z.ltb_spec i 0); [lia|].
  destruct (Z.ltb_spec (i - Z.of_nat (List.length a)) 0); [lia|].
  rewrite skipn_app, skipn_all2 by lia. cbn [app].
  f_equal. lia.
Qed.

Lemma getInt32_skip a l i le :
  Z.of_nat (List.length a) <= i ->
  getInt32 (a ++ l) i le = getInt32 l (i - Z.of_nat (List.length a)) le.
Proof. intros H. unfold getInt32. now rewrite bytesFrom_app_ge. Qed.

Lemma getFloat64_skip a l i le :
  Z.of_nat (List.length a) <= i ->
  getFloat64 (a ++ l) i le = getFloat64 l (i - Z.of_nat (List.length a)) le.
Proof. intros H. unfold getFloat64. now rewrite bytesFrom_app_ge. Qed.

Lemma length_leBytes n v : List.length (leBytes n v) = n.
Proof. revert v. induction n; intros; cbn; auto. Qed.

Lemma length_int32LE v : List.length (int32LE v) = 4%nat.
Proof. apply length_leBytes. Qed.

Lemma length_int32BE v : List.length (int32BE v) = 4%nat.
Proof. unfold int32BE. now rewrite length_rev, length_leBytes. Qed.

Lemma length_double x : List.length (double x) = 8%nat.
Proof. now destruct x. Qed.

Lemma length_parts ps : List.length (flat_map int32LE ps) = (4 * List.length ps)%nat.
Proof.
  induction ps as [|p ps IH]; [reflexivity|].
  cbn [flat_map]. rewrite length_app, length_int32LE, IH. cbn [List.length]. lia.
Qed.

Lemma length_doubles xs : List.length (flat_map double xs) = (8 * List.length xs)%nat.
Proof.
  induction xs as [|x xs IH]; [reflexivity|].
  cbn [flat_map]. rewrite length_app, length_double, IH. cbn [List.length]. lia.
Qed.

Lemma getInt32_LE_here v rest i :
  i = 0 -> int32 v -> getInt32 (int32LE v ++ rest) i true = Ok v.
Proof.
  intros -> H. unfold getInt32, int32LE. cbn [leBytes app bytesFrom Z.ltb Z.compare Z.to_nat skipn].
  f_equal. rewrite <- (toSigned32_mod v H) at 5. f_equal.
  exact (leZ_leBytes 4 v).
Qed.

Lemma getInt32_BE_here v rest i :
  i = 0 -> int32 v -> getInt32 (int32BE v ++ rest) i false = Ok v.
Proof.
  intros -> H. unfold getInt32, int32BE.
  cbn [leBytes rev app bytesFrom Z.ltb Z.compare Z.to_nat skipn].
  f_equal. rewrite <- (toSigned32_mod v H) at 5. f_equal.
  exact (leZ_leBytes 4 v).
Qed.

Lemma getFloat64_here x rest i :
  i = 0 -> getFloat64 (double x ++ rest) i true = Ok x.
Proof. intros ->. now destruct x. Qed.

#[local] Hint Rewrite length_app length_int32LE length_int32BE length_double
  length_parts length_doubles repeat_length Nat2Z.inj_add Nat2Z.inj_mul : len.

Lemma getInt32_LE_in buf pre v rest i :
  buf = pre ++ int32LE v ++ rest ->
  i = Z.of_nat (List.length pre) ->
  int32 v ->
  getInt32 buf i true = Ok v.
Proof.
  intros -> -> H. rewrite getInt32_skip by lia.
  apply getInt32_LE_here; [lia|assumption].
Qed.

Lemma getInt32_BE_in buf pre v rest i :
  buf = pre ++ int32BE v ++ rest ->
  i = Z.of_nat (List.length pre) ->
  int32 v ->
  getInt32 buf i false = Ok v.
Proof.
  intros -> -> H. rewrite getInt32_skip by lia.
  apply getInt32_BE_here; [lia|assumption].
Qed.

Lemma getFloat64_in buf pre x rest i :
  buf = pre ++ double x ++ rest ->
  i = Z.of_nat (List.length pre) ->
  getFloat64 buf i true = Ok x.
Proof.
  intros -> ->. rewrite getFloat64_skip by lia.
  apply getFloat64_here; lia.
Qed.

Lemma readParts_in ps : forall buf pre rest i,
  buf = pre ++ flat_map int32LE ps ++ rest ->
  i = Z.of_nat (List.length pre) ->
  Forall int32 ps ->
  SHPParser.readParts buf i (List.length ps) = Ok ps.
Proof.
  induction ps as [|p ps IH]; intros buf pre rest i Hb Hi Hps; [reflexivity|].
  inversion Hps as [|? ? Hp Hps']; subst.
  cbn [List.length SHPParser.readParts flat_map].
  rewrite (getInt32_LE_in _ pre p (flat_map int32LE ps ++ rest));
    [|now rewrite <- !app_assoc|reflexivity|assumption].
  cbn [bind].
  rewrite (IH _ (pre ++ int32LE p) rest); [reflexivity| |  |assumption].
  - now rewrite <- !app_assoc.
  - autorewrite with len. lia.
Qed.

Lemma readPoints_in xs : forall buf pre rest i,
  buf = pre ++ flat_map double xs ++ rest ->
  i = Z.of_nat (List.length pre) ->
  SHPParser.readPoints buf i (List.length xs) = Ok xs.
Proof.
  induction xs as [|x xs IH]; intros buf pre rest i Hb Hi; [reflexivity|].
  subst. cbn [List.length SHPParser.readPoints flat_map].
  rewrite (getFloat64_in _ pre x (flat_map double xs ++ rest));
    [|now rewrite <- !app_assoc|reflexivity].
  cbn [bind].
  rewrite (IH _ (pre ++ double x) rest); [reflexivity| | ].
  - now rewrite <- !app_assoc.
  - autorewrite with len. lia.
Qed.

(** The payload of an encodable shape has an even number of bytes. *)
Lemma payload_length s :
  encodable s ->
  exists w, Z.of_nat (List.length (payload s)) = 2 * w /\ 2 <= w.
Proof.
  destruct s as [|x y|t c]; cbn [payload encodable].
  - intros _. exists 2. split; [reflexivity|lia].
  - intros _. exists 10. autorewrite with len. cbn. split; lia.
  - intros [_ [n Hn]]. autorewrite with len. rewrite Hn.
    exists (22 + 2 * Z.of_nat (List.length (parts c)) + 8 * Z.of_nat n).
    split; lia.
Qed.

Lemma contentLengthWords_double s :
  encodable s ->
  contentLengthWords s * 2 = Z.of_nat (List.length (payload s)).
Proof.
  intros H. destruct (payload_length s H) as [w [Hw _]].
  unfold contentLengthWords. rewrite Hw.
  rewrite (Z.mul_comm 2 w), Z.div_mul by lia. lia.
Qed.

Lemma parseShape_in s : forall buf pre rest i len,
  buf = pre ++ payload s ++ rest ->
  i = Z.of_nat (List.length pre) ->
  encodable s ->
  Z.of_nat (List.length (payload s)) < 2 ^ 32 ->
  SHPParser.parseShape buf i len = Ok s.
Proof.
  intros buf pre rest i len Hb Hi He Hsz.
  unfold SHPParser.parseShape.
  destruct s as [|x y|t c]; cbn [payload] in Hb.
  - rewrite (getInt32_LE_in _ pre (SHP_code NULL) rest _ Hb Hi);
      [reflexivity|unfold int32; cbn; lia].
  - rewrite <- !app_assoc in Hb.
    rewrite (getInt32_LE_in _ pre (SHP_code POINT) _ _ Hb Hi);
      [|unfold int32; cbn; lia].
    cbn [bind SHP_code Z.eqb Pos.eqb].
    erewrite (getFloat64_in buf (pre ++ int32LE 1) x (double y ++ rest));
      [|subst buf; now rewrite <- !app_assoc|autorewrite with len; lia].
    cbn [bind].
    erewrite (getFloat64_in buf (pre ++ int32LE 1 ++ double x) y rest);
      [|subst buf; now rewrite <- !app_assoc|autorewrite with len; lia].
    reflexivity.
  - destruct He as [Hparts [n Hn]].
    rewrite <- !app_assoc in Hb.
    set (code := SHP_code (MultiSHP_member t)) in *.
    assert (Hcode : int32 code) by (unfold int32; destruct t; cbn; lia).
    rewrite (getInt32_LE_in _ pre code _ _ Hb Hi Hcode).
    cbn [bind].
    assert (Hm : SHPParser.multiTypeOf code = Some t) by (now destruct t).
    assert (H0 : (code =? SHP_code NULL) = false) by (now destruct t).
    assert (H1 : (code =? SHP_code POINT) = false) by (now destruct t).
    rewrite H0, H1, Hm.
    revert Hsz. cbn [payload]. autorewrite with len. rewrite Hn. intros Hsz.
    fold code in Hsz.
    set (c1 := int32LE code) in *.
    assert (L1 : List.length c1 = 4%nat) by apply length_int32LE.
    erewrite (getFloat64_in buf (pre ++ c1) (c_minX c) _);
      [|subst buf; rewrite <- !app_assoc; reflexivity|autorewrite with len; lia].
    cbn [bind].
    erewrite (getFloat64_in buf (pre ++ c1 ++ double (c_minX c)) (c_minY c) _);
      [|subst buf; rewrite <- !app_assoc; reflexivity|autorewrite with len; lia].
    cbn [bind].
    erewrite (getFloat64_in buf
               (pre ++ c1 ++ double (c_minX c) ++ double (c_minY c))
               (c_maxX c) _);
      [|subst buf; rewrite <- !app_assoc; reflexivity|autorewrite with len; lia].
    cbn [bind].
    erewrite (getFloat64_in buf
               (pre ++ c1 ++ double (c_minX c) ++ double (c_minY c)
                    ++ double (c_maxX c))
               (c_maxY c) _);
      [|subst buf; rewrite <- !app_assoc; reflexivity|autorewrite with len; lia].
    cbn [bind].
    set (box := c1 ++ double (c_minX c) ++ double (c_minY c)
                   ++ double (c_maxX c) ++ double (c_maxY c)).
    assert (Lbox : List.length box = 36%nat)
      by (subst box; autorewrite with len; rewrite L1; reflexivity).
    set (np := Z.of_nat (List.length (parts c))) in *.
    set (nq := Z.of_nat (List.length (points c)) / 2) in *.
    assert (Hnq : nq = Z.of_nat n).
    { subst nq. rewrite Hn. rewrite Nat2Z.inj_mul.
      change (Z.of_nat 2) with 2. rewrite Z.mul_comm, Z.div_mul; lia. }
    erewrite (getInt32_LE_in buf (pre ++ box) np _);
      [|subst buf box; rewrite <- !app_assoc; reflexivity
       |autorewrite with len; rewrite Lbox; lia
       |unfold int32; subst np; lia].
    cbn [bind].
    erewrite (getInt32_LE_in buf (pre ++ box ++ int32LE np) nq _);
      [|subst buf box; rewrite <- !app_assoc; reflexivity
       |autorewrite with len; rewrite Lbox; lia
       |unfold int32; lia].
    cbn [bind].
    unfold newTypedArray.
    destruct (Z.ltb_spec np 0); [subst np; lia|].
    cbn [bind].
    replace (Z.to_nat np) with (List.length (parts c)) by (subst np; lia).
    rewrite (readParts_in (parts c) buf
               (pre ++ box ++ int32LE np ++ int32LE nq)
               (flat_map double (points c) ++ rest));
      [|subst buf box; rewrite <- !app_assoc; reflexivity
       |autorewrite with len; rewrite Lbox; lia
       |assumption].
    cbn [bind].
    destruct (Z.ltb_spec (nq * 2) 0); [lia|].
    cbn [bind].
    replace (Z.to_nat (nq * 2)) with (List.length (points c)) by lia.
    rewrite (readPoints_in (points c) buf
               (pre ++ box ++ int32LE np ++ int32LE nq
                    ++ flat_map int32LE (parts c))
               rest);
      [|subst buf box; rewrite <- !app_assoc; reflexivity
       |autorewrite with len; rewrite Lbox; subst np; lia].
    cbn [bind]. now destruct c.
Qed.

(* ================================================================== *)
(** * SHPParser: records, header, whole files                           *)
(* ================================================================== *)

Lemma length_record k s :
  Z.of_nat (List.length (record k s)) = 8 + Z.of_nat (List.length (payload s)).
Proof. unfold record. autorewrite with len. lia. Qed.

Lemma parseRecord_step dv idx r idx' :
  SHPParser.parseRecord dv idx = Ok (r, idx') ->
  idx' = idx + 4 + 4 + rec_length r * 2.
Proof.
  unfold SHPParser.parseRecord.
  destruct (getInt32 dv idx false) as [number|]; cbn [bind]; [|discriminate].
  destruct (getInt32 dv (idx + 4) false) as [len|]; cbn [bind]; [|discriminate].
  destruct (SHPParser.parseShape dv (idx + 4 + 4) len) as [shape|];
    cbn [rethrow bind]; [|discriminate].
  intros H. inversion H. reflexivity.
Qed.

Lemma parseRecord_in k s : forall buf pre rest i,
  buf = pre ++ record k s ++ rest ->
  i = Z.of_nat (List.length pre) ->
  int32 k ->
  encodable s ->
  Z.of_nat (List.length (payload s)) < 2 ^ 32 ->
  SHPParser.parseRecord buf i =
    Ok (mkSHPRecord k (contentLengthWords s) s,
        Z.of_nat (List.length (pre ++ record k s))).
Proof.
  intros buf pre rest i Hb Hi Hk He Hsz.
  unfold record in Hb. rewrite <- !app_assoc in Hb.
  unfold SHPParser.parseRecord.
  rewrite (getInt32_BE_in _ pre k _ _ Hb Hi Hk). cbn [bind].
  pose proof (contentLengthWords_double s He) as Hw.
  destruct (payload_length s He) as [w [Hpl Hw2]].
  assert (Hcl : int32 (contentLengthWords s))
    by (unfold int32; change (2 ^ 32) with (2 * 2 ^ 31) in Hsz; lia).
  erewrite (getInt32_BE_in buf (pre ++ int32BE k) (contentLengthWords s) _);
    [|subst buf; rewrite <- !app_assoc; reflexivity
     |autorewrite with len; lia|assumption].
  cbn [bind].
  rewrite (parseShape_in s buf
             (pre ++ int32BE k ++ int32BE (contentLengthWords s)) rest);
    [|subst buf; rewrite <- !app_assoc; reflexivity
     |autorewrite with len; lia|assumption|assumption].
  cbn [rethrow bind]. do 2 f_equal.
  rewrite length_app, Nat2Z.inj_add, length_record. lia.
Qed.

Lemma parseRecords_in shapes : forall buf pre k acc fuel,
  buf = pre ++ recordsFrom k shapes ->
  0 <= k ->
  k + Z.of_nat (List.length shapes) <= 2 ^ 31 ->
  Forall encodable shapes ->
  Forall (fun s => Z.of_nat (List.length (payload s)) < 2 ^ 32) shapes ->
  (List.length shapes <= fuel)%nat ->
  SHPParser.parseRecords fuel buf (Z.of_nat (List.length buf))
      (Z.of_nat (List.length pre)) acc
  = Some (Ok (acc ++ expectedFrom k shapes)).
Proof.
  induction shapes as [|s shapes IH]; intros buf pre k acc fuel Hb Hk Hn He Hsz Hf.
  - cbn [recordsFrom] in Hb. rewrite app_nil_r in Hb. subst buf.
    destruct fuel; cbn [SHPParser.parseRecords]; rewrite Z.ltb_irrefl;
      cbn [expectedFrom]; now rewrite app_nil_r.
  - cbn [recordsFrom] in Hb. cbn [List.length] in Hn, Hf.
    inversion He as [|? ? He1 He2]; inversion Hsz as [|? ? Hs1 Hs2]; subst.
    destruct fuel as [|fuel]; [lia|].
    cbn [SHPParser.parseRecords].
    match goal with |- context [?a <? ?b] => destruct (Z.ltb_spec a b) as [Hlt|Hge] end.
    2:{ revert Hge. rewrite !length_app, !Nat2Z.inj_add, length_record. lia. }
    rewrite (parseRecord_in k s _ pre (recordsFrom (k + 1) shapes));
      [|reflexivity|reflexivity|unfold int32; lia|assumption|assumption].
    rewrite (IH _ (pre ++ record k s) (k + 1) (acc ++ [mkSHPRecord k (contentLengthWords s) s]) fuel);
      [|now rewrite <- app_assoc|lia|lia|assumption|assumption|lia].
    cbn [expectedFrom]. now rewrite <- app_assoc.
Qed.

Lemma length_header w h : List.length (header w h) = 100%nat.
Proof. unfold header. autorewrite with len. reflexivity. Qed.

Lemma recordsFrom_length shapes : forall k,
  Forall encodable shapes ->
  exists w, Z.of_nat (List.length (recordsFrom k shapes)) = 2 * w
            /\ 6 * Z.of_nat (List.length shapes) <= w
            /\ Forall (fun s => Z.of_nat (List.length (payload s)) <= 2 * w) shapes.
Proof.
  induction shapes as [|s shapes IH]; intros k He.
  - exists 0. cbn. repeat split; try lia. constructor.
  - inversion He as [|? ? He1 He2]; subst.
    destruct (IH (k + 1) He2) as [w [Hw [Hn Hall]]].
    destruct (payload_length s He1) as [v [Hv Hv2]].
    exists (4 + v + w). cbn [recordsFrom List.length].
    rewrite length_app, Nat2Z.inj_add, length_record.
    split; [lia|]. split; [lia|].
    constructor; [lia|].
    eapply Forall_impl; [|exact Hall]. intros a Ha; cbv beta in *; lia.
Qed.

Lemma parseHeader_in h w body url :
  int32 w -> int32 (h_version h) -> int32 (h_shapeType h) ->
  SHPParser.parseHeader (header w h ++ body) url
  = Ok (mkSHPFile url 9994 w (w * 2) (h_version h) (h_shapeType h)
          (h_minX h) (h_minY h) (h_maxX h) (h_maxY h)
          (h_minZ h) (h_maxZ h) (h_minM h) (h_maxM h) []).
Proof.
  intros Hw Hv Ht. unfold SHPParser.parseHeader, header.
  rewrite <- !app_assoc.
  set (buf := int32BE 9994 ++ _).
  set (c0 := int32BE 9994 ++ repeat x00 20).
  assert (L0 : List.length c0 = 24%nat) by reflexivity.
  erewrite (getInt32_BE_in buf [] 9994 _);
    [|reflexivity|reflexivity|unfold int32; lia].
  cbn [bind Z.eqb Pos.eqb negb].
  erewrite (getInt32_BE_in buf c0 w _);
    [|subst buf c0; rewrite <- !app_assoc; reflexivity|rewrite L0; reflexivity|assumption].
  cbn [bind].
  set (c1 := c0 ++ int32BE w).
  assert (L1 : List.length c1 = 28%nat) by (subst c1; autorewrite with len; now rewrite L0).
  erewrite (getInt32_LE_in buf c1 (h_version h) _);
    [|subst buf c1 c0; rewrite <- !app_assoc; reflexivity|rewrite L1; reflexivity|assumption].
  cbn [bind].
  set (c2 := c1 ++ int32LE (h_version h)).
  assert (L2 : List.length c2 = 32%nat) by (subst c2; autorewrite with len; now rewrite L1).
  erewrite (getInt32_LE_in buf c2 (h_shapeType h) _);
    [|subst buf c2 c1 c0; rewrite <- !app_assoc; reflexivity|rewrite L2; reflexivity|assumption].
  cbn [bind].
  set (c3 := c2 ++ int32LE (h_shapeType h)).
  assert (L3 : List.length c3 = 36%nat) by (subst c3; autorewrite with len; now rewrite L2).
  erewrite (getFloat64_in buf c3 (h_minX h) _);
    [|subst buf c3 c2 c1 c0; rewrite <- !app_assoc; reflexivity|rewrite L3; reflexivity].
  cbn [bind].
  set (c4 := c3 ++ double (h_minX h)).
  assert (L4 : List.length c4 = 44%nat) by (subst c4; autorewrite with len; now rewrite L3).
  erewrite (getFloat64_in buf c4 (h_minY h) _);
    [|subst buf c4 c3 c2 c1 c0; rewrite <- !app_assoc; reflexivity|rewrite L4; reflexivity].
  cbn [bind].
  set (c5 := c4 ++ double (h_minY h)).
  assert (L5 : List.length c5 = 52%nat) by (subst c5; autorewrite with len; now rewrite L4).
  erewrite (getFloat64_in buf c5 (h_maxX h) _);
    [|subst buf c5 c4 c3 c2 c1 c0; rewrite <- !app_assoc; reflexivity|rewrite L5; reflexivity].
  cbn [bind].
  set (c6 := c5 ++ double (h_maxX h)).
  assert (L6 : List.length c6 = 60%nat) by (subst c6; autorewrite with len; now rewrite L5).
  erewrite (getFloat64_in buf c6 (h_maxY h) _);
    [|subst buf c6 c5 c4 c3 c2 c1 c0; rewrite <- !app_assoc; reflexivity|rewrite L6; reflexivity].
  cbn [bind].
  set (c7 := c6 ++ double (h_maxY h)).
  assert (L7 : List.length c7 = 68%nat) by (subst c7; autorewrite with len; now rewrite L6).
  erewrite (getFloat64_in buf c7 (h_minZ h) _);
    [|subst buf c7 c6 c5 c4 c3 c2 c1 c0; rewrite <- !app_assoc; reflexivity|rewrite L7; reflexivity].
  cbn [bind].
  set (c8 := c7 ++ double (h_minZ h)).
  assert (L8 : List.length c8 = 76%nat) by (subst c8; autorewrite with len; now rewrite L7).
  erewrite (getFloat64_in buf c8 (h_maxZ h) _);
    [|subst buf c8 c7 c6 c5 c4 c3 c2 c1 c0; rewrite <- !app_assoc; reflexivity|rewrite L8; reflexivity].
  cbn [bind].
  set (c9 := c8 ++ double (h_maxZ h)).
  assert (L9 : List.length c9 = 84%nat) by (subst c9; autorewrite with len; now rewrite L8).
  erewrite (getFloat64_in buf c9 (h_minM h) _);
    [|subst buf c9 c8 c7 c6 c5 c4 c3 c2 c1 c0; rewrite <- !app_assoc; reflexivity|rewrite L9; reflexivity].
  cbn [bind].
  set (c10 := c9 ++ double (h_minM h)).
  assert (L10 : List.length c10 = 92%nat) by (subst c10; autorewrite with len; now rewrite L9).
  erewrite (getFloat64_in buf c10 (h_maxM h) _);
    [|subst buf c10 c9 c8 c7 c6 c5 c4 c3 c2 c1 c0; rewrite <- !app_assoc; reflexivity|rewrite L10; reflexivity].
  reflexivity.
Qed.

Theorem parse_file h shapes url fuel :
  int32 (h_version h) -> int32 (h_shapeType h) ->
  Forall encodable shapes ->
  Z.of_nat (List.length (file h shapes)) < 2 ^ 32 ->
  (List.length shapes <= fuel)%nat ->
  SHPParser.parse fuel (file h shapes) url = Some (Ok (expectedFile h shapes url)).
Proof.
  intros Hv Ht He Hsz Hf.
  destruct (recordsFrom_length shapes 1 He) as [w [Hw [Hn Hall]]].
  unfold file in *. cbv zeta in *.
  set (body := recordsFrom 1 shapes) in *.
  rewrite length_app, length_header, Nat2Z.inj_add in Hsz.
  change (Z.of_nat 100) with 100 in Hsz.
  assert (Hwl : (100 + Z.of_nat (List.length body)) / 2 = 50 + w).
  { rewrite Hw. replace (100 + 2 * w) with ((50 + w) * 2) by lia.
    apply Z.div_mul. lia. }
  unfold SHPParser.parse, expectedFile. cbv zeta. fold body.
  rewrite Hwl.
  change (2 ^ 32) with (2 * 2 ^ 31) in Hsz.
  rewrite parseHeader_in; [|unfold int32; lia|assumption|assumption].
  cbn [shp_byteLength].
  pose proof (parseRecords_in shapes (header (50 + w) h ++ body)
                (header (50 + w) h) 1 [] fuel eq_refl) as Hloop.
  rewrite length_app, length_header, Nat2Z.inj_add in Hloop.
  change (Z.of_nat 100) with 100 in Hloop.
  replace ((50 + w) * 2) with (100 + Z.of_nat (List.length body)) by lia.
  rewrite Hloop; [reflexivity|lia|lia|assumption| |assumption].
  eapply Forall_impl; [|exact Hall].
  intros a Ha; cbv beta in *. change (2 ^ 32) with (2 * 2 ^ 31). lia.
Qed.

(** C4.  A buffer whose first four bytes, read big-endian, are not
    0x0000270a (9994) makes [SHPParser.parse] throw [Unknown file code];
    the answer is a throw, which carries no record, and it is the same
    with no fuel at all: not one turn of the record loop is run. *)
Theorem C4_bad_file_code : forall fuel buf url fileCode,
  getInt32 buf 0 false = Ok fileCode ->
  fileCode <> 9994 ->
  SHPParser.parse fuel buf url = Some (Throw (SHPParser.unknownFileCode fileCode)).
Proof.
  intros fuel buf url fileCode Hread Hne.
  unfold SHPParser.parse, SHPParser.parseHeader.
  cbn [Z.add]. rewrite Hread. cbn [bind].
  destruct (Z.eqb_spec fileCode 9994) as [E|E]; [contradiction|].
  reflexivity.
Qed.

Lemma C4_bad_file_code_witness :
  getInt32 [x00; x00; x00; x00] 0 false = Ok 0
  /\ 0 <> 9994
  /\ SHPParser.parse 0 [x00; x00; x00; x00] "a.shp"
     = Some (Throw (SHPParser.unknownFileCode 0)).
Proof.
  split; [reflexivity|]. split; [lia|].
  apply (C4_bad_file_code 0 [x00; x00; x00; x00] "a.shp" 0); [reflexivity|lia].
Defined.

Lemma notSupported_ne_unknown code at_ code' :
  SHPParser.notSupportedMessage code <> SHPParser.unknownShapeMessage at_ code'.
Proof. unfold SHPParser.notSupportedMessage, SHPParser.unknownShapeMessage. cbn [append]. discriminate. Qed.

(** C5.  A record whose shape-type code is one of the Z, M and MultiPatch
    codes makes [parseShape] throw an error whose message holds the code
    and the name of the member of [NotSupportedShapeType] (for 11,
    [PointZ]); that message is never the one thrown for an unrecognised
    code, which every code outside the two enums gets. *)
Theorem C5_unsupported_shape_error dv idx len code :
  getInt32 dv idx true = Ok code ->
  (In code [11; 13; 15; 18; 21; 23; 25; 28; 31] ->
   exists t,
     NotSupportedShapeType_code t = code
     /\ SHPParser.parseShape dv idx len
        = Throw (newError ("Shape type not supported: " ++ numToString code
                           ++ " (" ++ NotSupportedShapeType_name t ++ ")")%string)
     /\ (code = 11 -> NotSupportedShapeType_name t = "PointZ"%string)
     /\ forall at_ code',
          SHPParser.parseShape dv idx len
          <> Throw (newError (SHPParser.unknownShapeMessage at_ code')))
  /\ (~ In code [0; 1; 3; 5; 8; 11; 13; 15; 18; 21; 23; 25; 28; 31] ->
      SHPParser.parseShape dv idx len
      = Throw (newError (SHPParser.unknownShapeMessage idx code))).
Proof.
  intros Hread. split.
  - intros Hin.
    assert (Ht : exists t, NotSupportedShapeType_code t = code
                           /\ NotSupportedShapeType_of code = Some t).
    { cbn [In] in Hin.
      repeat (destruct Hin as [<-|Hin];
              [eexists; split; [|reflexivity]; reflexivity|]).
      contradiction. }
    destruct Ht as [t [Hc Hof]]. exists t.
    assert (Hp : SHPParser.parseShape dv idx len
                 = Throw (newError (SHPParser.notSupportedMessage code))).
    { unfold SHPParser.parseShape. rewrite Hread. cbn [bind].
      rewrite Hof. subst code. now destruct t. }
    split; [assumption|]. split; [|split].
    + rewrite Hp. unfold SHPParser.notSupportedMessage, NotSupportedShapeType_lookup.
      now rewrite Hof.
    + intros ->. now destruct t.
    + intros at_ code'. rewrite Hp. intros H.
      apply (notSupported_ne_unknown code at_ code').
      unfold newError in H. congruence.
  - intros Hn. cbn [In] in Hn.
    unfold SHPParser.parseShape. rewrite Hread. cbn [bind].
    unfold SHPParser.multiTypeOf, NotSupportedShapeType_of.
    cbn [SHP_code find allNotSupported NotSupportedShapeType_code].
    repeat match goal with
    | |- context [?a =? ?b] => destruct (Z.eqb_spec a b); [exfalso; lia|]
    end.
    replace (idx + 4 - 4) with idx by lia. reflexivity.
Qed.

Lemma C5_unsupported_shape_error_witness :
  getInt32 (Layout.int32LE 11) 0 true = Ok 11
  /\ In 11 [11; 13; 15; 18; 21; 23; 25; 28; 31]
  /\ SHPParser.parseShape (Layout.int32LE 11) 0 2
     = Throw (newError "Shape type not supported: 11 (PointZ)").
Proof.
  split; [reflexivity|]. split; [now left|].
  destruct (proj1 (C5_unsupported_shape_error (Layout.int32LE 11) 0 2 11 eq_refl)
              (or_introl eq_refl)) as [t [_ [Hp [Hn _]]]].
  rewrite Hp, (Hn eq_refl). reflexivity.
Defined.

(** C6.  A file that lays [shapes] out in the binary layout decodes, with
    as much fuel as there are shapes, to exactly those shapes in their
    order, each with its shape-type tag; and a turn of the record loop
    leaves the cursor [length * 2] bytes after the start of the payload
    (the 8 bytes of the record header after where the record starts). *)
Theorem C6_encoded_file_roundtrip h shapes url fuel :
  Layout.int32 (Layout.h_version h) ->
  Layout.int32 (Layout.h_shapeType h) ->
  Forall Layout.encodable shapes ->
  Z.of_nat (List.length (Layout.file h shapes)) < 2 ^ 32 ->
  (List.length shapes <= fuel)%nat ->
  (exists f,
      SHPParser.parse fuel (Layout.file h shapes) url = Some (Ok f)
      /\ shp_records f = Layout.expectedFrom 1 shapes
      /\ List.length (shp_records f) = List.length shapes
      /\ map rec_shape (shp_records f) = shapes
      /\ map (fun r => shapeTypeOf (rec_shape r)) (shp_records f)
         = map shapeTypeOf shapes)
  /\ (forall dv idx r idx',
        SHPParser.parseRecord dv idx = Ok (r, idx') ->
        idx' = idx + 4 + 4 + rec_length r * 2).
Proof.
  intros Hv Ht He Hsz Hf. split; [|exact parseRecord_step].
  exists (expectedFile h shapes url).
  split; [now apply parse_file|].
  assert (Hs : forall k, map rec_shape (Layout.expectedFrom k shapes) = shapes).
  { clear. induction shapes as [|s shapes IH]; intros k; [reflexivity|].
    cbn [Layout.expectedFrom map rec_shape]. now rewrite IH. }
  cbn [expectedFile shp_records]. split; [reflexivity|].
  split; [|split].
  - rewrite <- (Hs 1) at 2. now rewrite length_map.
  - apply Hs.
  - rewrite <- (Hs 1) at 2. now rewrite map_map.
Qed.

Lemma C6_encoded_file_roundtrip_witness :
  exists f,
    SHPParser.parse 4 (Layout.file Examples.info Examples.shapes) "a.shp"
    = Some (Ok f)
    /\ map rec_shape (shp_records f) = Examples.shapes
    /\ map (fun r => shapeTypeOf (rec_shape r)) (shp_records f) = [1; 0; 5; 3].
Proof.
  assert (H1 : Layout.int32 (Layout.h_version Examples.info))
    by (unfold Layout.int32; cbn; lia).
  assert (H2 : Layout.int32 (Layout.h_shapeType Examples.info))
    by (unfold Layout.int32; cbn; lia).
  assert (H3 : Forall Layout.encodable Examples.shapes).
  { repeat apply Forall_cons; try apply Forall_nil; cbn [Layout.encodable];
      try exact I.
    - split; [repeat constructor; unfold Layout.int32; lia|exists 6%nat; reflexivity].
    - split; [repeat constructor; unfold Layout.int32; lia|exists 2%nat; reflexivity]. }
  assert (H4 : Z.of_nat (List.length (Layout.file Examples.info Examples.shapes))
               < 2 ^ 32) by (vm_compute; reflexivity).
  assert (H5 : (List.length Examples.shapes <= 4)%nat) by (cbn; lia).
  destruct (proj1 (C6_encoded_file_roundtrip Examples.info Examples.shapes
                     "a.shp" 4%nat H1 H2 H3 H4 H5))
    as [f [Hp [_ [_ [Hs Ht]]]]].
  exists f. split; [exact Hp|]. split; [exact Hs|]. rewrite Ht. reflexivity.
Defined.

End ShpDecoder.

(* ================================================================== *)
(** * toGeojson                                                         *)
(* ================================================================== *)

Section Assembly.

Variable proj4 : jsnum -> jsnum -> res (jsnum * jsnum).

Lemma mapM_ext {A B} (f g : A -> res B) l :
  (forall a, In a l -> f a = g a) -> Preview.mapM f l = Preview.mapM g l.
Proof.
  induction l as [|a l IH]; intros H; [reflexivity|].
  cbn [Preview.mapM]. rewrite (H a (or_introl eq_refl)).
  rewrite IH; [reflexivity|]. intros b Hb. apply H. now right.
Qed.

Lemma mapM_map {A B C} (f : B -> res C) (g : A -> B) l :
  Preview.mapM f (map g l) = Preview.mapM (fun a => f (g a)) l.
Proof.
  induction l as [|a l IH]; [reflexivity|].
  cbn [map Preview.mapM]. now rewrite IH.
Qed.

Lemma mapM_length {A B} (f : A -> res B) l bs :
  Preview.mapM f l = Ok bs -> List.length bs = List.length l.
Proof.
  revert bs. induction l as [|a l IH]; intros bs; cbn [Preview.mapM].
  - intros H. now inversion H.
  - destruct (f a); cbn [bind]; [|discriminate].
    destruct (Preview.mapM f l); cbn [bind]; [|discriminate].
    intros H. inversion H. cbn [List.length]. f_equal. now apply IH.
Qed.

Lemma mapM_nth {A B} (f : A -> res B) l bs i b :
  Preview.mapM f l = Ok bs -> nth_error bs i = Some b ->
  exists a, nth_error l i = Some a /\ f a = Ok b.
Proof.
  revert bs i. induction l as [|a l IH]; intros bs i; cbn [Preview.mapM].
  - intros H. inversion H. now destruct i.
  - destruct (f a) as [b0|] eqn:Ea; cbn [bind]; [|discriminate].
    destruct (Preview.mapM f l) as [bs'|] eqn:El; cbn [bind]; [|discriminate].
    intros H. inversion H; subst. destruct i as [|i]; cbn [nth_error].
    + intros Hb. inversion Hb; subst. now exists a.
    + intros Hb. now apply (IH bs').
Qed.

Lemma pairsOf_skipn {A} a : forall (l : list A),
  skipn a (pairsOf l) = pairsOf (skipn (2 * a) l).
Proof.
  induction a as [|a IH]; intros l; [reflexivity|].
  replace (2 * S a)%nat with (S (S (2 * a))) by lia.
  destruct l as [|x [|y l]]; cbn [pairsOf skipn].
  - reflexivity.
  - reflexivity.
  - apply IH.
Qed.

Lemma pairsOf_length {A} (l : list A) n :
  List.length l = (2 * n)%nat -> List.length (pairsOf l) = n.
Proof.
  revert l. induction n as [|n IH]; intros l H.
  - destruct l; [reflexivity|discriminate].
  - destruct l as [|x [|y l]]; cbn [List.length] in H; try lia.
    cbn [pairsOf List.length]. f_equal. apply IH. lia.
Qed.

(** Reading the pair at [2a] of the array is reading pair [a]. *)
Lemma at_pair (points : list float64) a x y rest :
  skipn a (pairsOf points) = (x, y) :: rest ->
  Preview.at_ points (2 * Z.of_nat a) = Some x
  /\ Preview.at_ points (2 * Z.of_nat a + 1) = Some y.
Proof.
  rewrite pairsOf_skipn. intros H. unfold Preview.at_.
  destruct (Z.ltb_spec (2 * Z.of_nat a) 0); [lia|].
  destruct (Z.ltb_spec (2 * Z.of_nat a + 1) 0); [lia|].
  replace (Z.to_nat (2 * Z.of_nat a)) with (2 * a)%nat by lia.
  replace (Z.to_nat (2 * Z.of_nat a + 1)) with (S (2 * a))%nat by lia.
  replace (2 * a)%nat with (2 * a + 0)%nat at 1 by lia.
  replace (S (2 * a)) with (2 * a + 1)%nat by lia.
  rewrite <- !nth_error_skipn.
  destruct (skipn (2 * a) points) as [|x' [|y' l']]; try discriminate.
  cbn [pairsOf] in H. inversion H; subst. now split.
Qed.

Lemma pushPairs_from (points : list float64) m : forall a,
  (a + m <= List.length (pairsOf points))%nat ->
  Preview.mapM
    (fun j => Preview.TransCoord proj4 (Preview.at_ points j)
                (Preview.at_ points (j + 1)))
    (map (fun k => 2 * Z.of_nat a + 2 * Z.of_nat k) (seq 0 m))
  = Preview.mapM (reproject proj4) (firstn m (skipn a (pairsOf points))).
Proof.
  induction m as [|m IH]; intros a Ha; [reflexivity|].
  destruct (skipn a (pairsOf points)) as [|[x y] rest] eqn:Es.
  { apply (f_equal (@List.length _)) in Es.
    rewrite length_skipn in Es. cbn in Es. lia. }
  destruct (at_pair points a x y rest Es) as [Hx Hy].
  cbn [seq map firstn Preview.mapM].
  replace (2 * Z.of_nat a + 2 * Z.of_nat 0) with (2 * Z.of_nat a) by lia.
  rewrite Hx, Hy. unfold reproject at 1. cbn [fst snd].
  rewrite <- seq_shift, map_map.
  assert (Hrest : rest = skipn (S a) (pairsOf points)).
  { replace (S a) with (1 + a)%nat by lia.
    rewrite <- skipn_skipn, Es. reflexivity. }
  rewrite Hrest, <- IH by lia.
  rewrite !mapM_map.
  rewrite (mapM_ext
             (fun k => Preview.TransCoord proj4
                         (Preview.at_ points (2 * Z.of_nat a + 2 * Z.of_nat (S k)))
                         (Preview.at_ points (2 * Z.of_nat a + 2 * Z.of_nat (S k) + 1)))
             (fun k => Preview.TransCoord proj4
                         (Preview.at_ points (2 * Z.of_nat (S a) + 2 * Z.of_nat k))
                         (Preview.at_ points (2 * Z.of_nat (S a) + 2 * Z.of_nat k + 1)))).
  - reflexivity.
  - intros k _. f_equal; f_equal; lia.
Qed.

(** The loop over [start .. end) of the array is the run of pairs
    [start/2 .. end/2). *)
Lemma pushPairs_between (points : list float64) a b :
  0 <= a -> b <= Z.of_nat (List.length (pairsOf points)) ->
  Preview.pushPairs proj4 points (a * 2) (b * 2)
  = Preview.mapM (reproject proj4) (between a b (pairsOf points)).
Proof.
  intros Ha Hb. unfold Preview.pushPairs, Preview.evenSteps, between.
  replace ((b * 2 - a * 2 + 1) / 2) with (b - a).
  2:{ apply Z.div_unique with (r := 1); lia. }
  replace (Z.to_nat (b - a)) with (Z.to_nat b - Z.to_nat a)%nat by lia.
  destruct (Z.le_gt_cases a b) as [Hab|Hab].
  - rewrite <- (pushPairs_from points _ (Z.to_nat a)) by lia.
    f_equal. apply map_ext. intros k. lia.
  - replace (Z.to_nat b - Z.to_nat a)%nat with 0%nat by lia. reflexivity.
Qed.
End Assembly.

Lemma readPoints_length dv n : forall idx xs,
  SHPParser.readPoints dv idx n = Ok xs -> List.length xs = n.
Proof.
  induction n as [|n IH]; intros idx xs; cbn [SHPParser.readPoints].
  - intros H. now inversion H.
  - destruct (getFloat64 dv idx true); cbn [bind]; [|discriminate].
    destruct (SHPParser.readPoints dv (idx + 8) n) as [vs|] eqn:E;
      cbn [bind]; [|discriminate].
    intros H. inversion H. cbn [List.length]. f_equal. now apply (IH (idx + 8)).
Qed.

(** A decoded multi-part shape holds whole pairs. *)
Lemma parseShape_points_even dv idx len t c :
  SHPParser.parseShape dv idx len = Ok (ShapeMulti t c) ->
  exists n, List.length (points c) = (2 * n)%nat.
Proof.
  unfold SHPParser.parseShape.
  destruct (getInt32 dv idx true) as [shapeType|]; cbn [bind]; [|discriminate].
  destruct (shapeType =? SHP_code NULL); [discriminate|].
  destruct (shapeType =? SHP_code POINT).
  { destruct (getFloat64 dv (idx + 4) true); cbn [bind]; [|discriminate].
    destruct (getFloat64 dv (idx + 4 + 8) true); cbn [bind]; discriminate. }
  destruct (SHPParser.multiTypeOf shapeType) as [ty|].
  2:{ destruct (NotSupportedShapeType_of shapeType); discriminate. }
  repeat match goal with
  | |- bind ?m _ = _ -> _ =>
      let E := fresh "E" in destruct m eqn:E; cbn [bind]; [|discriminate]
  end.
  intros H. inversion H; subst. cbn [points].
  match goal with
  | E : SHPParser.readPoints _ _ _ = Ok _ |- _ => apply readPoints_length in E
  end.
  match goal with
  | E : newTypedArray (?pc * 2) = Ok _ |- _ =>
      unfold newTypedArray in E; destruct (Z.ltb_spec (pc * 2) 0); [discriminate|];
      exists (Z.to_nat pc)
  end.
  lia.
Qed.

Section AssemblyFacts.

Variable proj4 : jsnum -> jsnum -> res (jsnum * jsnum).

Lemma pushPairs_all (pts : list float64) n :
  List.length pts = (2 * n)%nat ->
  Preview.pushPairs proj4 pts 0 (Z.of_nat (List.length pts))
  = Preview.mapM (reproject proj4) (pairsOf pts).
Proof.
  intros Hn. pose proof (pairsOf_length pts n Hn) as Hp.
  replace (Z.of_nat (List.length pts)) with (Z.of_nat n * 2) by lia.
  change 0 with (0 * 2) at 1.
  rewrite pushPairs_between by lia.
  unfold between. cbn [Z.to_nat skipn]. rewrite Nat.sub_0_r.
  rewrite firstn_all2 by lia. reflexivity.
Qed.

End AssemblyFacts.

Lemma combine_seq_nth {A} (l : list A) : forall s i j a,
  nth_error (combine (seq s (List.length l)) l) i = Some (j, a) ->
  j = (s + i)%nat /\ nth_error l i = Some a.
Proof.
  induction l as [|x l IH]; intros s i j a; cbn [List.length seq combine].
  - now destruct i.
  - destruct i as [|i]; cbn [nth_error].
    + intros H. inversion H; subst. split; [lia|reflexivity].
    + intros H. apply IH in H. destruct H as [-> H]. split; [lia|assumption].
Qed.

Lemma mapM_isOk {A B} (f : A -> res B) l :
  (forall a, In a l -> isOk (f a) = true) -> isOk (Preview.mapM f l) = true.
Proof.
  induction l as [|a l IH]; intros H; [reflexivity|].
  cbn [Preview.mapM]. pose proof (H a (or_introl eq_refl)) as Ha.
  destruct (f a); [|discriminate]. cbn [bind].
  assert (Hl : isOk (Preview.mapM f l) = true) by (apply IH; intros; apply H; now right).
  destruct (Preview.mapM f l); [reflexivity|discriminate].
Qed.

Lemma mapM_isOk_ext {A B C} (f : A -> res B) (g : A -> res C) l :
  (forall a, In a l -> isOk (f a) = isOk (g a)) ->
  isOk (Preview.mapM f l) = isOk (Preview.mapM g l).
Proof.
  induction l as [|a l IH]; intros H; [reflexivity|].
  cbn [Preview.mapM]. pose proof (H a (or_introl eq_refl)) as Ha.
  assert (Hl : isOk (Preview.mapM f l) = isOk (Preview.mapM g l))
    by (apply IH; intros; apply H; now right).
  destruct (f a), (g a); try discriminate; cbn [bind isOk]; [|reflexivity].
  destruct (Preview.mapM f l), (Preview.mapM g l); try discriminate; reflexivity.
Qed.

(** What [toGeojson] returns, unfolded once. *)
Lemma toGeojson_Ok proj4 shp dbf fc :
  Preview.toGeojson proj4 shp dbf = Ok fc ->
  exists lo hi,
    Preview.TransCoord proj4 (Some (shp_minX shp)) (Some (shp_minY shp)) = Ok lo
    /\ Preview.TransCoord proj4 (Some (shp_maxX shp)) (Some (shp_maxY shp)) = Ok hi
    /\ bbox fc = [fst lo; snd lo; fst hi; snd hi]
    /\ Preview.mapM (Preview.featureOf proj4 dbf)
         (combine (seq 0 (List.length (shp_records shp))) (shp_records shp))
       = Ok (features fc).
Proof.
  unfold Preview.toGeojson.
  destruct (Preview.TransCoord proj4 (Some (shp_minX shp)) (Some (shp_minY shp)))
    as [lo|]; cbn [bind]; [|discriminate].
  destruct (Preview.TransCoord proj4 (Some (shp_maxX shp)) (Some (shp_maxY shp)))
    as [hi|]; cbn [bind]; [|discriminate].
  destruct (Preview.mapM _ _) as [fs|]; cbn [bind]; [|discriminate].
  intros H. inversion H; subst. cbn [bbox features]. now exists lo, hi.
Qed.

Lemma toGeojson_feature proj4 shp dbf fc i f :
  Preview.toGeojson proj4 shp dbf = Ok fc ->
  nth_error (features fc) i = Some f ->
  exists r, nth_error (shp_records shp) i = Some r
            /\ Preview.geometryOf proj4 (rec_shape r) = Ok (geometry f)
            /\ properties f = nth_error (records dbf) i.
Proof.
  intros H Hf. destruct (toGeojson_Ok _ _ _ _ H) as [lo [hi [_ [_ [_ Hm]]]]].
  destruct (mapM_nth _ _ _ _ _ Hm Hf) as [[j r] [Hjr Hfeat]].
  apply combine_seq_nth in Hjr. destruct Hjr as [-> Hr].
  exists r. split; [assumption|].
  unfold Preview.featureOf in Hfeat.
  destruct (Preview.geometryOf proj4 (rec_shape r)) as [g|]; cbn [bind] in Hfeat;
    [|discriminate].
  inversion Hfeat; subst. cbn [geometry properties]. now split.
Qed.

Lemma TransCoord_isOk proj4 x y :
  isOk (Preview.TransCoord proj4 x y) = isOk (proj4 x y).
Proof.
  unfold Preview.TransCoord. destruct (proj4 x y) as [[lon lat]|]; reflexivity.
Qed.

Lemma geometryOf_isOk proj4 shape :
  (forall x y, isOk (proj4 x y) = true) ->
  shape <> ShapeNull ->
  isOk (Preview.geometryOf proj4 shape) = true.
Proof.
  intros Hp Hs.
  assert (Hpush : forall pts a b, isOk (Preview.pushPairs proj4 pts a b) = true).
  { intros. apply mapM_isOk. intros j _. now rewrite TransCoord_isOk. }
  destruct shape as [|x y|t c]; [contradiction| |]; cbn [Preview.geometryOf].
  - pose proof (Hp (Some x) (Some y)) as H. rewrite <- TransCoord_isOk in H.
    destruct (Preview.TransCoord proj4 (Some x) (Some y)); [reflexivity|discriminate].
  - destruct t.
    + specialize (Hpush (points c) 0 (Z.of_nat (List.length (points c)))).
      destruct (Preview.pushPairs _ _ _ _); [reflexivity|discriminate].
    + assert (Hr : isOk (Preview.ringsOf proj4 (points c) (parts c)) = true).
      { induction (parts c) as [|v rest IH]; [reflexivity|].
        cbn [Preview.ringsOf].
        specialize (Hpush (points c) (v * 2)
                      (Preview.ringEnd (hd_error rest) (points c))).
        destruct (Preview.pushPairs _ _ _ _); [|discriminate]. cbn [bind].
        destruct (Preview.ringsOf proj4 (points c) rest); [reflexivity|discriminate]. }
      destruct (Preview.ringsOf _ _ _); [reflexivity|discriminate].
    + specialize (Hpush (points c) 0 (Z.of_nat (List.length (points c)))).
      destruct (Preview.pushPairs _ _ _ _); [reflexivity|discriminate].
Qed.

Lemma featureOf_isOk proj4 dbf ir :
  isOk (Preview.featureOf proj4 dbf ir)
  = isOk (Preview.geometryOf proj4 (rec_shape (snd ir))).
Proof.
  destruct ir as [i r]. unfold Preview.featureOf. cbn [snd].
  destruct (Preview.geometryOf proj4 (rec_shape r)); reflexivity.
Qed.

(** C10.  [toGeojson] never fails on account of the attribute table:
    whether it returns does not depend on [dbf] at all, and it does return
    when the projection does and no shape is a Null shape.  What it
    returns has one feature per shape record, in order; feature [i] holds
    the geometry of shape [i] and [dbf.records[i]], which is [undefined]
    from the end of the attribute array on. *)
Theorem C10_more_shapes_than_attributes proj4 shp dbf :
  (forall dbf', isOk (Preview.toGeojson proj4 shp dbf)
                = isOk (Preview.toGeojson proj4 shp dbf'))
  /\ ((forall x y, isOk (proj4 x y) = true) ->
      Forall (fun r => rec_shape r <> ShapeNull) (shp_records shp) ->
      isOk (Preview.toGeojson proj4 shp dbf) = true)
  /\ (forall fc,
        Preview.toGeojson proj4 shp dbf = Ok fc ->
        List.length (features fc) = List.length (shp_records shp)
        /\ forall i f,
             nth_error (features fc) i = Some f ->
             properties f = nth_error (records dbf) i
             /\ ((List.length (records dbf) <= i)%nat -> properties f = None)
             /\ exists r, nth_error (shp_records shp) i = Some r
                          /\ Preview.geometryOf proj4 (rec_shape r)
                             = Ok (geometry f)).
Proof.
  split; [|split].
  - intros dbf'. unfold Preview.toGeojson.
    destruct (Preview.TransCoord proj4 (Some (shp_minX shp)) (Some (shp_minY shp)));
      cbn [bind]; [|reflexivity].
    destruct (Preview.TransCoord proj4 (Some (shp_maxX shp)) (Some (shp_maxY shp)));
      cbn [bind]; [|reflexivity].
    pose proof (mapM_isOk_ext (Preview.featureOf proj4 dbf)
                  (Preview.featureOf proj4 dbf')
                  (combine (seq 0 (List.length (shp_records shp))) (shp_records shp)))
      as H.
    destruct (Preview.mapM (Preview.featureOf proj4 dbf) _),
             (Preview.mapM (Preview.featureOf proj4 dbf') _);
      cbn [bind isOk] in *; try reflexivity;
      (rewrite H; [reflexivity|]) || (rewrite <- H; [reflexivity|]);
      intros ir _; now rewrite !featureOf_isOk.
  - intros Hp Hs. unfold Preview.toGeojson.
    pose proof (Hp (Some (shp_minX shp)) (Some (shp_minY shp))) as Hlo.
    pose proof (Hp (Some (shp_maxX shp)) (Some (shp_maxY shp))) as Hhi.
    rewrite <- TransCoord_isOk in Hlo, Hhi.
    destruct (Preview.TransCoord proj4 (Some (shp_minX shp)) (Some (shp_minY shp)));
      [|discriminate].
    destruct (Preview.TransCoord proj4 (Some (shp_maxX shp)) (Some (shp_maxY shp)));
      [|discriminate].
    cbn [bind].
    assert (Hm : isOk (Preview.mapM (Preview.featureOf proj4 dbf)
                         (combine (seq 0 (List.length (shp_records shp)))
                                  (shp_records shp))) = true).
    { apply mapM_isOk. intros [i r] Hin. rewrite featureOf_isOk. cbn [snd].
      apply geometryOf_isOk; [assumption|].
      apply in_combine_r in Hin. rewrite Forall_forall in Hs. now apply Hs. }
    destruct (Preview.mapM _ _); [reflexivity|discriminate].
  - intros fc H. split.
    + destruct (toGeojson_Ok _ _ _ _ H) as [lo [hi [_ [_ [_ Hm]]]]].
      apply mapM_length in Hm. rewrite Hm, length_combine, length_seq. lia.
    + intros i f Hf.
      destruct (toGeojson_feature _ _ _ _ _ _ H Hf) as [r [Hr [Hg Hp]]].
      split; [assumption|]. split; [|now exists r].
      intros Hi. rewrite Hp. now apply nth_error_None.
Qed.

Lemma C10_more_shapes_than_attributes_witness :
  Preview.toGeojson Preview.identity Examples.shp Examples.dbf
  = Ok Examples.collection
  /\ (List.length (records Examples.dbf) < List.length (shp_records Examples.shp))%nat
  /\ List.length (features Examples.collection)
     = List.length (shp_records Examples.shp)
  /\ option_map properties (nth_error (features Examples.collection) 1)
     = Some None.
Proof.
  assert (H : Preview.toGeojson Preview.identity Examples.shp Examples.dbf
              = Ok Examples.collection) by (vm_compute; reflexivity).
  split; [exact H|]. split; [cbn; lia|].
  destruct (proj2 (proj2 (C10_more_shapes_than_attributes
                            Preview.identity Examples.shp Examples.dbf))
              Examples.collection H) as [Hlen _].
  split; [exact Hlen|reflexivity].
Defined.

(* ================================================================== *)
(** * DBFParser                                                         *)
(* ================================================================== *)

Lemma widthAt_pos offset text z : 1 <= offset -> 1 <= DBFParser.widthAt offset text z.
Proof.
  intros H. unfold DBFParser.widthAt.
  destruct (encodeURIComponent (charAt text z)) as [enc|]; [|lia].
  destruct (matchPercent enc) as [m|]; [|lia].
  destruct (1 <? List.length m)%nat; lia.
Qed.

Lemma walkFrom_total offset text limit fuel : forall z count,
  1 <= offset ->
  limit - count <= Z.of_nat fuel ->
  exists z', DBFParser.walkFrom fuel offset text limit z count = Some z'.
Proof.
  induction fuel as [|fuel IH]; intros z count Ho Hf; cbn [DBFParser.walkFrom];
    destruct (Z.ltb_spec count limit); eauto; try lia.
  apply IH; [assumption|].
  pose proof (widthAt_pos offset text z Ho). lia.
Qed.

Lemma walk_total offset text limit :
  1 <= offset -> exists z, DBFParser.walk offset text limit = Some z.
Proof.
  intros Ho. apply walkFrom_total; [assumption|lia].
Qed.

(** Past the end of the text every character counts for one. *)
Lemma widthAt_nil offset z : DBFParser.widthAt offset [] z = 1.
Proof.
  unfold DBFParser.widthAt, charAt.
  destruct (z <? 0); [reflexivity|].
  now destruct (Z.to_nat z).
Qed.

Lemma walkFrom_nil offset limit fuel : forall z count,
  limit - count <= Z.of_nat fuel ->
  DBFParser.walkFrom fuel offset [] limit z count
  = Some (z + Z.max 0 (limit - count)).
Proof.
  induction fuel as [|fuel IH]; intros z count Hf; cbn [DBFParser.walkFrom];
    destruct (Z.ltb_spec count limit); try (f_equal; lia).
  rewrite widthAt_nil, IH by lia. f_equal. lia.
Qed.

Lemma walk_nil offset limit :
  DBFParser.walk offset [] limit = Some (Z.max 0 limit).
Proof.
  unfold DBFParser.walk. rewrite walkFrom_nil by lia. f_equal. lia.
Qed.

(** The name loop stops, and only on the empty text. *)
Lemma fieldNames_total offset fuel : forall responseHeader charString,
  1 <= offset ->
  (List.length responseHeader <= fuel)%nat ->
  exists names,
    DBFParser.fieldNames fuel offset responseHeader charString = Some (names, []).
Proof.
  induction fuel as [|fuel IH]; intros h cs Ho Hf; cbn [DBFParser.fieldNames];
    unfold strlen.
  - destruct h; [|cbn [List.length] in Hf; lia]. cbn. eauto.
  - destruct h as [|c h]; [cbn; eauto|].
    destruct (Z.ltb_spec 0 (Z.of_nat (List.length (c :: h))));
      [|cbn [List.length] in *; lia].
    destruct (walk_total offset (c :: h) 10 Ho) as [z ->].
    apply IH; [assumption|].
    unfold sliceFrom. rewrite length_skipn. cbn [List.length] in *. lia.
Qed.

Lemma parseFields_total dv fuel : forall idx charString nameIndex fields,
  (0 < fuel)%nat ->
  Z.of_nat (List.length dv) <= idx + 32 * Z.of_nat fuel ->
  0 <= idx ->
  exists r, DBFParser.parseFields fuel dv idx charString nameIndex fields = Some r.
Proof.
  induction fuel as [|fuel IH]; intros idx cs ni fs Hpos Hf Hi; [lia|].
  cbn [DBFParser.parseFields].
  destruct (DBFParser.parseField dv idx (nth_error cs ni)); [|eauto].
  unfold getUint8, bytesFrom.
  destruct (Z.ltb_spec (idx + 32) 0); [lia|].
  destruct (skipn (Z.to_nat (idx + 32)) dv) as [|b rest] eqn:E; [eauto|].
  destruct (u8 b =? 13); [eauto|].
  assert (Hlt : (Z.to_nat (idx + 32) < List.length dv)%nat).
  { destruct (Nat.lt_ge_cases (Z.to_nat (idx + 32)) (List.length dv)); [assumption|].
    rewrite skipn_all2 in E by assumption. discriminate. }
  apply IH; lia.
Qed.

Lemma parseRecordFields_some offset fields : forall responseHeader text record,
  1 <= offset ->
  exists r, DBFParser.parseRecordFields offset responseHeader fields text record
            = Some r.
Proof.
  induction fields as [|f fields IH]; intros h text record Ho;
    cbn [DBFParser.parseRecordFields]; [eauto|].
  destruct (walk_total offset h (fieldLength f) Ho) as [z ->].
  now apply IH.
Qed.

Lemma parseRecords_some offset n : forall responseHeader fields text records,
  1 <= offset ->
  exists rs, DBFParser.parseRecords n offset responseHeader fields text records
             = Some rs.
Proof.
  induction n as [|n IH]; intros h fields text records Ho;
    cbn [DBFParser.parseRecords]; [eauto|].
  destruct (parseRecordFields_some offset fields h (sliceFrom text 1) [] Ho)
    as [[record text'] ->].
  now apply IH.
Qed.

Lemma parseRecords_length offset n : forall responseHeader fields text records rs,
  DBFParser.parseRecords n offset responseHeader fields text records = Some rs ->
  List.length rs = (List.length records + n)%nat.
Proof.
  induction n as [|n IH]; intros h fields text records rs;
    cbn [DBFParser.parseRecords].
  - intros H. inversion H. lia.
  - destruct (DBFParser.parseRecordFields offset h fields (sliceFrom text 1) [])
      as [[record text']|]; [|discriminate].
    intros H. apply IH in H. rewrite H, length_app. cbn [List.length]. lia.
Qed.

Lemma responseHeaderOf_offset response offset :
  1 <= offset -> 1 <= snd (DBFParser.responseHeaderOf response offset).
Proof.
  intros H. unfold DBFParser.responseHeaderOf.
  destruct (2 <? List.length (split 13 response))%nat; cbn [snd]; lia.
Qed.

(** [parse] always comes to an end. *)
Lemma parse_total arrayBuffer src response encoding :
  exists r, DBFParser.parse arrayBuffer src response encoding = Some r.
Proof.
  unfold DBFParser.parse.
  destruct (DBFParser.parseHeader arrayBuffer src) as [dbf|]; [|eauto].
  set (offset0 := if containsBig5 encoding then 2 else 3).
  assert (H0 : 1 <= offset0) by (subst offset0; destruct (containsBig5 encoding); lia).
  pose proof (responseHeaderOf_offset response offset0 H0) as Ho.
  destruct (DBFParser.responseHeaderOf response offset0) as [h offset].
  cbn [snd] in Ho.
  destruct (fieldNames_total offset (List.length h) h [] Ho (Nat.le_refl _))
    as [names ->].
  destruct (parseFields_total arrayBuffer (S (List.length arrayBuffer)) 32 names 0%nat [])
    as [r ->]; [lia|lia|lia|].
  destruct r as [[fields idx]|]; [|eauto].
  destruct (parseRecords_some offset (Z.to_nat (numberOfRecords dbf)) [] fields
              (last (split 13 response) []) [] Ho) as [rs ->].
  eauto.
Qed.

Lemma parseHeader_numberOfRecords dv src dbf :
  DBFParser.parseHeader dv src = Ok dbf ->
  getInt32 dv 4 true = Ok (numberOfRecords dbf).
Proof.
  unfold DBFParser.parseHeader. cbv zeta.
  destruct (getInt8 dv 0); cbn [bind]; [|discriminate].
  destruct (getUint8 dv (0 + 1)); cbn [bind]; [|discriminate].
  destruct (getUint8 dv (0 + 1 + 1)); cbn [bind]; [|discriminate].
  destruct (getUint8 dv (0 + 1 + 1 + 1)); cbn [bind]; [|discriminate].
  change (0 + 1 + 1 + 1 + 1) with 4.
  destruct (getInt32 dv 4 true) as [n|]; cbn [bind]; [|discriminate].
  repeat match goal with
  | |- bind ?m _ = _ -> _ => destruct m; cbn [bind]; [|discriminate]
  end.
  intros H. inversion H. reflexivity.
Qed.

(** C9.  [DBFParser.parse] always comes to an answer, and when the answer
    is a file, the file has as many records as the count read from bytes
    4 to 7 of the header says, whatever the decoded text is (the count is
    read as a signed integer; a negative one gives no record). *)
Theorem C9_record_count arrayBuffer src response encoding :
  (exists r, DBFParser.parse arrayBuffer src response encoding = Some r)
  /\ forall dbf,
       DBFParser.parse arrayBuffer src response encoding = Some (Ok dbf) ->
       getInt32 arrayBuffer 4 true = Ok (numberOfRecords dbf)
       /\ List.length (records dbf) = Z.to_nat (numberOfRecords dbf)
       /\ (0 <= numberOfRecords dbf ->
           Z.of_nat (List.length (records dbf)) = numberOfRecords dbf).
Proof.
  split; [apply parse_total|].
  intros dbf. unfold DBFParser.parse.
  destruct (DBFParser.parseHeader arrayBuffer src) as [d|] eqn:Eh; [|discriminate].
  destruct (DBFParser.responseHeaderOf response _) as [h offset].
  destruct (DBFParser.fieldNames _ _ _ _) as [[names h']|]; [|discriminate].
  destruct (DBFParser.parseFields _ _ _ _ _ _) as [[[fields idx]|]|]; try discriminate.
  destruct (DBFParser.parseRecords _ _ _ _ _ _) as [rs|] eqn:Er; [|discriminate].
  intros H. inversion H; subst dbf. cbn [records numberOfRecords DBFParser.setFields].
  apply parseRecords_length in Er. cbn [List.length] in Er.
  split; [now apply parseHeader_numberOfRecords with src|].
  split; [exact Er|]. intros Hn. rewrite Er. lia.
Qed.

Lemma C9_record_count_witness :
  exists d,
    DBFParser.parse Examples.dbf1 "a.dbf" Examples.text1 (ofString "utf-8")
    = Some (Ok d)
    /\ 0 <= numberOfRecords d
    /\ Z.of_nat (List.length (records d)) = numberOfRecords d.
Proof.
  eexists. split; [vm_compute; reflexivity|].
  split; [cbn; lia|].
  refine (proj2 (proj2 (proj2 (C9_record_count Examples.dbf1 "a.dbf"
            Examples.text1 (ofString "utf-8")) _ _)) _);
    [vm_compute; reflexivity|cbn; lia].
Defined.

Lemma parseRecordFields_fixed offset fields : forall text record,
  DBFParser.parseRecordFields offset [] fields text record
  = Some (fixedWidthFields fields text record).
Proof.
  induction fields as [|f fields IH]; intros text record;
    cbn [DBFParser.parseRecordFields fixedWidthFields]; [reflexivity|].
  rewrite walk_nil. apply IH.
Qed.

Lemma parseRecords_fixed offset n : forall fields text records,
  DBFParser.parseRecords n offset [] fields text records
  = Some (fixedWidthRecords n fields text records).
Proof.
  induction n as [|n IH]; intros fields text records;
    cbn [DBFParser.parseRecords fixedWidthRecords]; [reflexivity|].
  rewrite parseRecordFields_fixed.
  destruct (fixedWidthFields fields (sliceFrom text 1) []) as [record text'].
  apply IH.
Qed.

(** By the time the records are read [responseHeader] is empty, so the
    width walk never looks at a character of the record: the records of a
    decoded file are the fixed-width ones. *)
Lemma parse_records_fixed_width arrayBuffer src response encoding dbf :
  DBFParser.parse arrayBuffer src response encoding = Some (Ok dbf) ->
  records dbf
  = fixedWidthRecords (Z.to_nat (numberOfRecords dbf)) (fields dbf)
      (last (split 13 response) []) [].
Proof.
  unfold DBFParser.parse.
  destruct (DBFParser.parseHeader arrayBuffer src) as [d|]; [|discriminate].
  set (offset0 := if containsBig5 encoding then 2 else 3).
  assert (H0 : 1 <= offset0) by (subst offset0; destruct (containsBig5 encoding); lia).
  pose proof (responseHeaderOf_offset response offset0 H0) as Ho.
  destruct (DBFParser.responseHeaderOf response offset0) as [h offset].
  cbn [snd] in Ho.
  destruct (fieldNames_total offset (List.length h) h [] Ho (Nat.le_refl _))
    as [names ->].
  destruct (DBFParser.parseFields _ _ _ _ _ _) as [[[fs idx]|]|]; try discriminate.
  rewrite parseRecords_fixed.
  intros H. inversion H; subst dbf. reflexivity.
Qed.

Lemma fieldNames_fixed offset fuel : forall responseHeader charString names rest,
  DBFParser.fieldNames fuel offset responseHeader charString = Some (names, rest) ->
  names = charString ++ fixedWidthNames fuel responseHeader.
Proof.
  induction fuel as [|fuel IH]; intros h cs names rest;
    cbn [DBFParser.fieldNames fixedWidthNames]; unfold strlen.
  - destruct h; cbn; [|discriminate].
    intros H. inversion H. now rewrite app_nil_r.
  - destruct h as [|c h].
    + cbn. intros H. inversion H. now rewrite app_nil_r.
    + destruct (Z.ltb_spec 0 (Z.of_nat (List.length (c :: h)))) as [Hlt|Hge];
        [|cbn [List.length] in *; lia].
      destruct (DBFParser.walk offset (c :: h) 10); [|discriminate].
      intros H. apply IH in H. rewrite H, <- app_assoc. reflexivity.
Qed.

(** C1.  On the table [Examples.dbf1] (field A of 3 bytes holding
    e-acute and 1, field B of 2 bytes holding ab) the decoder, whose walk
    runs over the exhausted header text, gives A three characters and B
    what is left; the walk over the text of the record, as described,
    gives A two characters and B two. *)
Theorem C1_record_walk_measures_header :
  exists d,
    DBFParser.parse Examples.dbf1 "a.dbf" Examples.text1 (ofString "utf-8")
    = Some (Ok d)
    /\ records d = [[([65], VString [233; 49; 97]); ([66], VString [98])]]
    /\ Described.recordFields 2 (fields d) [233; 49; 97; 98] []
       = Some ([([65], VString [233; 49]); ([66], VString [97; 98])], []).
Proof.
  eexists. split; [vm_compute; reflexivity|]. split; vm_compute; reflexivity.
Qed.

(** C2.  On the table [Examples.dbf2] (one field, named by two e-acute)
    the walk over the header text stops after 8 characters, which cover
    the 10 bytes of the name; the decoder takes 10 characters all the
    same, and the name ends with the type character [C] of the
    descriptor. *)
Theorem C2_field_name_takes_ten_characters :
  exists d,
    DBFParser.parse Examples.dbf2 "a.dbf" Examples.text2 (ofString "utf-8")
    = Some (Ok d)
    /\ map name (fields d) = [Some [233; 233; 67]]
    /\ DBFParser.walk 2 (sliceFrom (hd [] (split 13 Examples.text2)) 32) 10 = Some 8
    /\ Described.fieldName 2 (sliceFrom (hd [] (split 13 Examples.text2)) 32)
       = Some [233; 233].
Proof.
  eexists. split; [vm_compute; reflexivity|]. repeat split; vm_compute; reflexivity.
Qed.

(* ================================================================== *)
(** * Further properties: the decoders, the assembly and the loaders    *)
(* ================================================================== *)

(** Take the read at the head of [H] to its two cases. *)
Ltac head_read H :=
  match type of H with
  | bind (getInt32 ?dv ?i ?le) _ = _ =>
      let E := fresh "E" in
      destruct (getInt32 dv i le) eqn:E; cbn [bind] in H
  | bind (getFloat64 ?dv ?i ?le) _ = _ =>
      let E := fresh "E" in
      destruct (getFloat64 dv i le) eqn:E; cbn [bind] in H
  | bind (getUint8 ?dv ?i) _ = _ =>
      let E := fresh "E" in
      destruct (getUint8 dv i) eqn:E; cbn [bind] in H
  end.

(** ** Reads and the bounds of the buffer *)

Lemma bytesFrom_length dv i :
  0 <= i ->
  Z.of_nat (List.length (bytesFrom dv i)) = Z.max 0 (Z.of_nat (List.length dv) - i).
Proof.
  intros Hi. unfold bytesFrom. destruct (Z.ltb_spec i 0); [lia|].
  rewrite length_skipn. lia.
Qed.

Lemma bytesFrom_neg dv i : i < 0 -> bytesFrom dv i = [].
Proof. intros Hi. unfold bytesFrom. destruct (Z.ltb_spec i 0); [reflexivity|lia]. Qed.

Lemma bytesFrom_short dv i k :
  ~ inBounds dv i k -> 0 < k -> (List.length (bytesFrom dv i) < Z.to_nat k)%nat.
Proof.
  unfold inBounds. intros H Hk.
  destruct (Z.ltb_spec i 0) as [Hi|Hi].
  - rewrite bytesFrom_neg by assumption. cbn. lia.
  - pose proof (bytesFrom_length dv i Hi). lia.
Qed.

Lemma bytesFrom_long dv i k :
  inBounds dv i k -> (Z.to_nat k <= List.length (bytesFrom dv i))%nat.
Proof.
  unfold inBounds. intros [Hi Hk].
  pose proof (bytesFrom_length dv i Hi). lia.
Qed.

Lemma getInt32_Ok dv i le v : getInt32 dv i le = Ok v -> inBounds dv i 4.
Proof.
  unfold getInt32. intros H.
  destruct (Z.ltb_spec i 0) as [Hi|Hi].
  { rewrite bytesFrom_neg in H by assumption. discriminate. }
  pose proof (bytesFrom_length dv i Hi) as HL.
  destruct (bytesFrom dv i) as [|b0 [|b1 [|b2 [|b3 l]]]]; try discriminate.
  cbn [List.length] in HL. unfold inBounds. lia.
Qed.

Lemma getInt32_Throw dv i le e :
  getInt32 dv i le = Throw e -> e = outOfBounds /\ ~ inBounds dv i 4.
Proof.
  unfold getInt32. intros H. split.
  - destruct (bytesFrom dv i) as [|b0 [|b1 [|b2 [|b3 l]]]]; congruence.
  - intros Hb. apply bytesFrom_long in Hb.
    destruct (bytesFrom dv i) as [|b0 [|b1 [|b2 [|b3 l]]]]; try discriminate;
      cbn in Hb; lia.
Qed.

Lemma getFloat64_Ok dv i le v : getFloat64 dv i le = Ok v -> inBounds dv i 8.
Proof.
  unfold getFloat64. intros H.
  destruct (Z.ltb_spec i 0) as [Hi|Hi].
  { rewrite bytesFrom_neg in H by assumption. discriminate. }
  pose proof (bytesFrom_length dv i Hi) as HL.
  destruct (bytesFrom dv i) as [|b0 [|b1 [|b2 [|b3 [|b4 [|b5 [|b6 [|b7 l]]]]]]]];
    try discriminate.
  cbn [List.length] in HL. unfold inBounds. lia.
Qed.

Lemma getFloat64_Throw dv i le e :
  getFloat64 dv i le = Throw e -> e = outOfBounds /\ ~ inBounds dv i 8.
Proof.
  unfold getFloat64. intros H. split.
  - destruct (bytesFrom dv i) as [|b0 [|b1 [|b2 [|b3 [|b4 [|b5 [|b6 [|b7 l]]]]]]]];
      congruence.
  - intros Hb. apply bytesFrom_long in Hb.
    destruct (bytesFrom dv i) as [|b0 [|b1 [|b2 [|b3 [|b4 [|b5 [|b6 [|b7 l]]]]]]]];
      try discriminate; cbn in Hb; lia.
Qed.

Lemma getUint8_Ok dv i v : getUint8 dv i = Ok v -> inBounds dv i 1 /\ 0 <= v <= 255.
Proof.
  unfold getUint8. intros H.
  destruct (Z.ltb_spec i 0) as [Hi|Hi].
  { rewrite bytesFrom_neg in H by assumption. discriminate. }
  pose proof (bytesFrom_length dv i Hi) as HL.
  destruct (bytesFrom dv i) as [|b0 l]; try discriminate.
  inversion H; subst. cbn [List.length] in HL. unfold inBounds.
  pose proof (Byte.to_N_bounded b0). unfold u8. lia.
Qed.

Lemma getUint8_Throw dv i e :
  getUint8 dv i = Throw e -> e = outOfBounds /\ ~ inBounds dv i 1.
Proof.
  unfold getUint8. intros H. split.
  - destruct (bytesFrom dv i); congruence.
  - intros Hb. apply bytesFrom_long in Hb.
    destruct (bytesFrom dv i); try discriminate; cbn in Hb; lia.
Qed.

Lemma getInt32_total dv i le :
  inBounds dv i 4 -> exists v, getInt32 dv i le = Ok v.
Proof.
  intros Hb. destruct (getInt32 dv i le) as [v|e] eqn:E; [eauto|].
  apply getInt32_Throw in E. tauto.
Qed.

Lemma getFloat64_total dv i le :
  inBounds dv i 8 -> exists v, getFloat64 dv i le = Ok v.
Proof.
  intros Hb. destruct (getFloat64 dv i le) as [v|e] eqn:E; [eauto|].
  apply getFloat64_Throw in E. tauto.
Qed.

(** The header parses exactly when the file code is right and the 100
    bytes are there; what it throws otherwise. *)
Lemma parseHeader_Throw dv url e :
  SHPParser.parseHeader dv url = Throw e ->
  (e = outOfBounds /\ Z.of_nat (List.length dv) < 100)
  \/ (exists c, getInt32 dv 0 false = Ok c /\ c <> 9994
                /\ e = SHPParser.unknownFileCode c).
Proof.
  unfold SHPParser.parseHeader. cbv zeta. intros H.
  head_read H.
  2:{ left. apply getInt32_Throw in E. inversion H; subst.
      destruct E as [-> E]. split; [reflexivity|]. unfold inBounds in E. lia. }
  destruct (Z.eqb_spec a 9994) as [->|Hne]; cbn [negb] in H.
  2:{ right. exists a. inversion H. auto. }
  left.
  repeat (head_read H;
          [|match goal with
            | E : getInt32 _ _ _ = Throw _ |- _ =>
                apply getInt32_Throw in E; destruct E as [-> E];
                inversion H; subst; split;
                [reflexivity|unfold inBounds in E; lia]
            | E : getFloat64 _ _ _ = Throw _ |- _ =>
                apply getFloat64_Throw in E; destruct E as [-> E];
                inversion H; subst; split;
                [reflexivity|unfold inBounds in E; lia]
            end]).
  discriminate.
Qed.

Lemma parseHeader_Ok dv url f :
  SHPParser.parseHeader dv url = Ok f ->
  100 <= Z.of_nat (List.length dv)
  /\ getInt32 dv 0 false = Ok 9994
  /\ getInt32 dv 24 false = Ok (shp_wordLength f)
  /\ shp_byteLength f = shp_wordLength f * 2
  /\ shp_fileCode f = 9994
  /\ shp_records f = [].
Proof.
  unfold SHPParser.parseHeader. cbv zeta. intros H.
  head_read H; [|discriminate].
  destruct (Z.eqb_spec a 9994) as [->|Hne]; cbn [negb] in H; [|discriminate].
  repeat (head_read H; [|discriminate]).
  inversion H; subst. cbn.
  match goal with
  | E : getFloat64 _ (0 + 24 + 4 + 4 + 4 + 56) _ = Ok _ |- _ =>
      apply getFloat64_Ok in E; unfold inBounds in E
  end.
  repeat split; try reflexivity; try lia. assumption.
Qed.

Lemma parseHeader_total dv url :
  getInt32 dv 0 false = Ok 9994 ->
  100 <= Z.of_nat (List.length dv) ->
  exists f, SHPParser.parseHeader dv url = Ok f.
Proof.
  intros Hc Hl.
  destruct (SHPParser.parseHeader dv url) as [f|e] eqn:E; [eauto|].
  apply parseHeader_Throw in E. destruct E as [[_ E]|[c [Hc' [Hne _]]]]; [lia|].
  congruence.
Qed.

(** X1.  A buffer that begins with the file code 9994 but is shorter
    than the 100 bytes of the header makes [parse] throw the RangeError
    of a read outside the buffer.  With 100 bytes or more the header
    decodes: the length in words is the big-endian integer at offset 24
    and [byteLength] is twice that; and when no more than 50 words are
    declared the record loop does not run: [parse] returns the header
    with no record, whatever follows it. *)
Theorem X1_shp_header_bounds dv url :
  getInt32 dv 0 false = Ok 9994 ->
  (Z.of_nat (List.length dv) < 100 ->
   forall fuel, SHPParser.parse fuel dv url = Some (Throw outOfBounds))
  /\ (100 <= Z.of_nat (List.length dv) ->
      exists f, SHPParser.parseHeader dv url = Ok f
                /\ getInt32 dv 24 false = Ok (shp_wordLength f)
                /\ shp_byteLength f = shp_wordLength f * 2
                /\ (shp_wordLength f <= 50 ->
                    forall fuel, SHPParser.parse fuel dv url = Some (Ok f))).
Proof.
  intros Hc. split.
  - intros Hl fuel. unfold SHPParser.parse.
    destruct (SHPParser.parseHeader dv url) as [f|e] eqn:E.
    + apply parseHeader_Ok in E. lia.
    + apply parseHeader_Throw in E.
      destruct E as [[-> _]|[c [Hc' [Hne _]]]]; [reflexivity|congruence].
  - intros Hl. destruct (parseHeader_total dv url Hc Hl) as [f Hf].
    exists f. pose proof (parseHeader_Ok _ _ _ Hf) as [_ [_ [Hw [Hb [_ Hr]]]]].
    repeat split; try assumption.
    intros Hw50 fuel. unfold SHPParser.parse. rewrite Hf.
    destruct fuel; cbn [SHPParser.parseRecords];
      (destruct (Z.ltb_spec 100 (shp_byteLength f)); [lia|]);
      destruct f; cbn in *; subst; reflexivity.
Qed.

Lemma X1_shp_header_bounds_witness :
  getInt32 Cases.headerOnly 0 false = Ok 9994
  /\ 100 <= Z.of_nat (List.length Cases.headerOnly)
  /\ exists f, SHPParser.parseHeader Cases.headerOnly "a.shp" = Ok f
               /\ shp_byteLength f = shp_wordLength f * 2.
Proof.
  assert (H : getInt32 Cases.headerOnly 0 false = Ok 9994)
    by (vm_compute; reflexivity).
  assert (H2 : 100 <= Z.of_nat (List.length Cases.headerOnly))
    by (vm_compute; discriminate).
  split; [exact H|]. split; [exact H2|].
  destruct (proj2 (X1_shp_header_bounds Cases.headerOnly "a.shp" H) H2)
    as [f [Hf [_ [Hb _]]]].
  exists f. split; assumption.
Defined.

Lemma readParts_Ok dv n : forall idx ps,
  SHPParser.readParts dv idx n = Ok ps ->
  List.length ps = n
  /\ (n <> 0%nat -> inBounds dv idx (4 * Z.of_nat n)).
Proof.
  induction n as [|n IH]; intros idx ps H; cbn [SHPParser.readParts] in H.
  - inversion H. split; [reflexivity|congruence].
  - head_read H; [|discriminate].
    destruct (SHPParser.readParts dv (idx + 4) n) as [vs|] eqn:Er;
      cbn [bind] in H; [|discriminate].
    inversion H; subst. destruct (IH _ _ Er) as [Hl Hb].
    split; [cbn; now rewrite Hl|]. intros _.
    apply getInt32_Ok in E. unfold inBounds in *.
    destruct n; [lia|]. specialize (Hb ltac:(discriminate)). lia.
Qed.

Lemma readPoints_Ok dv n : forall idx xs,
  SHPParser.readPoints dv idx n = Ok xs ->
  List.length xs = n
  /\ (n <> 0%nat -> inBounds dv idx (8 * Z.of_nat n)).
Proof.
  induction n as [|n IH]; intros idx xs H; cbn [SHPParser.readPoints] in H.
  - inversion H. split; [reflexivity|congruence].
  - head_read H; [|discriminate].
    destruct (SHPParser.readPoints dv (idx + 8) n) as [vs|] eqn:Er;
      cbn [bind] in H; [|discriminate].
    inversion H; subst. destruct (IH _ _ Er) as [Hl Hb].
    split; [cbn; now rewrite Hl|]. intros _.
    apply getFloat64_Ok in E. unfold inBounds in *.
    destruct n; [lia|]. specialize (Hb ltac:(discriminate)). lia.
Qed.

Lemma multiTypeOf_Some code t :
  SHPParser.multiTypeOf code = Some t -> code = SHP_code (MultiSHP_member t).
Proof.
  unfold SHPParser.multiTypeOf.
  destruct (Z.eqb_spec code (SHP_code MULTIPOINT)); [intros H; now inversion H|].
  destruct (Z.eqb_spec code (SHP_code POLYLINE)); [intros H; now inversion H|].
  destruct (Z.eqb_spec code (SHP_code POLYGON)); [intros H; now inversion H|].
  discriminate.
Qed.

(** X2.  A multi-part shape (Polyline, Polygon, MultiPoint) that
    decodes at [idx]: its type code is the little-endian integer at
    [idx]; the counts of parts and of points are the integers at
    [idx + 36] and [idx + 40], neither negative; [parts] has as many
    entries as the first, [points] twice as many as the second; and the
    [44 + 4 * parts + 16 * points] bytes from [idx] on lie inside the
    buffer. *)
Theorem X2_parseShape_multi_counts dv idx len t c :
  SHPParser.parseShape dv idx len = Ok (ShapeMulti t c) ->
  getInt32 dv idx true = Ok (SHP_code (MultiSHP_member t))
  /\ exists partCount pointCount,
       getInt32 dv (idx + 36) true = Ok partCount
       /\ getInt32 dv (idx + 40) true = Ok pointCount
       /\ 0 <= partCount /\ 0 <= pointCount
       /\ Z.of_nat (List.length (parts c)) = partCount
       /\ Z.of_nat (List.length (points c)) = 2 * pointCount
       /\ inBounds dv idx (44 + 4 * partCount + 16 * pointCount).
Proof.
  unfold SHPParser.parseShape. cbv zeta. intros H.
  head_read H; [|discriminate].
  destruct (a =? SHP_code NULL); [discriminate|].
  destruct (a =? SHP_code POINT).
  { repeat (head_read H; [|discriminate]). discriminate. }
  destruct (SHPParser.multiTypeOf a) as [ty|] eqn:Em.
  2:{ destruct (NotSupportedShapeType_of a); discriminate. }
  apply multiTypeOf_Some in Em.
  do 4 (head_read H; [|discriminate]).
  destruct (getInt32 dv (idx + 4 + 32) true) as [partCount|] eqn:Ep;
    cbn [bind] in H; [|discriminate].
  destruct (getInt32 dv (idx + 4 + 36) true) as [pointCount|] eqn:Eq;
    cbn [bind] in H; [|discriminate].
  unfold newTypedArray in H.
  destruct (Z.ltb_spec partCount 0); cbn [bind] in H; [discriminate|].
  destruct (SHPParser.readParts dv (idx + 4 + 40) (Z.to_nat partCount))
    as [ps|] eqn:Eps; cbn [bind] in H; [|discriminate].
  destruct (Z.ltb_spec (pointCount * 2) 0); cbn [bind] in H; [discriminate|].
  destruct (SHPParser.readPoints dv (idx + 4 + 40 + 4 * partCount)
              (Z.to_nat (pointCount * 2))) as [xs|] eqn:Exs;
    cbn [bind] in H; [|discriminate].
  inversion H; subst. cbn [parts points].
  apply readParts_Ok in Eps. destruct Eps as [Lps Bps].
  apply readPoints_Ok in Exs. destruct Exs as [Lxs Bxs].
  split; [reflexivity|]. exists partCount, pointCount.
  replace (idx + 36) with (idx + 4 + 32) by lia.
  replace (idx + 40) with (idx + 4 + 36) by lia.
  repeat split; try assumption; try lia.
  - apply getInt32_Ok in E. unfold inBounds in E. lia.
  - apply getInt32_Ok in Eq. unfold inBounds in *.
    destruct (Nat.eq_dec (Z.to_nat (pointCount * 2)) 0) as [Z0|NZ].
    + destruct (Nat.eq_dec (Z.to_nat partCount) 0) as [Z1|NZ1]; [lia|].
      specialize (Bps NZ1). lia.
    + specialize (Bxs NZ). lia.
Qed.

Lemma X2_parseShape_multi_counts_witness :
  SHPParser.parseShape (Layout.payload Examples.polygon) 0 76
  = Ok (ShapeMulti M_POLYGON Examples.twoRings)
  /\ getInt32 (Layout.payload Examples.polygon) 0 true = Ok 5.
Proof.
  assert (H : SHPParser.parseShape (Layout.payload Examples.polygon) 0 76
              = Ok (ShapeMulti M_POLYGON Examples.twoRings))
    by (vm_compute; reflexivity).
  split; [exact H|].
  exact (proj1 (X2_parseShape_multi_counts (Layout.payload Examples.polygon)
                  0 76 M_POLYGON Examples.twoRings H)).
Defined.

(** ** Appending bytes to a buffer *)

Lemma bytesFrom_app dv extra i :
  0 <= i -> bytesFrom (dv ++ extra) i
            = bytesFrom dv i ++ skipn (Z.to_nat i - List.length dv) extra.
Proof.
  intros Hi. unfold bytesFrom. destruct (Z.ltb_spec i 0); [lia|].
  apply skipn_app.
Qed.

Lemma getInt32_app dv extra i le v :
  getInt32 dv i le = Ok v -> getInt32 (dv ++ extra) i le = Ok v.
Proof.
  intros H. pose proof (getInt32_Ok _ _ _ _ H) as [Hi _].
  revert H. unfold getInt32. rewrite bytesFrom_app by assumption.
  destruct (bytesFrom dv i) as [|b0 [|b1 [|b2 [|b3 l]]]]; try discriminate.
  now cbn [app].
Qed.

Lemma getFloat64_app dv extra i le v :
  getFloat64 dv i le = Ok v -> getFloat64 (dv ++ extra) i le = Ok v.
Proof.
  intros H. pose proof (getFloat64_Ok _ _ _ _ H) as [Hi _].
  revert H. unfold getFloat64. rewrite bytesFrom_app by assumption.
  destruct (bytesFrom dv i) as [|b0 [|b1 [|b2 [|b3 [|b4 [|b5 [|b6 [|b7 l]]]]]]]];
    try discriminate.
  now cbn [app].
Qed.

Lemma readParts_app dv extra n : forall idx ps,
  SHPParser.readParts dv idx n = Ok ps ->
  SHPParser.readParts (dv ++ extra) idx n = Ok ps.
Proof.
  induction n as [|n IH]; intros idx ps H; cbn [SHPParser.readParts] in *;
    [assumption|].
  head_read H; [|discriminate].
  destruct (SHPParser.readParts dv (idx + 4) n) as [vs|] eqn:Er;
    cbn [bind] in H; [|discriminate].
  rewrite (getInt32_app _ _ _ _ _ E). cbn [bind].
  now rewrite (IH _ _ Er).
Qed.

Lemma readPoints_app dv extra n : forall idx xs,
  SHPParser.readPoints dv idx n = Ok xs ->
  SHPParser.readPoints (dv ++ extra) idx n = Ok xs.
Proof.
  induction n as [|n IH]; intros idx xs H; cbn [SHPParser.readPoints] in *;
    [assumption|].
  head_read H; [|discriminate].
  destruct (SHPParser.readPoints dv (idx + 8) n) as [vs|] eqn:Er;
    cbn [bind] in H; [|discriminate].
  rewrite (getFloat64_app _ _ _ _ _ E). cbn [bind].
  now rewrite (IH _ _ Er).
Qed.

Lemma parseShape_app dv extra idx len s :
  SHPParser.parseShape dv idx len = Ok s ->
  SHPParser.parseShape (dv ++ extra) idx len = Ok s.
Proof.
  unfold SHPParser.parseShape. cbv zeta. intros H.
  head_read H; [|discriminate].
  rewrite (getInt32_app _ _ _ _ _ E). cbn [bind].
  destruct (a =? SHP_code NULL); [assumption|].
  destruct (a =? SHP_code POINT).
  { do 2 (head_read H; [|discriminate]).
    rewrite (getFloat64_app _ _ _ _ _ E0), (getFloat64_app _ _ _ _ _ E1).
    assumption. }
  destruct (SHPParser.multiTypeOf a) as [ty|]; [|assumption].
  do 4 (head_read H; [|discriminate]).
  do 2 (head_read H; [|discriminate]).
  rewrite (getFloat64_app _ _ _ _ _ E0), (getFloat64_app _ _ _ _ _ E1),
    (getFloat64_app _ _ _ _ _ E2), (getFloat64_app _ _ _ _ _ E3),
    (getInt32_app _ _ _ _ _ E4), (getInt32_app _ _ _ _ _ E5).
  cbn [bind].
  destruct (newTypedArray a4); cbn [bind] in *; [|assumption].
  destruct (SHPParser.readParts dv _ _) as [ps|] eqn:Eps; cbn [bind] in H;
    [|discriminate].
  rewrite (readParts_app _ _ _ _ _ Eps). cbn [bind].
  destruct (newTypedArray (a5 * 2)); cbn [bind] in *; [|assumption].
  destruct (SHPParser.readPoints dv _ _) as [xs|] eqn:Exs; cbn [bind] in H;
    [|discriminate].
  rewrite (readPoints_app _ _ _ _ _ Exs). assumption.
Qed.

Lemma parseRecord_app dv extra idx r idx' :
  SHPParser.parseRecord dv idx = Ok (r, idx') ->
  SHPParser.parseRecord (dv ++ extra) idx = Ok (r, idx').
Proof.
  unfold SHPParser.parseRecord. cbv zeta. intros H.
  do 2 (head_read H; [|discriminate]).
  rewrite (getInt32_app _ _ _ _ _ E), (getInt32_app _ _ _ _ _ E0). cbn [bind].
  destruct (SHPParser.parseShape dv (idx + 4 + 4) a0) as [s|] eqn:Es;
    cbn [rethrow bind] in H; [|discriminate].
  rewrite (parseShape_app _ _ _ _ _ Es). assumption.
Qed.

Lemma parseRecords_app dv extra bl fuel : forall idx acc rs,
  SHPParser.parseRecords fuel dv bl idx acc = Some (Ok rs) ->
  SHPParser.parseRecords fuel (dv ++ extra) bl idx acc = Some (Ok rs).
Proof.
  induction fuel as [|fuel IH]; intros idx acc rs; cbn [SHPParser.parseRecords];
    destruct (idx <? bl); try assumption; try discriminate; auto.
  destruct (SHPParser.parseRecord dv idx) as [[r idx']|] eqn:Er; [|discriminate].
  rewrite (parseRecord_app _ _ _ _ _ Er). apply IH.
Qed.

Lemma parseHeader_app dv extra url f :
  SHPParser.parseHeader dv url = Ok f ->
  SHPParser.parseHeader (dv ++ extra) url = Ok f.
Proof.
  unfold SHPParser.parseHeader. cbv zeta. intros H.
  head_read H; [|discriminate].
  rewrite (getInt32_app _ _ _ _ _ E). cbn [bind].
  destruct (negb (a =? 9994)); [discriminate|].
  repeat (head_read H; [|discriminate]).
  repeat match goal with
  | E : getInt32 _ _ _ = Ok _ |- _ =>
      rewrite (getInt32_app _ extra _ _ _ E); clear E
  | E : getFloat64 _ _ _ = Ok _ |- _ =>
      rewrite (getFloat64_app _ extra _ _ _ E); clear E
  end.
  assumption.
Qed.

(** X3.  Bytes appended to a buffer that decodes change nothing: when
    [parse] returns a file, it returns the same file for the buffer with
    anything appended.  (This is about bytes after the end of the
    buffer; a record that starts below the length the header declares
    is read to its end, past that length.) *)
Theorem X3_parse_stable_under_append fuel dv extra url f :
  SHPParser.parse fuel dv url = Some (Ok f) ->
  SHPParser.parse fuel (dv ++ extra) url = Some (Ok f).
Proof.
  unfold SHPParser.parse.
  destruct (SHPParser.parseHeader dv url) as [f0|] eqn:Eh; [|discriminate].
  rewrite (parseHeader_app _ _ _ _ Eh).
  destruct (SHPParser.parseRecords fuel dv (shp_byteLength f0) 100 [])
    as [[rs|]|] eqn:Er; try discriminate.
  now rewrite (parseRecords_app _ _ _ _ _ _ _ Er).
Qed.

Lemma X3_parse_stable_under_append_witness :
  SHPParser.parse 4 (Layout.file Examples.info Examples.shapes) "a.shp"
  = Some (Ok (expectedFile Examples.info Examples.shapes "a.shp"))
  /\ SHPParser.parse 4 (Layout.file Examples.info Examples.shapes ++ [x00; x01])
       "a.shp"
     = Some (Ok (expectedFile Examples.info Examples.shapes "a.shp")).
Proof.
  assert (H : SHPParser.parse 4 (Layout.file Examples.info Examples.shapes) "a.shp"
              = Some (Ok (expectedFile Examples.info Examples.shapes "a.shp")))
    by (vm_compute; reflexivity).
  split; [exact H|].
  exact (X3_parse_stable_under_append 4 _ [x00; x01] "a.shp" _ H).
Defined.

Lemma span_app rs rs' : span (rs ++ rs') = span rs + span rs'.
Proof. induction rs as [|r rs IH]; cbn [span app]; lia. Qed.

Lemma parseRecord_next dv idx r idx' :
  SHPParser.parseRecord dv idx = Ok (r, idx') ->
  idx' = idx + span [r].
Proof.
  unfold SHPParser.parseRecord. cbv zeta. intros H.
  do 2 (head_read H; [|discriminate]).
  destruct (SHPParser.parseShape dv (idx + 4 + 4) a0); cbn [rethrow bind] in H;
    [|discriminate].
  inversion H; subst. cbn [span rec_length]. lia.
Qed.

(** The records the loop adds, from [idx] on: each is the record decoded
    where the ones before it end, all of these places are below
    [byteLength], and the place after the last one is not. *)
Lemma parseRecords_Ok dv bl fuel : forall idx acc rs,
  SHPParser.parseRecords fuel dv bl idx acc = Some (Ok rs) ->
  exists new,
    rs = acc ++ new
    /\ bl <= idx + span new
    /\ forall k r,
         nth_error new k = Some r ->
         idx + span (firstn k new) < bl
         /\ SHPParser.parseRecord dv (idx + span (firstn k new))
            = Ok (r, idx + span (firstn (S k) new)).
Proof.
  induction fuel as [|fuel IH]; intros idx acc rs; cbn [SHPParser.parseRecords];
    destruct (Z.ltb_spec idx bl) as [Hlt|Hge]; try discriminate.
  - intros H. inversion H; subst. exists []. rewrite app_nil_r. cbn [span].
    split; [reflexivity|]. split; [lia|]. intros k r Hk. now destruct k.
  - destruct (SHPParser.parseRecord dv idx) as [[r idx']|] eqn:Er; [|discriminate].
    intros H. destruct (IH _ _ _ H) as [new [-> [Hend Hnth]]].
    pose proof (parseRecord_next _ _ _ _ Er) as Hn. cbn [span] in Hn.
    exists (r :: new). rewrite <- app_assoc. split; [reflexivity|].
    split; [cbn [span]; lia|].
    intros k r' Hk. destruct k as [|k]; cbn [nth_error] in Hk.
    + inversion Hk; subst r'. cbn [firstn span]. rewrite Z.add_0_r.
      split; [assumption|]. rewrite Er. do 2 f_equal. lia.
    + destruct (Hnth _ _ Hk) as [Hb Hp]. cbn [firstn span].
      replace (idx + (8 + rec_length r * 2 + span (firstn k new)))
        with (idx' + span (firstn k new)) by lia.
      split; [assumption|]. rewrite Hp. do 2 f_equal.
      destruct new as [|n0 new']; [now destruct k|]. cbn [firstn span]. lia.
  - intros H. inversion H; subst. exists []. rewrite app_nil_r. cbn [span].
    split; [reflexivity|]. split; [lia|]. intros k r Hk. now destruct k.
Qed.

(** X4.  The records of a decoded file lie end to end from offset
    100: record [k] is decoded where the records before it end (8 bytes
    of record header and [length * 2] of payload each), which is below
    [byteLength], and together they reach [byteLength]. *)
Theorem X4_parse_records_tile fuel dv url f :
  SHPParser.parse fuel dv url = Some (Ok f) ->
  shp_byteLength f <= 100 + span (shp_records f)
  /\ forall k r,
       nth_error (shp_records f) k = Some r ->
       100 + span (firstn k (shp_records f)) < shp_byteLength f
       /\ SHPParser.parseRecord dv (100 + span (firstn k (shp_records f)))
          = Ok (r, 100 + span (firstn (S k) (shp_records f))).
Proof.
  unfold SHPParser.parse.
  destruct (SHPParser.parseHeader dv url) as [f0|] eqn:Eh; [|discriminate].
  destruct (SHPParser.parseRecords fuel dv (shp_byteLength f0) 100 [])
    as [[rs|]|] eqn:Er; try discriminate.
  intros H. inversion H; subst f. cbn [shp_records shp_byteLength SHPParser.setRecords].
  destruct (parseRecords_Ok _ _ _ _ _ _ Er) as [new [-> [Hend Hnth]]].
  cbn [app]. split; assumption.
Qed.

Lemma X4_parse_records_tile_witness :
  SHPParser.parse 4 (Layout.file Examples.info Examples.shapes) "a.shp"
  = Some (Ok (expectedFile Examples.info Examples.shapes "a.shp"))
  /\ shp_byteLength (expectedFile Examples.info Examples.shapes "a.shp")
     <= 100 + span (shp_records (expectedFile Examples.info Examples.shapes "a.shp")).
Proof.
  assert (H : SHPParser.parse 4 (Layout.file Examples.info Examples.shapes) "a.shp"
              = Some (Ok (expectedFile Examples.info Examples.shapes "a.shp")))
    by (vm_compute; reflexivity).
  split; [exact H|].
  exact (proj1 (X4_parse_records_tile 4 _ "a.shp" _ H)).
Defined.

(** A record that leaves the cursor where it was, or before, below
    [byteLength]: the loop never stops. *)
Lemma parseRecords_stuck dv bl idx r :
  idx < bl ->
  SHPParser.parseRecord dv idx = Ok (r, idx) ->
  forall fuel acc, SHPParser.parseRecords fuel dv bl idx acc = None.
Proof.
  intros Hlt Hr fuel. induction fuel as [|fuel IH]; intros acc;
    cbn [SHPParser.parseRecords]; destruct (Z.ltb_spec idx bl); try lia;
    [reflexivity|].
  rewrite Hr. apply IH.
Qed.

(** X5.  [parse] does not return on a file whose first record
    gives its content length as -4 words and whose shape decodes: the
    record ends where it began, and the loop reads it again for ever.
    No amount of fuel gives a result. *)
Theorem X5_parse_negative_length_loops dv url f number shape :
  SHPParser.parseHeader dv url = Ok f ->
  100 < shp_byteLength f ->
  getInt32 dv 100 false = Ok number ->
  getInt32 dv 104 false = Ok (-4) ->
  SHPParser.parseShape dv 108 (-4) = Ok shape ->
  forall fuel, SHPParser.parse fuel dv url = None.
Proof.
  intros Hh Hb Hn Hl Hs fuel. unfold SHPParser.parse. rewrite Hh.
  rewrite (parseRecords_stuck dv (shp_byteLength f) 100
             (mkSHPRecord number (-4) shape)); [reflexivity|assumption|].
  unfold SHPParser.parseRecord. cbv zeta.
  change (100 + 4) with 104. change (104 + 4) with 108.
  rewrite Hn. cbn [bind]. rewrite Hl. cbn [bind]. rewrite Hs. reflexivity.
Qed.

Lemma X5_parse_negative_length_loops_witness :
  getInt32 Cases.stuck 104 false = Ok (-4)
  /\ forall fuel, SHPParser.parse fuel Cases.stuck "a.shp" = None.
Proof.
  assert (H : exists f, SHPParser.parseHeader Cases.stuck "a.shp" = Ok f
                        /\ 100 < shp_byteLength f)
    by (eexists; split; vm_compute; reflexivity).
  assert (H1 : getInt32 Cases.stuck 100 false = Ok 1) by (vm_compute; reflexivity).
  assert (H2 : getInt32 Cases.stuck 104 false = Ok (-4)) by (vm_compute; reflexivity).
  assert (H3 : SHPParser.parseShape Cases.stuck 108 (-4) = Ok ShapeNull)
    by (vm_compute; reflexivity).
  split; [exact H2|].
  destruct H as [f [Hf Hb]].
  exact (X5_parse_negative_length_loops Cases.stuck "a.shp" f 1 ShapeNull
           Hf Hb H1 H2 H3).
Defined.

(** ** The errors of [parse] *)

Lemma parseRecord_Throw dv idx e :
  SHPParser.parseRecord dv idx = Throw e ->
  e = outOfBounds
  \/ exists number len e',
       getInt32 dv idx false = Ok number
       /\ getInt32 dv (idx + 4) false = Ok len
       /\ SHPParser.parseShape dv (idx + 8) len = Throw e'
       /\ e = SHPParser.shapeParsingError e' number.
Proof.
  unfold SHPParser.parseRecord. cbv zeta. intros H.
  head_read H.
  2:{ apply getInt32_Throw in E. destruct E as [-> _]. inversion H. auto. }
  head_read H.
  2:{ apply getInt32_Throw in E0. destruct E0 as [-> _]. inversion H. auto. }
  replace (idx + 4 + 4) with (idx + 8) in H by lia.
  destruct (SHPParser.parseShape dv (idx + 8) a0) as [s|e'] eqn:Es;
    cbn [rethrow bind] in H; [discriminate|].
  inversion H; subst. right. exists a, a0, e'. auto.
Qed.

Lemma parseRecords_Throw dv bl fuel : forall idx acc e,
  SHPParser.parseRecords fuel dv bl idx acc = Some (Throw e) ->
  exists idx', SHPParser.parseRecord dv idx' = Throw e.
Proof.
  induction fuel as [|fuel IH]; intros idx acc e; cbn [SHPParser.parseRecords];
    destruct (idx <? bl); try discriminate.
  destruct (SHPParser.parseRecord dv idx) as [[r idx']|e'] eqn:Er.
  - apply IH.
  - intros H. inversion H; subst. eauto.
Qed.

(** X6.  The errors [parse] throws, by the place that throws them: the
    RangeError of a read outside the buffer; [Unknown file code: c] for
    a first integer [c] other than 9994; or
    [Shape parsing error: <message> (record <number>)], a plain [Error]
    that holds the number of a record and the message of what
    [parseShape] threw for it, whatever that was. *)
Theorem X6_parse_errors fuel dv url e :
  SHPParser.parse fuel dv url = Some (Throw e) ->
  e = outOfBounds
  \/ (exists c, getInt32 dv 0 false = Ok c /\ c <> 9994
                /\ e = SHPParser.unknownFileCode c)
  \/ (exists idx number len e',
        getInt32 dv idx false = Ok number
        /\ getInt32 dv (idx + 4) false = Ok len
        /\ SHPParser.parseShape dv (idx + 8) len = Throw e'
        /\ e = newError ("Shape parsing error: " ++ message e' ++ " (record "
                         ++ numToString number ++ ")")).
Proof.
  unfold SHPParser.parse.
  destruct (SHPParser.parseHeader dv url) as [f0|e0] eqn:Eh.
  - destruct (SHPParser.parseRecords fuel dv (shp_byteLength f0) 100 [])
      as [[rs|e1]|] eqn:Er; try discriminate.
    intros H. inversion H; subst e1.
    destruct (parseRecords_Throw _ _ _ _ _ _ Er) as [idx Hr].
    destruct (parseRecord_Throw _ _ _ Hr) as [->|[number [len [e' [H1 [H2 [H3 ->]]]]]]];
      [now left|].
    right. right. exists idx, number, len, e'.
    repeat split; assumption.
  - intros H. inversion H; subst e0.
    destruct (parseHeader_Throw _ _ _ Eh) as [[-> _]|Hc]; [now left|].
    right. now left.
Qed.

Lemma X6_parse_errors_witness :
  SHPParser.parse 1 Inputs.pointZFile "a.shp" = Some (Throw Inputs.pointZError)
  /\ (Inputs.pointZError = outOfBounds \/ errClass Inputs.pointZError = ErrorK).
Proof.
  assert (H : SHPParser.parse 1 Inputs.pointZFile "a.shp"
              = Some (Throw Inputs.pointZError))
    by (vm_compute; reflexivity).
  split; [exact H|].
  destruct (X6_parse_errors 1 _ "a.shp" _ H) as [He|[[c [_ [_ He]]]|He]].
  - left. exact He.
  - right. rewrite He. reflexivity.
  - destruct He as [idx [number [len [e' [_ [_ [_ He]]]]]]].
    right. rewrite He. reflexivity.
Defined.

(** ** The name loop *)

Lemma fieldNames_exact offset fuel responseHeader :
  1 <= offset ->
  (List.length responseHeader <= fuel)%nat ->
  DBFParser.fieldNames fuel offset responseHeader []
  = Some (fixedWidthNames fuel responseHeader, []).
Proof.
  intros Ho Hf.
  destruct (fieldNames_total offset fuel responseHeader [] Ho Hf) as [names Hn].
  rewrite Hn. now rewrite (fieldNames_fixed _ _ _ _ _ _ Hn).
Qed.

Lemma fixedWidthNames_nth fuel : forall h k,
  (List.length h <= fuel)%nat ->
  nth_error (fixedWidthNames fuel h) k
  = if (32 * k <? List.length h)%nat
    then Some (removeNul (sliceTo (skipn (32 * k) h) 10))
    else None.
Proof.
  induction fuel as [|fuel IH]; intros h k Hf.
  - destruct h; [|cbn in Hf; lia]. cbn [fixedWidthNames List.length].
    destruct (Nat.ltb_spec (32 * k) 0); [lia|]. now destruct k.
  - cbn [fixedWidthNames]. destruct h as [|c h].
    { cbn [List.length]. destruct (Nat.ltb_spec (32 * k) 0); [lia|]. now destruct k. }
    destruct k as [|k].
    + cbn [nth_error]. change (32 * 0)%nat with 0%nat. cbn [skipn].
      destruct (Nat.ltb_spec 0 (List.length (c :: h))); [reflexivity|].
      cbn [List.length] in *. lia.
    + cbn [nth_error]. rewrite IH.
      2:{ unfold sliceFrom. rewrite length_skipn. cbn [List.length] in *. lia. }
      unfold sliceFrom. change (Z.to_nat 32) with 32%nat.
      rewrite length_skipn, skipn_skipn.
      replace (32 * k + 32)%nat with (32 * S k)%nat by lia.
      destruct (Nat.ltb_spec (32 * k) (List.length (c :: h) - 32)),
               (Nat.ltb_spec (32 * S k) (List.length (c :: h))); try lia;
        reflexivity.
Qed.

Lemma responseHeaderOf_fst response offset :
  fst (DBFParser.responseHeaderOf response offset) = headerText response.
Proof.
  unfold headerText, DBFParser.responseHeaderOf.
  destruct (2 <? List.length (split 13 response))%nat; reflexivity.
Qed.

(** ** [parse], with its loops replaced by what they come to *)

Lemma parse_unfold arrayBuffer src response encoding :
  DBFParser.parse arrayBuffer src response encoding
  = match DBFParser.parseHeader arrayBuffer src with
    | Throw e => Some (Throw e)
    | Ok dbf =>
        let h := headerText response in
        match DBFParser.parseFields (S (List.length arrayBuffer)) arrayBuffer 32
                (fixedWidthNames (List.length h) h) 0%nat [] with
        | None => None
        | Some (Throw e) => Some (Throw e)
        | Some (Ok (fields, idx)) =>
            Some (Ok (DBFParser.setFields dbf fields (idx + 1)
                        (fixedWidthRecords (Z.to_nat (numberOfRecords dbf))
                           fields (recordText response) [])))
        end
    end.
Proof.
  unfold DBFParser.parse.
  destruct (DBFParser.parseHeader arrayBuffer src) as [dbf|]; [|reflexivity].
  set (offset0 := if containsBig5 encoding then 2 else 3).
  assert (H0 : 1 <= offset0) by (subst offset0; destruct (containsBig5 encoding); lia).
  pose proof (responseHeaderOf_offset response offset0 H0) as Ho.
  pose proof (responseHeaderOf_fst response offset0) as Hh.
  destruct (DBFParser.responseHeaderOf response offset0) as [h offset].
  cbn [fst snd] in Ho, Hh. subst h.
  rewrite fieldNames_exact by (assumption || apply Nat.le_refl).
  cbv zeta.
  destruct (DBFParser.parseFields _ _ _ _ _ _) as [[[fs idx]|]|]; try reflexivity.
  now rewrite parseRecords_fixed.
Qed.

(** X7.  The [encoding] argument of [DBFParser.parse] has no
    effect on what it returns: it only chooses [offset], on which no
    result depends. *)
Theorem X7_dbf_parse_ignores_encoding arrayBuffer src response encoding encoding' :
  DBFParser.parse arrayBuffer src response encoding
  = DBFParser.parse arrayBuffer src response encoding'.
Proof. now rewrite !parse_unfold. Qed.

(** ** The descriptors *)

Lemma parseField_Ok dv idx fieldName f :
  DBFParser.parseField dv idx fieldName = Ok f ->
  name f = fieldName
  /\ (exists c, type f = [c] /\ getUint8 dv (idx + 11) = Ok c)
  /\ getUint8 dv (idx + 16) = Ok (fieldLength f)
  /\ getUint8 dv (idx + 20) = Ok (workAreaId f)
  /\ getUint8 dv (idx + 23) = Ok (setFieldFlag f)
  /\ getUint8 dv (idx + 31) = Ok (indexFieldFlag f)
  /\ 0 <= fieldLength f <= 255.
Proof.
  unfold DBFParser.parseField. cbv zeta. intros H.
  destruct (DBFParser.nameBytes dv idx 10); cbn [bind] in H; [|discriminate].
  replace (idx + 10 + 1) with (idx + 11) in H by lia.
  replace (idx + 11 + 1 + 4) with (idx + 16) in H by lia.
  replace (idx + 16 + 1 + 1 + 2) with (idx + 20) in H by lia.
  replace (idx + 20 + 1 + 2) with (idx + 23) in H by lia.
  replace (idx + 23 + 1 + 7) with (idx + 31) in H by lia.
  do 5 (head_read H; [|discriminate]).
  inversion H; subst. cbn.
  repeat split; try reflexivity; try (apply getUint8_Ok in E0; lia).
  eexists; split; reflexivity.
Qed.

Lemma parseFields_Ok dv charString fuel : forall idx nameIndex acc fs idx',
  DBFParser.parseFields fuel dv idx charString nameIndex acc = Some (Ok (fs, idx')) ->
  exists new,
    fs = acc ++ new
    /\ new <> []
    /\ idx' = idx + 32 * Z.of_nat (List.length new)
    /\ getUint8 dv idx' = Ok 13
    /\ forall k f,
         nth_error new k = Some f ->
         DBFParser.parseField dv (idx + 32 * Z.of_nat k)
           (nth_error charString (nameIndex + k)) = Ok f
         /\ ((S k < List.length new)%nat ->
             getUint8 dv (idx + 32 * Z.of_nat (S k)) <> Ok 13).
Proof.
  induction fuel as [|fuel IH]; intros idx ni acc fs idx';
    cbn [DBFParser.parseFields]; [discriminate|].
  destruct (DBFParser.parseField dv idx (nth_error charString ni)) as [f|] eqn:Ef;
    [|discriminate].
  destruct (getUint8 dv (idx + 32)) as [b|] eqn:Eb; [|discriminate].
  destruct (Z.eqb_spec b 13) as [->|Hne].
  - intros H. inversion H; subst. exists [f].
    split; [reflexivity|]. split; [discriminate|].
    split; [cbn; lia|]. split; [assumption|].
    intros k f' Hk. destruct k as [|[|k]]; cbn in Hk; try discriminate.
    inversion Hk; subst. rewrite Nat.add_0_r.
    replace (idx + 32 * Z.of_nat 0) with idx by lia.
    split; [assumption|]. cbn. lia.
  - intros H. destruct (IH _ _ _ _ _ H) as [new [-> [Hne' [-> [Ht Hnth]]]]].
    exists (f :: new). rewrite <- app_assoc. split; [reflexivity|].
    split; [discriminate|]. split; [cbn [List.length]; lia|].
    split; [assumption|].
    intros k f' Hk. destruct k as [|k]; cbn [nth_error] in Hk.
    + inversion Hk; subst. rewrite Nat.add_0_r.
      replace (idx + 32 * Z.of_nat 0) with idx by lia.
      split; [assumption|]. intros _.
      replace (idx + 32 * Z.of_nat 1) with (idx + 32) by lia. congruence.
    + destruct (Hnth _ _ Hk) as [Hp Hn].
      replace (idx + 32 * Z.of_nat (S k)) with (idx + 32 + 32 * Z.of_nat k) by lia.
      replace (ni + S k)%nat with (S ni + k)%nat by lia.
      split; [assumption|]. intros Hl.
      replace (idx + 32 * Z.of_nat (S (S k)))
        with (idx + 32 + 32 * Z.of_nat (S k)) by lia.
      apply Hn. cbn [List.length] in Hl. lia.
Qed.

(** What [parse] returns, piece by piece. *)
Lemma parse_Ok arrayBuffer src response encoding d :
  DBFParser.parse arrayBuffer src response encoding = Some (Ok d) ->
  exists d0,
    DBFParser.parseHeader arrayBuffer src = Ok d0
    /\ numberOfRecords d = numberOfRecords d0
    /\ DBFParser.parseFields (S (List.length arrayBuffer)) arrayBuffer 32
         (fixedWidthNames (List.length (headerText response)) (headerText response))
         0%nat []
       = Some (Ok (fields d, fieldpos d - 1))
    /\ records d
       = fixedWidthRecords (Z.to_nat (numberOfRecords d)) (fields d)
           (recordText response) [].
Proof.
  rewrite parse_unfold.
  destruct (DBFParser.parseHeader arrayBuffer src) as [d0|]; [|discriminate].
  cbv zeta.
  destruct (DBFParser.parseFields _ _ _ _ _ _) as [[[fs idx]|]|]; try discriminate.
  intros H. inversion H; subst d. exists d0.
  cbn [numberOfRecords fields fieldpos records DBFParser.setFields].
  replace (idx + 1 - 1) with idx by lia. auto.
Qed.

(** X8.  The descriptors of a decoded table.  There is at least
    one; they are the 32-byte blocks from offset 32 up to the first
    block boundary after the first block that holds the terminator 0x0D,
    and [fieldpos] is the offset after the terminator.  Field [k] has
    the type, length, work area id and flags of the bytes 11, 16, 20, 23
    and 31 of its block, a length between 0 and 255, and the name the
    header text gives at [32 * k]. *)
Theorem X8_dbf_fields_layout arrayBuffer src response encoding d :
  DBFParser.parse arrayBuffer src response encoding = Some (Ok d) ->
  let n := Z.of_nat (List.length (fields d)) in
  1 <= n
  /\ fieldpos d = 32 * n + 33
  /\ getUint8 arrayBuffer (32 * n + 32) = Ok 13
  /\ forall k f,
       nth_error (fields d) k = Some f ->
       let at_ := 32 + 32 * Z.of_nat k in
       (exists c, type f = [c] /\ getUint8 arrayBuffer (at_ + 11) = Ok c)
       /\ getUint8 arrayBuffer (at_ + 16) = Ok (fieldLength f)
       /\ getUint8 arrayBuffer (at_ + 20) = Ok (workAreaId f)
       /\ getUint8 arrayBuffer (at_ + 23) = Ok (setFieldFlag f)
       /\ getUint8 arrayBuffer (at_ + 31) = Ok (indexFieldFlag f)
       /\ 0 <= fieldLength f <= 255
       /\ name f = headerName response k
       /\ (Z.of_nat k + 1 < n -> getUint8 arrayBuffer (at_ + 32) <> Ok 13).
Proof.
  intros H n. destruct (parse_Ok _ _ _ _ _ H) as [d0 [_ [_ [Hf _]]]].
  destruct (parseFields_Ok _ _ _ _ _ _ _ _ Hf) as [new [Hfs [Hne [Hpos [Ht Hnth]]]]].
  cbn [app] in Hfs. subst new. fold n in Hpos.
  assert (Hn : 1 <= n).
  { subst n. destruct (fields d); [contradiction|]. cbn [List.length]. lia. }
  split; [assumption|]. split; [lia|].
  split; [replace (32 * n + 32) with (fieldpos d - 1) by lia; assumption|].
  intros k f Hk at_. destruct (Hnth _ _ Hk) as [Hp Hnext].
  apply parseField_Ok in Hp. fold at_ in Hp.
  destruct Hp as [Hname [Hty [H16 [H20 [H23 [H31 Hr]]]]]].
  repeat split; try assumption; try lia.
  - rewrite Hname. cbn [Nat.add]. rewrite fixedWidthNames_nth by apply Nat.le_refl.
    reflexivity.
  - intros Hlt. replace (at_ + 32) with (32 + 32 * Z.of_nat (S k)) by (subst at_; lia).
    apply Hnext. subst n. lia.
Qed.

Lemma X8_dbf_fields_layout_witness :
  exists d,
    DBFParser.parse Examples.dbf1 "a.dbf" Examples.text1 (ofString "utf-8")
    = Some (Ok d)
    /\ 1 <= Z.of_nat (List.length (fields d))
    /\ fieldpos d = 32 * Z.of_nat (List.length (fields d)) + 33.
Proof.
  assert (H : exists d, DBFParser.parse Examples.dbf1 "a.dbf" Examples.text1
                          (ofString "utf-8") = Some (Ok d))
    by (eexists; vm_compute; reflexivity).
  destruct H as [d H]. exists d. split; [exact H|].
  pose proof (X8_dbf_fields_layout _ _ _ _ d H) as L. cbv zeta in L.
  split; [exact (proj1 L)|exact (proj1 (proj2 L))].
Defined.

Lemma removeNul_no_nul s : ~ In 0 (removeNul s).
Proof.
  unfold removeNul. intros H. apply filter_In in H. destruct H as [_ H].
  discriminate.
Qed.

Lemma removeNul_length s : (List.length (removeNul s) <= List.length s)%nat.
Proof. unfold removeNul. apply filter_length_le. Qed.

(** X9.  The name of field [k] of a decoded table is the ten
    characters of the header text from [32 * k] on, without the NULs: it
    has at most ten characters and no NUL.  It is missing ([undefined])
    exactly when the header text ends at or before [32 * k]. *)
Theorem X9_dbf_field_names arrayBuffer src response encoding d k f :
  DBFParser.parse arrayBuffer src response encoding = Some (Ok d) ->
  nth_error (fields d) k = Some f ->
  match name f with
  | Some s =>
      (32 * k < List.length (headerText response))%nat
      /\ s = removeNul (sliceTo (skipn (32 * k) (headerText response)) 10)
      /\ (List.length s <= 10)%nat
      /\ ~ In 0 s
  | None => (List.length (headerText response) <= 32 * k)%nat
  end.
Proof.
  intros H Hk.
  destruct (parse_Ok _ _ _ _ _ H) as [d0 [_ [_ [Hf _]]]].
  destruct (parseFields_Ok _ _ _ _ _ _ _ _ Hf) as [new [Hfs [_ [_ [_ Hnth]]]]].
  cbn [app] in Hfs. subst new. destruct (Hnth _ _ Hk) as [Hp _].
  apply parseField_Ok in Hp. destruct Hp as [Hname _].
  cbn [Nat.add] in Hname.
  rewrite fixedWidthNames_nth in Hname by apply Nat.le_refl.
  rewrite Hname.
  destruct (Nat.ltb_spec (32 * k) (List.length (headerText response))); [|assumption].
  split; [assumption|]. split; [reflexivity|]. split; [|apply removeNul_no_nul].
  etransitivity; [apply removeNul_length|].
  unfold sliceTo. rewrite length_firstn. change (Z.to_nat 10) with 10%nat. lia.
Qed.

Lemma X9_dbf_field_names_witness :
  exists d f,
    DBFParser.parse Examples.dbf1 "a.dbf" Examples.text1 (ofString "utf-8")
    = Some (Ok d)
    /\ nth_error (fields d) 1 = Some f
    /\ match name f with
       | Some s =>
           (32 * 1 < List.length (headerText Examples.text1))%nat
           /\ s = removeNul (sliceTo (skipn (32 * 1) (headerText Examples.text1)) 10)
           /\ (List.length s <= 10)%nat
           /\ ~ In 0 s
       | None => (List.length (headerText Examples.text1) <= 32 * 1)%nat
       end.
Proof.
  assert (H : exists d f,
             DBFParser.parse Examples.dbf1 "a.dbf" Examples.text1
               (ofString "utf-8") = Some (Ok d)
             /\ nth_error (fields d) 1 = Some f)
    by (do 2 eexists; split; vm_compute; reflexivity).
  destruct H as [d [f [H Hf]]]. exists d, f.
  split; [exact H|]. split; [exact Hf|].
  exact (X9_dbf_field_names _ _ _ _ d 1%nat f H Hf).
Defined.

(** ** The record loop in closed form *)

Lemma sliceFrom_sliceFrom (s : jsstring) a b :
  0 <= a -> 0 <= b -> sliceFrom (sliceFrom s a) b = sliceFrom s (a + b).
Proof.
  intros Ha Hb. unfold sliceFrom. rewrite skipn_skipn. f_equal. lia.
Qed.

Lemma fixedWidthFields_rest fields : forall text record,
  Forall (fun f => 0 <= fieldLength f) fields ->
  snd (fixedWidthFields fields text record)
  = sliceFrom text (recordWidth fields - 1)
  /\ 1 <= recordWidth fields.
Proof.
  unfold recordWidth.
  induction fields as [|f fields IH]; intros text record Hf;
    cbn [fixedWidthFields fold_right].
  - split; [|lia]. cbn [snd]. replace (1 + 0 - 1) with 0 by lia. reflexivity.
  - apply Forall_cons_iff in Hf. destruct Hf as [H0 Hf].
    destruct (IH (sliceFrom text (Z.max 0 (fieldLength f)))
                (setProperty record (propertyKey (name f))
                   (DBFParser.fieldValue
                      (trim (removeNul (sliceTo text (Z.max 0 (fieldLength f)))))))
                Hf) as [Hs Hw].
    rewrite Hs. rewrite Z.max_r by assumption.
    rewrite sliceFrom_sliceFrom by lia. split; [f_equal; lia|lia].
Qed.

Lemma fixedWidthRecords_closed fields n : forall text acc,
  Forall (fun f => 0 <= fieldLength f) fields ->
  fixedWidthRecords n fields text acc
  = acc ++ map (fun i => fst (fixedWidthFields fields
                                (sliceFrom text (Z.of_nat i * recordWidth fields + 1))
                                []))
               (seq 0 n).
Proof.
  induction n as [|n IH]; intros text acc Hf; cbn [fixedWidthRecords seq map].
  - now rewrite app_nil_r.
  - destruct (fixedWidthFields_rest fields (sliceFrom text 1) [] Hf) as [Hs Hw].
    destruct (fixedWidthFields fields (sliceFrom text 1) []) as [r text'] eqn:Er.
    cbn [snd] in Hs. subst text'.
    rewrite IH by assumption. rewrite <- app_assoc. cbn [app]. f_equal.
    replace (Z.of_nat 0 * recordWidth fields + 1) with 1 by lia.
    rewrite Er. cbn [fst]. f_equal.
    rewrite <- seq_shift, map_map. apply map_ext. intros i.
    rewrite sliceFrom_sliceFrom by lia. rewrite sliceFrom_sliceFrom by lia.
    do 3 f_equal. lia.
Qed.

Lemma parse_fields_nonneg arrayBuffer src response encoding d :
  DBFParser.parse arrayBuffer src response encoding = Some (Ok d) ->
  Forall (fun f => 0 <= fieldLength f <= 255) (fields d).
Proof.
  intros H. destruct (parse_Ok _ _ _ _ _ H) as [d0 [_ [_ [Hf _]]]].
  destruct (parseFields_Ok _ _ _ _ _ _ _ _ Hf) as [new [Hfs [_ [_ [_ Hnth]]]]].
  cbn [app] in Hfs. subst new. apply Forall_forall. intros f Hin.
  apply In_nth_error in Hin. destruct Hin as [k Hk].
  destruct (Hnth _ _ Hk) as [Hp _]. apply parseField_Ok in Hp. tauto.
Qed.

(** Past the end of the text every value is the empty string. *)
Lemma fixedWidthFields_nil fields : forall record key v,
  In (key, v) (fst (fixedWidthFields fields [] record)) ->
  In (key, v) record \/ v = VString [].
Proof.
  assert (Hset : forall r k w key v,
             In (key, v) (setProperty r k w) -> In (key, v) r \/ v = w).
  { intros r k w key v. unfold setProperty.
    destruct (list_eq_dec Z.eq_dec k (ofString "__proto__")); [auto|].
    induction r as [|[k0 w0] r IH]; cbn [defineProperty].
    - intros [H|[]]. inversion H. auto.
    - destruct (list_eq_dec Z.eq_dec k0 k).
      + intros [H|H]; [inversion H; auto|left; now right].
      + intros [H|H]; [left; now left|].
        destruct (IH H); [left; now right|auto]. }
  induction fields as [|f fields IH]; intros record key v;
    cbn [fixedWidthFields fst]; [auto|].
  unfold sliceTo, sliceFrom. rewrite firstn_nil, skipn_nil.
  intros H. apply IH in H. destruct H as [H|H]; [|auto].
  apply Hset in H. destruct H as [H| ->]; [auto|]. right. reflexivity.
Qed.

(** X10.  Record [i] of a decoded table is cut at a fixed stride
    from the text after the last carriage return: it starts at
    [i * recordWidth + 1], [recordWidth] being one more than the sum of
    the field lengths, and takes [fieldLength] characters for each field
    in turn.  A record that starts at or after the end of the text has
    the empty string for every value. *)
Theorem X10_dbf_record_stride arrayBuffer src response encoding d i r :
  DBFParser.parse arrayBuffer src response encoding = Some (Ok d) ->
  nth_error (records d) i = Some r ->
  let start := Z.of_nat i * recordWidth (fields d) + 1 in
  r = fst (fixedWidthFields (fields d) (sliceFrom (recordText response) start) [])
  /\ 1 <= recordWidth (fields d) <= 1 + 255 * Z.of_nat (List.length (fields d))
  /\ (Z.of_nat (List.length (recordText response)) <= start ->
      forall key v, In (key, v) r -> v = VString []).
Proof.
  intros H Hi start.
  pose proof (parse_fields_nonneg _ _ _ _ _ H) as Hf.
  assert (Hf0 : Forall (fun f => 0 <= fieldLength f) (fields d))
    by (eapply Forall_impl; [|exact Hf]; cbv beta; intros; lia).
  destruct (parse_Ok _ _ _ _ _ H) as [d0 [_ [_ [_ Hr]]]].
  rewrite fixedWidthRecords_closed in Hr by assumption. cbn [app] in Hr.
  rewrite Hr in Hi. rewrite nth_error_map in Hi.
  rewrite nth_error_seq in Hi.
  destruct (i <? Z.to_nat (numberOfRecords d))%nat; [|discriminate].
  cbn [Nat.add] in Hi. injection Hi as Hri. fold start in Hri. subst r.
  split; [reflexivity|].
  split.
  - unfold recordWidth. clear -Hf. induction Hf as [|f fs Hf0 Hfs IH];
      cbn [fold_right List.length]; lia.
  - intros Hlen key v Hin.
    assert (Hnil : sliceFrom (recordText response) start = []).
    { unfold sliceFrom. apply skipn_all2. lia. }
    rewrite Hnil in Hin. apply fixedWidthFields_nil in Hin.
    destruct Hin as [[]|Hv]. assumption.
Qed.

Lemma X10_dbf_record_stride_witness :
  exists d r,
    DBFParser.parse Examples.dbf1 "a.dbf" Examples.text1 (ofString "utf-8")
    = Some (Ok d)
    /\ nth_error (records d) 0 = Some r
    /\ r = fst (fixedWidthFields (fields d)
                  (sliceFrom (recordText Examples.text1)
                     (Z.of_nat 0 * recordWidth (fields d) + 1)) []).
Proof.
  assert (H : exists d r,
             DBFParser.parse Examples.dbf1 "a.dbf" Examples.text1
               (ofString "utf-8") = Some (Ok d)
             /\ nth_error (records d) 0 = Some r)
    by (do 2 eexists; split; vm_compute; reflexivity).
  destruct H as [d [r [H Hr]]]. exists d, r.
  split; [exact H|]. split; [exact Hr|].
  exact (proj1 (X10_dbf_record_stride _ _ _ _ d 0%nat r H Hr)).
Defined.

(** ** Objects *)

Lemma defineProperty_keys r key v :
  map fst (defineProperty r key v)
  = if in_dec (list_eq_dec Z.eq_dec) key (map fst r)
    then map fst r else map fst r ++ [key].
Proof.
  induction r as [|[k w] r IH]; cbn [defineProperty map fst].
  - destruct (in_dec (list_eq_dec Z.eq_dec) key []) as [[]|_]. reflexivity.
  - destruct (list_eq_dec Z.eq_dec k key) as [->|Hne].
    + cbn [map fst]. destruct (in_dec (list_eq_dec Z.eq_dec) key (key :: map fst r)) as [_|Hn];
        [reflexivity|]. exfalso. apply Hn. now left.
    + cbn [map fst]. rewrite IH.
      destruct (in_dec (list_eq_dec Z.eq_dec) key (map fst r)) as [Hi|Hn],
               (in_dec (list_eq_dec Z.eq_dec) key (k :: map fst r)) as [Hi'|Hn']; try reflexivity.
      * exfalso. apply Hn'. now right.
      * exfalso. destruct Hi' as [->|Hi']; [now apply Hne|now apply Hn].
Qed.

Lemma setProperty_keys r key v k :
  In k (map fst (setProperty r key v))
  <-> In k (map fst r) \/ (k = key /\ key <> protoKey).
Proof.
  unfold setProperty, protoKey.
  destruct (list_eq_dec Z.eq_dec key (ofString "__proto__")) as [->|Hne].
  - split; [auto|]. intros [H|[_ H]]; [assumption|contradiction].
  - rewrite defineProperty_keys.
    destruct (in_dec (list_eq_dec Z.eq_dec) key (map fst r)) as [Hi|Hn].
    + split; [auto|]. intros [H|[-> _]]; assumption.
    + rewrite in_app_iff. cbn [In]. split.
      * intros [H|[<-|[]]]; auto.
      * intros [H|[-> _]]; auto.
Qed.

Lemma setProperty_NoDup r key v :
  NoDup (map fst r) -> NoDup (map fst (setProperty r key v)).
Proof.
  intros H. unfold setProperty.
  destruct (list_eq_dec Z.eq_dec key (ofString "__proto__")); [assumption|].
  rewrite defineProperty_keys.
  destruct (in_dec (list_eq_dec Z.eq_dec) key (map fst r)) as [Hi|Hn]; [assumption|].
  apply NoDup_app; [assumption|repeat constructor; intros []|].
  intros a Ha [<-|[]]. contradiction.
Qed.

Lemma fixedWidthFields_keys fields : forall text record k,
  In k (map fst (fst (fixedWidthFields fields text record)))
  <-> In k (map fst record)
      \/ (k <> protoKey /\ exists f, In f fields /\ k = propertyKey (name f)).
Proof.
  induction fields as [|f fields IH]; intros text record k;
    cbn [fixedWidthFields fst].
  - split; [auto|]. intros [H|[_ [f [[] _]]]]. assumption.
  - rewrite IH, setProperty_keys. split.
    + intros [[H|[-> Hp]]|[Hp [g [Hg Hk]]]].
      * now left.
      * right. split; [assumption|]. exists f. split; [now left|reflexivity].
      * right. split; [assumption|]. exists g. split; [now right|assumption].
    + intros [H|[Hp [g [[<-|Hg] Hk]]]].
      * left. now left.
      * left. right. subst k. now split.
      * right. split; [assumption|]. now exists g.
Qed.

Lemma fixedWidthFields_NoDup fields : forall text record,
  NoDup (map fst record) ->
  NoDup (map fst (fst (fixedWidthFields fields text record))).
Proof.
  induction fields as [|f fields IH]; intros text record H;
    cbn [fixedWidthFields fst]; [assumption|].
  apply IH. now apply setProperty_NoDup.
Qed.

(** X11.  The keys of a record of a decoded table are distinct, and
    are exactly the names of the fields ([undefined] for a missing
    name), less [__proto__], which an assignment does not turn into a
    property. *)
Theorem X11_dbf_record_keys arrayBuffer src response encoding d r :
  DBFParser.parse arrayBuffer src response encoding = Some (Ok d) ->
  In r (records d) ->
  NoDup (map fst r)
  /\ forall key,
       In key (map fst r)
       <-> key <> protoKey
           /\ exists f, In f (fields d) /\ key = propertyKey (name f).
Proof.
  intros H Hr.
  pose proof (parse_fields_nonneg _ _ _ _ _ H) as Hf.
  assert (Hf0 : Forall (fun f => 0 <= fieldLength f) (fields d))
    by (eapply Forall_impl; [|exact Hf]; cbv beta; intros; lia).
  destruct (parse_Ok _ _ _ _ _ H) as [d0 [_ [_ [_ Hrs]]]].
  rewrite fixedWidthRecords_closed in Hrs by assumption. cbn [app] in Hrs.
  rewrite Hrs in Hr. apply in_map_iff in Hr. destruct Hr as [i [<- _]].
  split.
  - apply fixedWidthFields_NoDup. constructor.
  - intros key. rewrite fixedWidthFields_keys. cbn [map In]. tauto.
Qed.

Lemma X11_dbf_record_keys_witness :
  exists d r,
    DBFParser.parse Examples.dbf1 "a.dbf" Examples.text1 (ofString "utf-8")
    = Some (Ok d)
    /\ In r (records d)
    /\ NoDup (map fst r).
Proof.
  assert (H : exists d r,
             DBFParser.parse Examples.dbf1 "a.dbf" Examples.text1
               (ofString "utf-8") = Some (Ok d)
             /\ In r (records d))
    by (do 2 eexists; split; [vm_compute; reflexivity|simpl; left; reflexivity]).
  destruct H as [d [r [H Hr]]]. exists d, r.
  split; [exact H|]. split; [exact Hr|].
  exact (proj1 (X11_dbf_record_keys _ _ _ _ d r H Hr)).
Defined.

(** ** Trimmed text *)

Lemma dropWhile_suffix p s : exists pre, s = pre ++ dropWhile p s.
Proof.
  induction s as [|c s [pre IH]]; [now exists []|].
  cbn [dropWhile]. destruct (p c); [|now exists []].
  exists (c :: pre). cbn. now f_equal.
Qed.

Lemma dropWhile_head p s c : hd_error (dropWhile p s) = Some c -> p c = false.
Proof.
  induction s as [|c0 s IH]; cbn [dropWhile]; [discriminate|].
  destruct (p c0) eqn:E; [assumption|]. cbn [hd_error]. intros H.
  inversion H; subst. assumption.
Qed.

Lemma trim_sub s c : In c (trim s) -> In c s.
Proof.
  unfold trim. rewrite <- in_rev. intros H.
  destruct (dropWhile_suffix isWhiteSpace (rev (dropWhile isWhiteSpace s))) as [p1 H1].
  assert (H2 : In c (rev (dropWhile isWhiteSpace s)))
    by (rewrite H1; apply in_or_app; now right).
  rewrite <- in_rev in H2.
  destruct (dropWhile_suffix isWhiteSpace s) as [p2 H3].
  rewrite H3. apply in_or_app. now right.
Qed.

Lemma trim_length s : (List.length (trim s) <= List.length s)%nat.
Proof.
  unfold trim. rewrite length_rev.
  destruct (dropWhile_suffix isWhiteSpace (rev (dropWhile isWhiteSpace s))) as [p1 H1].
  destruct (dropWhile_suffix isWhiteSpace s) as [p2 H3].
  apply (f_equal (@List.length Z)) in H1, H3.
  rewrite length_app in H1, H3. rewrite length_rev in H1. lia.
Qed.

Lemma trim_last s c : hd_error (rev (trim s)) = Some c -> isWhiteSpace c = false.
Proof.
  unfold trim. rewrite rev_involutive. apply dropWhile_head.
Qed.

Lemma trim_first s c : hd_error (trim s) = Some c -> isWhiteSpace c = false.
Proof.
  unfold trim.
  set (s' := dropWhile isWhiteSpace s).
  destruct (dropWhile_suffix isWhiteSpace (rev s')) as [pre Hp].
  intros H.
  destruct (dropWhile isWhiteSpace (rev s')) as [|x l] eqn:Ed; [discriminate|].
  assert (Hs : s' = rev (x :: l) ++ rev pre).
  { rewrite <- rev_app_distr, <- Hp. now rewrite rev_involutive. }
  destruct (rev (x :: l)) as [|y l'] eqn:Er.
  { apply (f_equal (@List.length Z)) in Er. rewrite length_rev in Er. discriminate. }
  cbn in H. inversion H; subst y.
  apply (dropWhile_head isWhiteSpace s). fold s'. rewrite Hs. reflexivity.
Qed.

Lemma fixedWidthFields_values fields : forall text record key v,
  Forall (fun f => 0 <= fieldLength f <= 255) fields ->
  In (key, v) (fst (fixedWidthFields fields text record)) ->
  In (key, v) record
  \/ exists raw, (List.length raw <= 255)%nat
                 /\ v = DBFParser.fieldValue (trim (removeNul raw)).
Proof.
  assert (Hset : forall r k w key v,
             In (key, v) (setProperty r k w) -> In (key, v) r \/ v = w).
  { intros r k w key v. unfold setProperty.
    destruct (list_eq_dec Z.eq_dec k (ofString "__proto__")); [auto|].
    induction r as [|[k0 w0] r IH]; cbn [defineProperty].
    - intros [H|[]]. inversion H. auto.
    - destruct (list_eq_dec Z.eq_dec k0 k).
      + intros [H|H]; [inversion H; auto|left; now right].
      + intros [H|H]; [left; now left|].
        destruct (IH H); [left; now right|auto]. }
  induction fields as [|f fields IH]; intros text record key v Hf;
    cbn [fixedWidthFields fst]; [auto|].
  apply Forall_cons_iff in Hf. destruct Hf as [H0 Hf].
  intros H. apply (IH _ _ _ _ Hf) in H. destruct H as [H|H]; [|auto].
  apply Hset in H. destruct H as [H| ->]; [auto|]. right.
  eexists. split; [|reflexivity].
  unfold sliceTo. rewrite length_firstn. lia.
Qed.

(** X12.  A value of a record of a decoded table has no NUL, at
    most 255 characters and no white space at either end; it is a number
    exactly when its text has the form [d.ddddddddddde+ddd]. *)
Theorem X12_dbf_values_clean arrayBuffer src response encoding d r key v :
  DBFParser.parse arrayBuffer src response encoding = Some (Ok d) ->
  In r (records d) ->
  In (key, v) r ->
  let s := valueText v in
  ~ In 0 s
  /\ (List.length s <= 255)%nat
  /\ (forall c, hd_error s = Some c -> isWhiteSpace c = false)
  /\ (forall c, hd_error (rev s) = Some c -> isWhiteSpace c = false)
  /\ match v with
     | VNumber _ => isScientific s = true
     | VString _ => isScientific s = false
     end.
Proof.
  intros H Hr Hin s.
  pose proof (parse_fields_nonneg _ _ _ _ _ H) as Hf.
  assert (Hf0 : Forall (fun f => 0 <= fieldLength f) (fields d))
    by (eapply Forall_impl; [|exact Hf]; cbv beta; intros; lia).
  destruct (parse_Ok _ _ _ _ _ H) as [d0 [_ [_ [_ Hrs]]]].
  rewrite fixedWidthRecords_closed in Hrs by assumption. cbn [app] in Hrs.
  rewrite Hrs in Hr. apply in_map_iff in Hr. destruct Hr as [i [<- _]].
  apply (fixedWidthFields_values _ _ _ _ _ Hf) in Hin.
  destruct Hin as [[]|[raw [Hlen Hv]]].
  assert (Hs : s = trim (removeNul raw)).
  { subst s v. unfold DBFParser.fieldValue.
    destruct (isScientific (trim (removeNul raw))); reflexivity. }
  rewrite Hs. split; [|split; [|split; [|split]]].
  - intros H0. apply trim_sub in H0. now apply removeNul_no_nul in H0.
  - etransitivity; [apply trim_length|].
    etransitivity; [apply removeNul_length|assumption].
  - apply trim_first.
  - apply trim_last.
  - subst v. unfold DBFParser.fieldValue.
    destruct (isScientific (trim (removeNul raw))) eqn:E; reflexivity.
Qed.

Lemma X12_dbf_values_clean_witness :
  exists d r key v,
    DBFParser.parse Examples.dbf1 "a.dbf" Examples.text1 (ofString "utf-8")
    = Some (Ok d)
    /\ In r (records d)
    /\ In (key, v) r
    /\ ~ In 0 (valueText v)
    /\ (List.length (valueText v) <= 255)%nat.
Proof.
  assert (H : exists d r key v,
             DBFParser.parse Examples.dbf1 "a.dbf" Examples.text1
               (ofString "utf-8") = Some (Ok d)
             /\ In r (records d) /\ In (key, v) r)
    by (do 4 eexists; split; [vm_compute; reflexivity|];
        split; [simpl; left; reflexivity|simpl; left; reflexivity]).
  destruct H as [d [r [key [v [H [Hr Hv]]]]]]. exists d, r, key, v.
  split; [exact H|]. split; [exact Hr|]. split; [exact Hv|].
  pose proof (X12_dbf_values_clean _ _ _ _ d r key v H Hr Hv) as L. cbv zeta in L.
  split; [exact (proj1 L)|exact (proj1 (proj2 L))].
Defined.

(** ** No text at all *)

Lemma fixedWidthFields_undefined fields : forall record,
  Forall (fun f => name f = None) fields ->
  record = [] \/ record = [(ofString "undefined", VString [])] ->
  fields <> [] \/ record <> [] ->
  fst (fixedWidthFields fields [] record) = [(ofString "undefined", VString [])].
Proof.
  induction fields as [|f fields IH]; intros record Hn Hr Hne;
    cbn [fixedWidthFields fst].
  - destruct Hr as [-> | ->]; [|reflexivity]. destruct Hne; contradiction.
  - apply Forall_cons_iff in Hn. destruct Hn as [Hf Hn]. rewrite Hf.
    unfold sliceTo, sliceFrom. rewrite firstn_nil, skipn_nil.
    apply IH; [assumption| |right].
    + right. destruct Hr as [-> | ->]; reflexivity.
    + destruct Hr as [-> | ->]; discriminate.
Qed.

(** X13.  With the empty string for the decoded text a table that
    decodes has no field name, and each of its [numberOfRecords] records
    is the one property [undefined] with the empty string. *)
Theorem X13_dbf_empty_text arrayBuffer src encoding d :
  DBFParser.parse arrayBuffer src [] encoding = Some (Ok d) ->
  Forall (fun f => name f = None) (fields d)
  /\ records d
     = repeat [(ofString "undefined", VString [])]
         (Z.to_nat (numberOfRecords d)).
Proof.
  intros H.
  pose proof (parse_fields_nonneg _ _ _ _ _ H) as Hf.
  assert (Hf0 : Forall (fun f => 0 <= fieldLength f) (fields d))
    by (eapply Forall_impl; [|exact Hf]; cbv beta; intros; lia).
  destruct (parse_Ok _ _ _ _ _ H) as [d0 [_ [_ [Hfs Hrs]]]].
  change (headerText []) with (@nil Z) in Hfs.
  change (recordText []) with (@nil Z) in Hrs.
  destruct (parseFields_Ok _ _ _ _ _ _ _ _ Hfs) as [new [Hnew [Hne [_ [_ Hnth]]]]].
  cbn [app] in Hnew. subst new.
  assert (Hnames : Forall (fun f => name f = None) (fields d)).
  { apply Forall_forall. intros f Hin. apply In_nth_error in Hin.
    destruct Hin as [k Hk]. destruct (Hnth _ _ Hk) as [Hp _].
    apply parseField_Ok in Hp. destruct Hp as [-> _].
    cbn [fixedWidthNames List.length]. now destruct (0 + k)%nat. }
  split; [assumption|].
  rewrite Hrs, fixedWidthRecords_closed by assumption. cbn [app].
  rewrite (map_ext _ (fun _ => [(ofString "undefined", VString [])])).
  - now rewrite map_const, length_seq.
  - intros i. unfold sliceFrom. rewrite skipn_nil.
    apply fixedWidthFields_undefined; auto.
Qed.

Lemma X13_dbf_empty_text_witness :
  exists d,
    DBFParser.parse Examples.dbf1 "a.dbf" [] (ofString "utf-8") = Some (Ok d)
    /\ Forall (fun f => name f = None) (fields d)
    /\ records d
       = repeat [(ofString "undefined", VString [])]
           (Z.to_nat (numberOfRecords d)).
Proof.
  assert (H : exists d, DBFParser.parse Examples.dbf1 "a.dbf" []
                          (ofString "utf-8") = Some (Ok d))
    by (eexists; vm_compute; reflexivity).
  destruct H as [d H]. exists d. split; [exact H|].
  exact (X13_dbf_empty_text _ _ _ d H).
Defined.

(** ** When a table decodes *)

Lemma getUint8_total dv i : inBounds dv i 1 -> exists v, getUint8 dv i = Ok v.
Proof.
  intros Hb. destruct (getUint8 dv i) as [v|e] eqn:E; [eauto|].
  apply getUint8_Throw in E. tauto.
Qed.

Lemma getUint8_beyond dv i v :
  Z.of_nat (List.length dv) <= i -> getUint8 dv i <> Ok v.
Proof.
  intros Hl H. apply getUint8_Ok in H. unfold inBounds in H. lia.
Qed.

Lemma nameBytes_Throw dv n : forall idx e,
  0 <= idx ->
  DBFParser.nameBytes dv idx n = Throw e ->
  e = outOfBounds /\ Z.of_nat (List.length dv) < idx + Z.of_nat n.
Proof.
  induction n as [|n IH]; intros idx e Hi H; cbn [DBFParser.nameBytes] in H;
    [discriminate|].
  head_read H.
  - destruct (DBFParser.nameBytes dv (idx + 1) n) eqn:En; cbn [bind] in H;
      [discriminate|].
    inversion H; subst. apply IH in En; [|lia]. destruct En. split; [assumption|lia].
  - apply getUint8_Throw in E. destruct E as [-> E]. inversion H.
    split; [reflexivity|]. unfold inBounds in E. lia.
Qed.

Lemma parseField_Throw dv idx fieldName e :
  0 <= idx ->
  DBFParser.parseField dv idx fieldName = Throw e ->
  e = outOfBounds /\ Z.of_nat (List.length dv) < idx + 32.
Proof.
  unfold DBFParser.parseField. cbv zeta. intros Hi H.
  destruct (DBFParser.nameBytes dv idx 10) eqn:En; cbn [bind] in H.
  2:{ apply nameBytes_Throw in En; [|assumption]. inversion H; subst.
      destruct En. split; [assumption|lia]. }
  repeat (head_read H;
          [|match goal with
            | E : getUint8 _ _ = Throw _ |- _ =>
                apply getUint8_Throw in E; destruct E as [-> E];
                inversion H; split; [reflexivity|unfold inBounds in E; lia]
            end]).
  discriminate.
Qed.

Lemma parseFields_Throw dv charString fuel : forall idx nameIndex acc e,
  0 <= idx ->
  DBFParser.parseFields fuel dv idx charString nameIndex acc = Some (Throw e) ->
  e = outOfBounds
  /\ forall k, (1 <= k)%nat -> getUint8 dv (idx + 32 * Z.of_nat k) <> Ok 13.
Proof.
  induction fuel as [|fuel IH]; intros idx ni acc e Hi;
    cbn [DBFParser.parseFields]; [discriminate|].
  destruct (DBFParser.parseField dv idx (nth_error charString ni)) as [f|e0] eqn:Ef.
  2:{ intros H. inversion H; subst e0. apply parseField_Throw in Ef; [|assumption].
      destruct Ef as [-> Hl]. split; [reflexivity|].
      intros k Hk. apply getUint8_beyond. lia. }
  destruct (getUint8 dv (idx + 32)) as [b|e0] eqn:Eb.
  2:{ intros H. inversion H; subst e0. apply getUint8_Throw in Eb.
      destruct Eb as [-> Hl]. split; [reflexivity|].
      intros k Hk. apply getUint8_beyond. unfold inBounds in Hl. lia. }
  destruct (Z.eqb_spec b 13) as [->|Hne]; [discriminate|].
  intros H. apply IH in H; [|lia]. destruct H as [-> Hall].
  split; [reflexivity|]. intros k Hk.
  destruct (Nat.eq_dec k 1) as [->|Hk1].
  - replace (idx + 32 * Z.of_nat 1) with (idx + 32) by lia. congruence.
  - replace (idx + 32 * Z.of_nat k) with (idx + 32 + 32 * Z.of_nat (k - 1)) by lia.
    apply Hall. lia.
Qed.

Lemma getInt8_Throw dv i e :
  getInt8 dv i = Throw e -> e = outOfBounds /\ ~ inBounds dv i 1.
Proof.
  unfold getInt8. intros H. split.
  - destruct (bytesFrom dv i); congruence.
  - intros Hb. apply bytesFrom_long in Hb.
    destruct (bytesFrom dv i); try discriminate; cbn in Hb; lia.
Qed.

Lemma getInt16_Throw dv i le e :
  getInt16 dv i le = Throw e -> e = outOfBounds /\ ~ inBounds dv i 2.
Proof.
  unfold getInt16. intros H. split.
  - destruct (bytesFrom dv i) as [|b0 [|b1 l]]; congruence.
  - intros Hb. apply bytesFrom_long in Hb.
    destruct (bytesFrom dv i) as [|b0 [|b1 l]]; try discriminate; cbn in Hb; lia.
Qed.

Lemma dbf_parseHeader_Throw dv src e :
  DBFParser.parseHeader dv src = Throw e ->
  e = outOfBounds /\ Z.of_nat (List.length dv) < 30.
Proof.
  unfold DBFParser.parseHeader. cbv zeta. intros H.
  destruct (getInt8 dv 0) eqn:E0; cbn [bind] in H.
  2:{ apply getInt8_Throw in E0. destruct E0 as [-> E0]. inversion H.
      split; [reflexivity|unfold inBounds in E0; lia]. }
  do 3 (head_read H;
        [|match goal with
          | E : getUint8 _ _ = Throw _ |- _ =>
              apply getUint8_Throw in E; destruct E as [-> E];
              inversion H; split; [reflexivity|unfold inBounds in E; lia]
          end]).
  head_read H.
  2:{ apply getInt32_Throw in E3. destruct E3 as [-> E3]. inversion H.
      split; [reflexivity|unfold inBounds in E3; lia]. }
  destruct (getInt16 dv _ true) eqn:E4 in H; cbn [bind] in H.
  2:{ apply getInt16_Throw in E4. destruct E4 as [-> E4]. inversion H.
      split; [reflexivity|unfold inBounds in E4; lia]. }
  destruct (getInt16 dv _ true) eqn:E5 in H; cbn [bind] in H.
  2:{ apply getInt16_Throw in E5. destruct E5 as [-> E5]. inversion H.
      split; [reflexivity|unfold inBounds in E5; lia]. }
  do 4 (head_read H;
        [|match goal with
          | E : getUint8 _ _ = Throw _ |- _ =>
              apply getUint8_Throw in E; destruct E as [-> E];
              inversion H; split; [reflexivity|unfold inBounds in E; lia]
          end]).
  discriminate.
Qed.

(** X14.  [DBFParser.parse] returns a table exactly when the
    byte at some block boundary [32 + 32 * k], [k >= 1], is the
    terminator 0x0D; otherwise it throws, and the only error it throws
    is the RangeError of a read outside the buffer. *)
Theorem X14_dbf_decodes_iff_terminated arrayBuffer src response encoding :
  ((exists d, DBFParser.parse arrayBuffer src response encoding = Some (Ok d))
   <-> exists k, (1 <= k)%nat
                 /\ getUint8 arrayBuffer (32 + 32 * Z.of_nat k) = Ok 13)
  /\ forall e,
       DBFParser.parse arrayBuffer src response encoding = Some (Throw e) ->
       e = outOfBounds.
Proof.
  assert (Hthrow : forall e,
             DBFParser.parse arrayBuffer src response encoding = Some (Throw e) ->
             e = outOfBounds
             /\ forall k, (1 <= k)%nat ->
                          getUint8 arrayBuffer (32 + 32 * Z.of_nat k) <> Ok 13).
  { intros e. rewrite parse_unfold.
    destruct (DBFParser.parseHeader arrayBuffer src) as [d0|e0] eqn:Eh.
    - cbv zeta.
      destruct (DBFParser.parseFields _ _ _ _ _ _) as [[[fs idx]|e1]|] eqn:Ef;
        try discriminate.
      intros H. inversion H; subst e1.
      apply parseFields_Throw in Ef; [assumption|lia].
    - intros H. inversion H; subst e0. apply dbf_parseHeader_Throw in Eh.
      destruct Eh as [-> Hl]. split; [reflexivity|].
      intros k Hk. apply getUint8_beyond. lia. }
  split; [split|].
  - intros [d H]. pose proof H as H'.
    destruct (parse_Ok _ _ _ _ _ H) as [d0 [_ [_ [Hf _]]]].
    destruct (parseFields_Ok _ _ _ _ _ _ _ _ Hf) as [new [_ [Hne [Hpos [Ht _]]]]].
    exists (List.length new). split.
    + destruct new; [contradiction|]. cbn [List.length]. lia.
    + rewrite <- Hpos. assumption.
  - intros [k [Hk Ht]].
    destruct (parse_total arrayBuffer src response encoding) as [[d|e] Hr];
      [eauto|].
    destruct (Hthrow e Hr) as [_ Hall]. exfalso. now apply (Hall k Hk).
  - intros e H. now destruct (Hthrow e H).
Qed.

Lemma X14_dbf_decodes_iff_terminated_witness :
  getUint8 Examples.dbf1 (32 + 32 * Z.of_nat 2) = Ok 13
  /\ exists d,
       DBFParser.parse Examples.dbf1 "a.dbf" Examples.text1 (ofString "utf-8")
       = Some (Ok d).
Proof.
  assert (H : getUint8 Examples.dbf1 (32 + 32 * Z.of_nat 2) = Ok 13)
    by (vm_compute; reflexivity).
  split; [exact H|].
  apply (proj2 (proj1 (X14_dbf_decodes_iff_terminated Examples.dbf1 "a.dbf"
                         Examples.text1 (ofString "utf-8")))).
  exists 2%nat. split; [lia|exact H].
Defined.

(** ** Shapes [toGeojson] does not take *)

Lemma mapM_Ok_all {A B} (f : A -> res B) l bs :
  Preview.mapM f l = Ok bs -> forall a, In a l -> isOk (f a) = true.
Proof.
  revert bs. induction l as [|a l IH]; intros bs H x Hx; [contradiction|].
  cbn [Preview.mapM] in H.
  destruct (f a) eqn:Ea; cbn [bind] in H; [|discriminate].
  destruct (Preview.mapM f l) eqn:El; cbn [bind] in H; [|discriminate].
  destruct Hx as [<-|Hx]; [now rewrite Ea|]. now apply (IH _ eq_refl).
Qed.

Lemma mapM_first_Throw {A B} (f : A -> res B) l e :
  (forall a, In a l -> isOk (f a) = true \/ f a = Throw e) ->
  (exists a, In a l /\ f a = Throw e) ->
  Preview.mapM f l = Throw e.
Proof.
  induction l as [|a l IH]; intros Hall [x [Hx Hf]]; [contradiction|].
  cbn [Preview.mapM].
  destruct (Hall a (or_introl eq_refl)) as [Ha|Ha].
  - destruct (f a) eqn:Ea; [|discriminate]. cbn [bind].
    destruct Hx as [->|Hx]; [congruence|].
    rewrite IH; [reflexivity| |eauto]. intros b Hb. apply Hall. now right.
  - now rewrite Ha.
Qed.

Lemma combine_seq_In {A} (l : list A) : forall s i a,
  nth_error l i = Some a -> In ((s + i)%nat, a) (combine (seq s (List.length l)) l).
Proof.
  induction l as [|x l IH]; intros s i a H; [now destruct i|].
  cbn [List.length seq combine]. destruct i as [|i]; cbn [nth_error] in H.
  - left. inversion H. f_equal. lia.
  - right. replace (s + S i)%nat with (S s + i)%nat by lia. now apply IH.
Qed.

(** X15.  [toGeojson] has no case for the Null shape, which
    [SHPParser] decodes: it returns a collection only when no record is
    a Null shape, and with a projection that does not throw, a file that
    holds one makes it throw [Unsupported shape type: 0]. *)
Theorem X15_toGeojson_rejects_null proj4 shp dbf :
  (forall fc,
      Preview.toGeojson proj4 shp dbf = Ok fc ->
      Forall (fun r => rec_shape r <> ShapeNull) (shp_records shp))
  /\ ((forall x y, isOk (proj4 x y) = true) ->
      Exists (fun r => rec_shape r = ShapeNull) (shp_records shp) ->
      Preview.toGeojson proj4 shp dbf
      = Throw (newError "Unsupported shape type: 0")).
Proof.
  split.
  - intros fc H. destruct (toGeojson_Ok _ _ _ _ H) as [lo [hi [_ [_ [_ Hm]]]]].
    apply Forall_forall. intros r Hr Hnull.
    apply In_nth_error in Hr. destruct Hr as [i Hi].
    pose proof (combine_seq_In _ 0 _ _ Hi) as Hin. cbn [Nat.add] in Hin.
    pose proof (mapM_Ok_all _ _ _ Hm _ Hin) as Hok.
    unfold Preview.featureOf in Hok. rewrite Hnull in Hok. discriminate.
  - intros Hp Hex. unfold Preview.toGeojson.
    pose proof (Hp (Some (shp_minX shp)) (Some (shp_minY shp))) as Hlo.
    pose proof (Hp (Some (shp_maxX shp)) (Some (shp_maxY shp))) as Hhi.
    rewrite <- TransCoord_isOk in Hlo, Hhi.
    destruct (Preview.TransCoord proj4 (Some (shp_minX shp)) (Some (shp_minY shp)));
      [|discriminate].
    destruct (Preview.TransCoord proj4 (Some (shp_maxX shp)) (Some (shp_maxY shp)));
      [|discriminate].
    cbn [bind].
    rewrite (mapM_first_Throw _ _ (newError "Unsupported shape type: 0"));
      [reflexivity| |].
    + intros [i r] Hin.
      destruct (rec_shape r) as [|x y|t c] eqn:Es;
        [right; unfold Preview.featureOf; rewrite Es; reflexivity| |];
        left; rewrite featureOf_isOk; cbn [snd]; rewrite Es;
        (apply geometryOf_isOk; [assumption|discriminate]).
    + apply Exists_exists in Hex. destruct Hex as [r [Hr Hnull]].
      apply In_nth_error in Hr. destruct Hr as [i Hi].
      exists (i, r). split.
      * exact (combine_seq_In _ 0 _ _ Hi).
      * unfold Preview.featureOf. now rewrite Hnull.
Qed.

Lemma X15_toGeojson_rejects_null_witness :
  Exists (fun r => rec_shape r = ShapeNull)
         (shp_records (expectedFile Examples.info Examples.shapes "a.shp"))
  /\ Preview.toGeojson Preview.identity
       (expectedFile Examples.info Examples.shapes "a.shp") Examples.dbf
     = Throw (newError "Unsupported shape type: 0").
Proof.
  assert (H : Exists (fun r => rec_shape r = ShapeNull)
                (shp_records (expectedFile Examples.info Examples.shapes "a.shp")))
    by (apply Exists_cons_tl, Exists_cons_hd; reflexivity).
  split; [exact H|].
  exact (proj2 (X15_toGeojson_rejects_null Preview.identity
                  (expectedFile Examples.info Examples.shapes "a.shp")
                  Examples.dbf)
           (fun x y => eq_refl) H).
Defined.

(** ** Rings of a polygon, zero entries included *)

Lemma ringStop_cons v rest n k :
  ringStop (v :: rest) n (S k) = ringStop rest n k.
Proof. reflexivity. Qed.

Lemma ringsOf_ringStop proj4 (pts : list float64) n : forall ps,
  List.length pts = (2 * n)%nat ->
  Forall (fun p => 0 <= p <= Z.of_nat n) ps ->
  Preview.ringsOf proj4 pts ps
  = Preview.mapM
      (fun k => Preview.mapM (reproject proj4)
                  (between (nth k ps 0) (ringStop ps (Z.of_nat n) k) (pairsOf pts)))
      (seq 0 (List.length ps)).
Proof.
  intros ps Hn. pose proof (pairsOf_length pts n Hn) as Hp.
  induction ps as [|v rest IH]; intros Hr; [reflexivity|].
  apply Forall_cons_iff in Hr. destruct Hr as [Hv Hrest].
  cbn [Preview.ringsOf List.length seq Preview.mapM].
  assert (He : Preview.ringEnd (hd_error rest) pts
               = ringStop (v :: rest) (Z.of_nat n) 0 * 2).
  { unfold ringStop. destruct rest as [|w rest'];
      cbn [hd_error nth_error Preview.ringEnd]; [lia|].
    destruct (Z.eqb_spec w 0); lia. }
  rewrite He, pushPairs_between.
  2: lia.
  2:{ unfold ringStop. destruct rest as [|w rest']; cbn [nth_error]; [lia|].
      apply Forall_cons_iff in Hrest. destruct Hrest as [Hw _].
      destruct (Z.eqb_spec w 0); lia. }
  cbn [nth]. rewrite IH by assumption.
  rewrite <- seq_shift, mapM_map. reflexivity.
Qed.



(** ** A projection that never throws *)

Lemma mapM_pure {A B} (g : A -> B) l :
  Preview.mapM (fun a => Ok (g a)) l = Ok (map g l).
Proof.
  induction l as [|a l IH]; [reflexivity|].
  cbn [Preview.mapM map bind]. now rewrite IH.
Qed.

Lemma TransCoord_pure t x y :
  Preview.TransCoord (pureProjection t) x y = Ok (t x y).
Proof.
  unfold Preview.TransCoord, pureProjection. cbn [bind].
  now destruct (t x y).
Qed.

Lemma pushPairs_pure t pts a b :
  Preview.pushPairs (pureProjection t) pts a b
  = Ok (map (fun j => t (Preview.at_ pts j) (Preview.at_ pts (j + 1)))
            (Preview.evenSteps a b)).
Proof.
  unfold Preview.pushPairs.
  rewrite (mapM_ext _ (fun j => Ok (t (Preview.at_ pts j) (Preview.at_ pts (j + 1))))).
  - apply mapM_pure.
  - intros j _. apply TransCoord_pure.
Qed.

Lemma ringsOf_pure t pts : forall ps,
  Preview.ringsOf (pureProjection t) pts ps
  = Ok (map (fun ve =>
               map (fun j => t (Preview.at_ pts j) (Preview.at_ pts (j + 1)))
                   (Preview.evenSteps (fst ve * 2) (snd ve)))
            (combine ps (map (fun k => Preview.ringEnd (nth_error ps (S k)) pts)
                             (seq 0 (List.length ps))))).
Proof.
  induction ps as [|v rest IH]; [reflexivity|].
  cbn [Preview.ringsOf]. rewrite pushPairs_pure, IH. cbn [bind].
  cbn [List.length seq map combine fst snd nth_error].
  rewrite <- seq_shift, map_map. cbn [nth_error].
  destruct rest; reflexivity.
Qed.

Lemma identity_pure : Preview.identity = pureProjection (fun x y => (x, y)).
Proof. reflexivity. Qed.

Lemma geometryOf_pure t shape :
  Preview.geometryOf (pureProjection t) shape
  = match Preview.geometryOf Preview.identity shape with
    | Ok g => Ok (mapGeometry t g)
    | Throw e => Throw e
    end.
Proof.
  rewrite identity_pure.
  destruct shape as [|x y|[]c]; cbn [Preview.geometryOf].
  - reflexivity.
  - rewrite !TransCoord_pure. reflexivity.
  - rewrite !pushPairs_pure. cbn [bind mapGeometry]. now rewrite map_map.
  - rewrite !ringsOf_pure. cbn [bind mapGeometry]. rewrite map_map.
    do 2 f_equal. apply map_ext. intros ve. now rewrite map_map.
  - rewrite !pushPairs_pure. cbn [bind mapGeometry]. now rewrite map_map.
Qed.

Lemma mapM_natural {A B} (f g : A -> res B) (m : B -> B) l :
  (forall a, f a = match g a with Ok b => Ok (m b) | Throw e => Throw e end) ->
  Preview.mapM f l
  = match Preview.mapM g l with Ok bs => Ok (map m bs) | Throw e => Throw e end.
Proof.
  intros H. induction l as [|a l IH]; [reflexivity|].
  cbn [Preview.mapM]. rewrite H, IH.
  destruct (g a); cbn [bind]; [|reflexivity].
  destruct (Preview.mapM g l); reflexivity.
Qed.

(** X17.  What the projection does to the result, and what it
    does not: with a projection that never throws, the collection is the
    one of the identity projection with each position, and each of the
    two corners of the bounding box, projected on its own. *)
Theorem X17_toGeojson_projects_pointwise t shp dbf :
  Preview.toGeojson (pureProjection t) shp dbf
  = match Preview.toGeojson Preview.identity shp dbf with
    | Ok fc => Ok (mapCollection t fc)
    | Throw e => Throw e
    end.
Proof.
  unfold Preview.toGeojson.
  rewrite !TransCoord_pure. rewrite identity_pure, !TransCoord_pure.
  cbn [bind fst snd].
  rewrite (mapM_natural _ (Preview.featureOf (pureProjection (fun x y => (x, y))) dbf)
             (fun f => mkFeature (mapGeometry t (geometry f)) (properties f))).
  - destruct (Preview.mapM _ _); reflexivity.
  - intros [i r]. unfold Preview.featureOf.
    rewrite geometryOf_pure, <- identity_pure.
    destruct (Preview.geometryOf Preview.identity (rec_shape r)); reflexivity.
Qed.

Lemma expectedFrom_shapes : forall shapes k,
  map rec_shape (Layout.expectedFrom k shapes) = shapes.
Proof.
  induction shapes as [|s shapes IH]; intros k; [reflexivity|].
  cbn [Layout.expectedFrom map rec_shape]. now rewrite IH.
Qed.

(** ** The loaders *)

(** X19.  [SHPParser.load] hands the object URL to
    [URL.revokeObjectURL] once on either way out and logs nothing.  It
    returns what [parse] makes of the body of the response, whether the
    response is [ok] or not; every failure (of [fetch], of reading the
    body, of [parse]) is thrown as an [Error] whose message is
    [Failed to load SHP:] and, on the next line, the message of the
    cause.  It does not return exactly when [parse] does not. *)
Theorem X19_shp_load_revokes fetch fuel url w :
  (forall out w',
      Loader.SHPParser_load fetch fuel url w = Some (out, w') ->
      Loader.revoked w' = url :: Loader.revoked w
      /\ Loader.logged w' = Loader.logged w
      /\ (forall f, out = Ok f ->
            exists response arrayBuffer,
              fetch url false = Ok response
              /\ Loader.resp_arrayBuffer response = Ok arrayBuffer
              /\ SHPParser.parse fuel arrayBuffer url = Some (Ok f))
      /\ (forall e, out = Throw e ->
            errClass e = ErrorK
            /\ exists cause,
                 e = Loader.failedToLoadSHP cause
                 /\ (fetch url false = Throw cause
                     \/ (exists response,
                            fetch url false = Ok response
                            /\ Loader.resp_arrayBuffer response = Throw cause)
                     \/ (exists response arrayBuffer,
                            fetch url false = Ok response
                            /\ Loader.resp_arrayBuffer response = Ok arrayBuffer
                            /\ SHPParser.parse fuel arrayBuffer url
                               = Some (Throw cause)))))
  /\ (Loader.SHPParser_load fetch fuel url w = None <->
      exists response arrayBuffer,
        fetch url false = Ok response
        /\ Loader.resp_arrayBuffer response = Ok arrayBuffer
        /\ SHPParser.parse fuel arrayBuffer url = None).
Proof.
  unfold Loader.SHPParser_load. cbv zeta.
  destruct (fetch url false) as [response|e0] eqn:Ef; cbn [bind].
  2:{ split.
      - intros out w' H. inversion H; subst.
        split; [reflexivity|]. split; [reflexivity|]. split; [discriminate|].
        intros e He. inversion He; subst. split; [reflexivity|].
        exists e0. split; [reflexivity|now left].
      - split; [discriminate|]. intros [r [b [H _]]]. discriminate. }
  destruct (Loader.resp_arrayBuffer response) as [buf|e1] eqn:Eb.
  2:{ split.
      - intros out w' H. inversion H; subst.
        split; [reflexivity|]. split; [reflexivity|]. split; [discriminate|].
        intros e He. inversion He; subst. split; [reflexivity|].
        exists e1. split; [reflexivity|].
        right; left. exists response. now split.
      - split; [discriminate|]. intros [r [b [H1 [H2 _]]]].
        inversion H1; subst. congruence. }
  destruct (SHPParser.parse fuel buf url) as [[f|e2]|] eqn:Ep.
  - split.
    + intros out w' H. inversion H; subst.
      split; [reflexivity|]. split; [reflexivity|]. split; [|discriminate].
      intros f' Hf. inversion Hf; subst. exists response, buf. now repeat split.
    + split; [discriminate|]. intros [r [b [H1 [H2 H3]]]].
      inversion H1; subst. rewrite Eb in H2. inversion H2; subst. congruence.
  - split.
    + intros out w' H. inversion H; subst.
      split; [reflexivity|]. split; [reflexivity|]. split; [discriminate|].
      intros e He. inversion He; subst. split; [reflexivity|].
      exists e2. split; [reflexivity|].
      right; right. exists response, buf. now repeat split.
    + split; [discriminate|]. intros [r [b [H1 [H2 H3]]]].
      inversion H1; subst. rewrite Eb in H2. inversion H2; subst. congruence.
  - split; [discriminate|]. split; [|reflexivity].
    intros _. exists response, buf. now repeat split.
Qed.

Lemma X19_shp_load_revokes_witness :
  Loader.SHPParser_load Cases.offline 0 "blob:a" Cases.untouched
  = Some (Throw (Loader.failedToLoadSHP (mkError TypeErrorK "Failed to fetch")),
          Loader.mkWorld ["blob:a"%string] [])
  /\ Loader.revoked (Loader.mkWorld ["blob:a"%string] [])
     = "blob:a"%string :: Loader.revoked Cases.untouched.
Proof.
  assert (H : Loader.SHPParser_load Cases.offline 0 "blob:a" Cases.untouched
              = Some (Throw (Loader.failedToLoadSHP
                               (mkError TypeErrorK "Failed to fetch")),
                      Loader.mkWorld ["blob:a"%string] []))
    by reflexivity.
  split; [exact H|].
  exact (proj1 (proj1 (X19_shp_load_revokes Cases.offline 0 "blob:a"
                         Cases.untouched) _ _ H)).
Defined.

(** X20.  [DBFParser.load] returns once the calls it awaits have.
    It hands the object URL to [URL.revokeObjectURL] only when it
    succeeds, which takes both fetches, an [ok] first response, both
    bodies, a label the [TextDecoder] knows and a table that decodes; on
    failure the URL is not revoked, the error is logged once and thrown
    again unchanged.  A first response that is not [ok] fails with
    [Failed to load binary data from <url>], and so does, in some way, a
    label the [TextDecoder] does not know. *)
Theorem X20_dbf_load_outcomes fetch TextDecoder url encoding w :
  exists out w',
    Loader.DBFParser_load fetch TextDecoder url encoding w = Some (out, w')
    /\ (forall d, out = Ok d ->
          Loader.revoked w' = url :: Loader.revoked w
          /\ Loader.logged w' = Loader.logged w
          /\ exists binaryResponse binaryData textResponse decoder textBuffer,
               fetch url false = Ok binaryResponse
               /\ Loader.resp_ok binaryResponse = true
               /\ Loader.resp_arrayBuffer binaryResponse = Ok binaryData
               /\ fetch url true = Ok textResponse
               /\ TextDecoder encoding = Ok decoder
               /\ Loader.resp_arrayBuffer textResponse = Ok textBuffer
               /\ DBFParser.parse binaryData url (decoder textBuffer) encoding
                  = Some (Ok d))
    /\ (forall e, out = Throw e ->
          Loader.revoked w' = Loader.revoked w
          /\ Loader.logged w' = e :: Loader.logged w)
    /\ (forall binaryResponse,
          fetch url false = Ok binaryResponse ->
          Loader.resp_ok binaryResponse = false ->
          out = Throw (Loader.failedBinary url))
    /\ (forall e, TextDecoder encoding = Throw e -> isOk out = false).
Proof.
  unfold Loader.DBFParser_load. cbv zeta.
  destruct (fetch url false) as [r|e0] eqn:Ef; cbn [bind].
  2:{ eexists _, _. split; [reflexivity|].
      split; [discriminate|]. split.
      - intros e He. inversion He; subst. now split.
      - split; [discriminate|reflexivity]. }
  destruct (Loader.resp_ok r) eqn:Eok; cbn [bind].
  2:{ eexists _, _. split; [reflexivity|].
      split; [discriminate|]. split.
      - intros e He. inversion He; subst. now split.
      - split; [|reflexivity]. intros r' Hr' _. reflexivity. }
  destruct (Loader.resp_arrayBuffer r) as [buf|e1] eqn:Eb; cbn [bind].
  2:{ eexists _, _. split; [reflexivity|].
      split; [discriminate|]. split.
      - intros e He. inversion He; subst. now split.
      - split; [|reflexivity]. intros r' Hr' Hno. inversion Hr'; subst. congruence. }
  destruct (fetch url true) as [r2|e2] eqn:Ef2; cbn [bind].
  2:{ eexists _, _. split; [reflexivity|].
      split; [discriminate|]. split.
      - intros e He. inversion He; subst. now split.
      - split; [|reflexivity]. intros r' Hr' Hno. inversion Hr'; subst. congruence. }
  destruct (TextDecoder encoding) as [dec|e3] eqn:Ed; cbn [bind].
  2:{ eexists _, _. split; [reflexivity|].
      split; [discriminate|]. split.
      - intros e He. inversion He; subst. now split.
      - split; [|reflexivity]. intros r' Hr' Hno. inversion Hr'; subst. congruence. }
  destruct (Loader.resp_arrayBuffer r2) as [tbuf|e4] eqn:Eb2; cbn [bind].
  2:{ eexists _, _. split; [reflexivity|].
      split; [discriminate|]. split.
      - intros e He. inversion He; subst. now split.
      - split; [|discriminate]. intros r' Hr' Hno. inversion Hr'; subst. congruence. }
  destruct (parse_total buf url (dec tbuf) encoding) as [[d|e5] Hp]; rewrite Hp.
  - eexists _, _. split; [reflexivity|]. split.
    + intros d' Hd. inversion Hd; subst.
      split; [reflexivity|]. split; [reflexivity|].
      exists r, buf, r2, dec, tbuf. now repeat split.
    + split; [discriminate|]. split; [|discriminate].
      intros r' Hr' Hno. inversion Hr'; subst. congruence.
  - eexists _, _. split; [reflexivity|].
    split; [discriminate|]. split.
    + intros e He. inversion He; subst. now split.
    + split; [|discriminate]. intros r' Hr' Hno. inversion Hr'; subst. congruence.
Qed.

Lemma X20_dbf_load_outcomes_witness :
  Cases.notFound "blob:b" false = Ok (Loader.mkResponse false (Ok []))
  /\ exists w',
       Loader.DBFParser_load Cases.notFound Cases.bytewise "blob:b"
         (ofString "utf-8") Cases.untouched
       = Some (Throw (Loader.failedBinary "blob:b"), w')
       /\ Loader.revoked w' = [].
Proof.
  assert (H : Cases.notFound "blob:b" false = Ok (Loader.mkResponse false (Ok [])))
    by reflexivity.
  split; [exact H|].
  destruct (X20_dbf_load_outcomes Cases.notFound Cases.bytewise "blob:b"
              (ofString "utf-8") Cases.untouched)
    as [out [w' [Hl [_ [Ht [Hno _]]]]]].
  pose proof (Hno _ H eq_refl) as Hout. subst out.
  exists w'. split; [exact Hl|].
  exact (proj1 (Ht _ eq_refl)).
Defined.

(* ================================================================== *)
(** * The assembly, on the projection and the stored pairs             *)
(* ================================================================== *)

(** [TransCoord] hands on what the projection returns. *)
Lemma TransCoord_proj4 proj4 x y : Preview.TransCoord proj4 x y = proj4 x y.
Proof.
  unfold Preview.TransCoord. destruct (proj4 x y) as [[lon lat]|]; reflexivity.
Qed.

Lemma mapM_reproject proj4 pairs :
  Preview.mapM (reproject proj4) pairs = projectAll proj4 pairs.
Proof.
  induction pairs as [|xy rest IH]; [reflexivity|].
  cbn [Preview.mapM projectAll]. unfold reproject at 1.
  rewrite TransCoord_proj4, IH.
  destruct (proj4 (Some (fst xy)) (Some (snd xy))); cbn [bind]; [|reflexivity].
  destruct (projectAll proj4 rest); reflexivity.
Qed.

Lemma mapM_rings {A} proj4 (ring : A -> list (float64 * float64)) ks :
  Preview.mapM (fun k => Preview.mapM (reproject proj4) (ring k)) ks
  = projectRings proj4 (map ring ks).
Proof.
  induction ks as [|k ks IH]; [reflexivity|].
  cbn [Preview.mapM map projectRings]. rewrite mapM_reproject, IH.
  destruct (projectAll proj4 (ring k)); cbn [bind]; [|reflexivity].
  destruct (projectRings proj4 (map ring ks)); reflexivity.
Qed.

Lemma pairsOf_flat {A} (l : list A) n :
  List.length l = (2 * n)%nat ->
  flat_map (fun xy => [fst xy; snd xy]) (pairsOf l) = l.
Proof.
  revert l. induction n as [|n IH]; intros l H.
  - destruct l; [reflexivity|discriminate].
  - destruct l as [|x [|y l]]; cbn [List.length] in H; try lia.
    cbn [pairsOf flat_map fst snd app]. f_equal. f_equal. apply IH. lia.
Qed.

Lemma pairsOf_nth {A} : forall (l : list A) i x y,
  nth_error (pairsOf l) i = Some (x, y) ->
  nth_error l (2 * i) = Some x /\ nth_error l (2 * i + 1) = Some y.
Proof.
  fix IH 1. intros l i x y.
  destruct l as [|a [|b l]]; cbn [pairsOf]; try (now destruct i).
  destruct i as [|i]; cbn [nth_error].
  - intros H. inversion H; subst. split; reflexivity.
  - intros H. apply IH in H.
    replace (2 * S i)%nat with (S (S (2 * i))) by lia.
    replace (S (S (2 * i)) + 1)%nat with (S (S (2 * i + 1))) by lia.
    exact H.
Qed.

Lemma projectAll_vertexwise proj4 (points : list float64) n cs :
  List.length points = (2 * n)%nat ->
  projectAll proj4 (pairsOf points) = Ok cs ->
  vertexwise proj4 points cs.
Proof.
  intros Hn H. pose proof (pairsOf_length points n Hn) as Hp.
  assert (G : forall pairs cs,
             projectAll proj4 pairs = Ok cs ->
             List.length cs = List.length pairs
             /\ forall i pos, nth_error cs i = Some pos ->
                  exists xy, nth_error pairs i = Some xy
                             /\ proj4 (Some (fst xy)) (Some (snd xy)) = Ok pos).
  { clear. induction pairs as [|xy rest IH]; intros cs; cbn [projectAll].
    - intros H. inversion H. split; [reflexivity|]. intros i pos Hi. now destruct i.
    - destruct (proj4 (Some (fst xy)) (Some (snd xy))) as [c|] eqn:Ec; [|discriminate].
      destruct (projectAll proj4 rest) as [cs'|] eqn:Er; [|discriminate].
      intros H. inversion H; subst cs. destruct (IH cs' eq_refl) as [Hl Hi].
      split; [cbn [List.length]; now rewrite Hl|].
      intros i pos. destruct i as [|i]; cbn [nth_error].
      + intros Hpos. inversion Hpos; subst. now exists xy.
      + apply Hi. }
  destruct (G _ _ H) as [Hl Hi]. split; [lia|].
  intros i pos Hpos. destruct (Hi i pos Hpos) as [[x y] [Hxy Hpr]].
  exists x, y. apply pairsOf_nth in Hxy. destruct Hxy. now repeat split.
Qed.

(** The geometry of a shape whose points are whole pairs and whose part
    indices lie within them. *)
Lemma geometryOf_projected proj4 shape :
  (forall t c, shape = ShapeMulti t c ->
               exists n, List.length (points c) = (2 * n)%nat) ->
  partsWithin shape ->
  Preview.geometryOf proj4 shape = projectedGeometry proj4 shape.
Proof.
  intros Heven Hparts.
  destruct shape as [|x y|t c]; cbn [Preview.geometryOf projectedGeometry].
  - reflexivity.
  - rewrite TransCoord_proj4. destruct (proj4 (Some x) (Some y)); reflexivity.
  - destruct (Heven t c eq_refl) as [n Hn]. destruct t.
    + rewrite (pushPairs_all proj4 _ n Hn), mapM_reproject.
      destruct (projectAll proj4 (pairsOf (points c))); reflexivity.
    + cbn [partsWithin] in Hparts.
      rewrite (pairsOf_length _ n Hn) in Hparts.
      rewrite (ringsOf_ringStop proj4 _ n _ Hn Hparts), mapM_rings.
      unfold ringsCut. rewrite (pairsOf_length _ n Hn).
      destruct (projectRings proj4 _); reflexivity.
    + rewrite (pushPairs_all proj4 _ n Hn), mapM_reproject.
      destruct (projectAll proj4 (pairsOf (points c))); reflexivity.
Qed.


(** C7.  For a decoded shape: a Point becomes a GeoJSON Point that holds
    what the projection returns for its one pair; a Polyline becomes a
    LineString and a MultiPoint a MultiPoint, either holding one
    position per pair of [points], in order and with no grouping, each
    what the projection returns for that pair; the first pair the
    projection throws on is the outcome. *)
Theorem C7_point_linestring_multipoint proj4 dv idx len shape :
  SHPParser.parseShape dv idx len = Ok shape ->
  match shape with
  | ShapePoint x y =>
      Preview.geometryOf proj4 shape
      = match proj4 (Some x) (Some y) with
        | Ok c => Ok (GPoint c)
        | Throw e => Throw e
        end
  | ShapeMulti M_POLYLINE c =>
      Preview.geometryOf proj4 shape
      = match projectAll proj4 (pairsOf (points c)) with
        | Ok cs => Ok (GLineString cs)
        | Throw e => Throw e
        end
      /\ flat_map (fun xy => [fst xy; snd xy]) (pairsOf (points c)) = points c
      /\ forall g, Preview.geometryOf proj4 shape = Ok g ->
                   exists cs, g = GLineString cs /\ vertexwise proj4 (points c) cs
  | ShapeMulti M_MULTIPOINT c =>
      Preview.geometryOf proj4 shape
      = match projectAll proj4 (pairsOf (points c)) with
        | Ok cs => Ok (GMultiPoint cs)
        | Throw e => Throw e
        end
      /\ flat_map (fun xy => [fst xy; snd xy]) (pairsOf (points c)) = points c
      /\ forall g, Preview.geometryOf proj4 shape = Ok g ->
                   exists cs, g = GMultiPoint cs /\ vertexwise proj4 (points c) cs
  | _ => True
  end.
Proof.
  intros H.
  destruct shape as [|x y|[] c]; try exact I.
  - apply (geometryOf_projected proj4 (ShapePoint x y)); [discriminate|exact I].
  - destruct (parseShape_points_even _ _ _ _ _ H) as [n Hn].
    assert (E : Preview.geometryOf proj4 (ShapeMulti M_POLYLINE c)
                = projectedGeometry proj4 (ShapeMulti M_POLYLINE c)).
    { apply geometryOf_projected; [|exact I].
      intros t c' Hc. inversion Hc; subst. now exists n. }
    split; [exact E|]. split; [now apply pairsOf_flat with n|].
    intros g Hg. rewrite E in Hg. cbn [projectedGeometry] in Hg.
    destruct (projectAll proj4 (pairsOf (points c))) as [cs|] eqn:Ep; [|discriminate].
    inversion Hg; subst g. exists cs. split; [reflexivity|].
    now apply projectAll_vertexwise with n.
  - destruct (parseShape_points_even _ _ _ _ _ H) as [n Hn].
    assert (E : Preview.geometryOf proj4 (ShapeMulti M_MULTIPOINT c)
                = projectedGeometry proj4 (ShapeMulti M_MULTIPOINT c)).
    { apply geometryOf_projected; [|exact I].
      intros t c' Hc. inversion Hc; subst. now exists n. }
    split; [exact E|]. split; [now apply pairsOf_flat with n|].
    intros g Hg. rewrite E in Hg. cbn [projectedGeometry] in Hg.
    destruct (projectAll proj4 (pairsOf (points c))) as [cs|] eqn:Ep; [|discriminate].
    inversion Hg; subst g. exists cs. split; [reflexivity|].
    now apply projectAll_vertexwise with n.
Qed.

Lemma C7_point_linestring_multipoint_witness :
  SHPParser.parseShape (Layout.payload (ShapeMulti M_POLYLINE Inputs.zigzag)) 0 40
  = Ok (ShapeMulti M_POLYLINE Inputs.zigzag)
  /\ Preview.geometryOf Inputs.swap (ShapeMulti M_POLYLINE Inputs.zigzag)
     = Ok (GLineString [(Some Examples.d1, Some Examples.d0);
                        (Some Examples.lon, Some Examples.d2)]).
Proof.
  assert (H : SHPParser.parseShape
                (Layout.payload (ShapeMulti M_POLYLINE Inputs.zigzag)) 0 40
              = Ok (ShapeMulti M_POLYLINE Inputs.zigzag))
    by (vm_compute; reflexivity).
  split; [exact H|].
  rewrite (proj1 (C7_point_linestring_multipoint Inputs.swap _ 0 40
                    (ShapeMulti M_POLYLINE Inputs.zigzag) H)).
  reflexivity.
Defined.

(** Where no part index after the first is zero, the loop cuts the rings
    the specification describes. *)
Lemma ringsCut_described parts (pairs : list (float64 * float64)) :
  Forall (fun p => p <> 0) (tl parts) ->
  ringsCut parts pairs = DescribedRings.rings parts pairs.
Proof.
  intros Hz. unfold ringsCut, DescribedRings.rings. apply map_ext_in.
  intros k _. unfold DescribedRings.ring. f_equal.
  unfold ringStop. destruct (nth_error parts (S k)) as [v|] eqn:Ev.
  - rewrite (nth_error_nth _ _ _ Ev).
    destruct (Z.eqb_spec v 0) as [->|]; [|reflexivity].
    exfalso. destruct parts as [|p0 rest]; [discriminate|].
    cbn [nth_error tl] in *. rewrite Forall_forall in Hz.
    apply (Hz 0); [|reflexivity]. now apply nth_error_In with k.
  - apply nth_error_None in Ev. now rewrite nth_overflow.
Qed.

(** C3.  The rings of a polygon, on a shape the decoder returns whose
    second part index is 0: six points and [parts = [0, 0]].  The
    specification describes an empty first ring, the pairs [0 .. 0),
    and a second ring of all six pairs; [toGeojson] reads the 0 at
    [parts[1]] as no entry and gives the first ring all six pairs too.
    On [parts = [0, 4]] and six points, and wherever the part indices
    lie within the points and none after the first is 0, it gives the
    rings described. *)
Theorem C3_polygon_rings :
  SHPParser.parseShape (Layout.payload (ShapeMulti M_POLYGON Cases.zeroPart)) 0 74
  = Ok (ShapeMulti M_POLYGON Cases.zeroPart)
  /\ (forall proj4,
        Preview.geometryOf proj4 (ShapeMulti M_POLYGON Cases.zeroPart)
        = match projectAll proj4 (pairsOf (points Cases.zeroPart)) with
          | Ok r => Ok (GPolygon [r; r])
          | Throw e => Throw e
          end
        /\ DescribedRings.polygon proj4 Cases.zeroPart
           = match projectAll proj4 (pairsOf (points Cases.zeroPart)) with
             | Ok r => Ok (GPolygon [[]; r])
             | Throw e => Throw e
             end)
  /\ Preview.geometryOf Inputs.swap (ShapeMulti M_POLYGON Cases.zeroPart)
     <> DescribedRings.polygon Inputs.swap Cases.zeroPart
  /\ (forall proj4,
        Preview.geometryOf proj4 Examples.polygon
        = DescribedRings.polygon proj4 Examples.twoRings
        /\ DescribedRings.rings (parts Examples.twoRings)
             (pairsOf (points Examples.twoRings))
           = [firstn 4 (pairsOf (points Examples.twoRings));
              skipn 4 (pairsOf (points Examples.twoRings))])
  /\ (forall proj4 c,
        (exists n, List.length (points c) = (2 * n)%nat) ->
        partsWithin (ShapeMulti M_POLYGON c) ->
        Forall (fun p => p <> 0) (tl (parts c)) ->
        Preview.geometryOf proj4 (ShapeMulti M_POLYGON c)
        = DescribedRings.polygon proj4 c).
Proof.
  assert (G : forall proj4 c,
             (exists n, List.length (points c) = (2 * n)%nat) ->
             partsWithin (ShapeMulti M_POLYGON c) ->
             Forall (fun p => p <> 0) (tl (parts c)) ->
             Preview.geometryOf proj4 (ShapeMulti M_POLYGON c)
             = DescribedRings.polygon proj4 c).
  { intros proj4 c Hn Hw Hz. rewrite geometryOf_projected; [|now intros t c' [= _ <-]|exact Hw].
    cbn [projectedGeometry]. unfold DescribedRings.polygon.
    now rewrite ringsCut_described. }
  assert (Z : forall proj4,
             Preview.geometryOf proj4 (ShapeMulti M_POLYGON Cases.zeroPart)
             = match projectAll proj4 (pairsOf (points Cases.zeroPart)) with
               | Ok r => Ok (GPolygon [r; r])
               | Throw e => Throw e
               end).
  { intros proj4. rewrite geometryOf_projected.
    - cbn [projectedGeometry]. unfold ringsCut.
      change (projectRings proj4
                (map (fun k => between (nth k (parts Cases.zeroPart) 0)
                                 (ringStop (parts Cases.zeroPart)
                                    (Z.of_nat (List.length
                                       (pairsOf (points Cases.zeroPart)))) k)
                                 (pairsOf (points Cases.zeroPart)))
                     (seq 0 (List.length (parts Cases.zeroPart)))))
        with (projectRings proj4 [pairsOf (points Cases.zeroPart);
                                  pairsOf (points Cases.zeroPart)]).
      cbn [projectRings].
      destruct (projectAll proj4 (pairsOf (points Cases.zeroPart))); reflexivity.
    - intros t c [= _ <-]. now exists 6%nat.
    - repeat constructor; cbn; lia. }
  split; [vm_compute; reflexivity|].
  split; [|split; [|split; [|exact G]]].
  - intros proj4. split; [apply Z|].
    unfold DescribedRings.polygon.
    change (DescribedRings.rings (parts Cases.zeroPart)
              (pairsOf (points Cases.zeroPart)))
      with [[]; pairsOf (points Cases.zeroPart)].
    cbn [projectRings projectAll].
    destruct (projectAll proj4 (pairsOf (points Cases.zeroPart))); reflexivity.
  - vm_compute. discriminate.
  - intros proj4. split; [|reflexivity].
    apply G; [now exists 6%nat|repeat constructor; cbn; lia
             |repeat constructor; discriminate].
Qed.







(** ** From the bytes of a file to the collection *)

Lemma featuresOf_projected proj4 dbf : forall (rs : list SHPRecord) s,
  Forall (fun r => (forall t c, rec_shape r = ShapeMulti t c ->
                                exists n, List.length (points c) = (2 * n)%nat)
                   /\ partsWithin (rec_shape r)) rs ->
  Preview.mapM (Preview.featureOf proj4 dbf) (combine (seq s (List.length rs)) rs)
  = match projectShapes proj4 (map rec_shape rs) with
    | Ok gs => Ok (featuresFrom dbf s gs)
    | Throw e => Throw e
    end.
Proof.
  induction rs as [|r rs IH]; intros s Hall; [reflexivity|].
  apply Forall_cons_iff in Hall. destruct Hall as [[He Hw] Hall].
  cbn [List.length seq combine Preview.mapM map projectShapes].
  unfold Preview.featureOf at 1.
  rewrite (geometryOf_projected proj4 _ He Hw), (IH (S s) Hall).
  destruct (projectedGeometry proj4 (rec_shape r)); cbn [bind]; [|reflexivity].
  destruct (projectShapes proj4 (map rec_shape rs)); reflexivity.
Qed.

Lemma toGeojson_projected proj4 h shapes url dbf :
  Forall Layout.encodable shapes ->
  Forall partsWithin shapes ->
  Preview.toGeojson proj4 (expectedFile h shapes url) dbf
  = projectedCollection proj4 h shapes dbf.
Proof.
  intros He Hw. unfold Preview.toGeojson, projectedCollection.
  cbn [expectedFile shp_minX shp_minY shp_maxX shp_maxY shp_records].
  rewrite !TransCoord_proj4.
  destruct (proj4 (Some (Layout.h_minX h)) (Some (Layout.h_minY h))) as [lo|];
    cbn [bind]; [|reflexivity].
  destruct (proj4 (Some (Layout.h_maxX h)) (Some (Layout.h_maxY h))) as [hi|];
    cbn [bind]; [|reflexivity].
  rewrite featuresOf_projected.
  - rewrite expectedFrom_shapes.
    destruct (projectShapes proj4 shapes); reflexivity.
  - apply Forall_forall. intros r Hr.
    assert (Hs : In (rec_shape r) shapes).
    { rewrite <- (expectedFrom_shapes shapes 1). now apply in_map. }
    rewrite Forall_forall in He, Hw. split; [|now apply Hw].
    intros t c Hc. specialize (He _ Hs). rewrite Hc in He.
    destruct He as [_ [n Hn]]. exists n. lia.
Qed.

(** X18.  From the bytes to the collection, for any projection: a file
    that lays out a header and shapes whose part indices lie within
    their points decodes with as much fuel as there are shapes, and of
    the result [toGeojson] makes what the projection makes of the two
    corners of the header and then of the pairs of each shape in turn:
    the first error on the way (a Null shape is one,
    [Unsupported shape type: 0]), or else the collection whose [bbox] is
    the two projected corners and whose feature [i] holds the projected
    pairs of shape [i], the rings of a polygon cut at its parts, and
    [dbf.records[i]]. *)
Theorem X18_encoded_file_to_geojson proj4 h shapes url fuel dbf :
  Layout.int32 (Layout.h_version h) ->
  Layout.int32 (Layout.h_shapeType h) ->
  Forall Layout.encodable shapes ->
  Z.of_nat (List.length (Layout.file h shapes)) < 2 ^ 32 ->
  (List.length shapes <= fuel)%nat ->
  Forall partsWithin shapes ->
  exists f,
    SHPParser.parse fuel (Layout.file h shapes) url = Some (Ok f)
    /\ Preview.toGeojson proj4 f dbf = projectedCollection proj4 h shapes dbf.
Proof.
  intros Hv Ht He Hsz Hf Hw. exists (expectedFile h shapes url).
  split; [now apply parse_file|now apply toGeojson_projected].
Qed.

Lemma X18_encoded_file_to_geojson_witness :
  exists f fc,
    SHPParser.parse 3 (Layout.file Examples.info Cases.solid) "a.shp" = Some (Ok f)
    /\ Preview.toGeojson Proj4.sameSystem f Examples.dbf = Ok fc
    /\ projectedCollection Proj4.sameSystem Examples.info Cases.solid Examples.dbf
       = Ok fc
    /\ List.length (features fc) = 3%nat.
Proof.
  assert (H1 : Layout.int32 (Layout.h_version Examples.info))
    by (unfold Layout.int32; cbn; lia).
  assert (H2 : Layout.int32 (Layout.h_shapeType Examples.info))
    by (unfold Layout.int32; cbn; lia).
  assert (H3 : Forall Layout.encodable Cases.solid).
  { repeat apply Forall_cons; try apply Forall_nil; cbn [Layout.encodable];
      try exact I.
    - split; [repeat constructor; unfold Layout.int32; lia|exists 6%nat; reflexivity].
    - split; [repeat constructor; unfold Layout.int32; lia|exists 2%nat; reflexivity]. }
  assert (H4 : Z.of_nat (List.length (Layout.file Examples.info Cases.solid))
               < 2 ^ 32) by (vm_compute; reflexivity).
  assert (H5 : (List.length Cases.solid <= 3)%nat) by (cbn; lia).
  assert (H6 : Forall partsWithin Cases.solid).
  { repeat apply Forall_cons; try apply Forall_nil; cbn [partsWithin];
      try exact I.
    all: cbn; lia. }
  assert (H7 : exists fc,
             projectedCollection Proj4.sameSystem Examples.info Cases.solid
               Examples.dbf = Ok fc
             /\ List.length (features fc) = 3%nat)
    by (eexists; split; vm_compute; reflexivity).
  destruct H7 as [fc [Hc Hl]].
  destruct (X18_encoded_file_to_geojson Proj4.sameSystem Examples.info
              Cases.solid "a.shp" 3%nat Examples.dbf H1 H2 H3 H4 H5 H6)
    as [f [Hp Hg]].
  exists f, fc. split; [exact Hp|]. split; [now rewrite Hg|].
  split; [exact Hc|exact Hl].
Defined.
